(** * 3D Maximal-Rectangles packing engine: shallow embedding and properties

    Embedding of [src/core/packing.py] (with the data classes of
    [src/models/container.py] and [src/models/product.py]), of the
    packing calls of [main.py] and of [palet_app/services.py].

    Numbers.  The Python code works on floats holding centimetres and
    kilograms.  The engine is embedded twice.  The exact model takes
    every quantity as an exact integer ([Z]); it carries the properties
    that do not depend on the arithmetic (order, counts, errors, what
    the searches and the helpers compute on given numbers).  Module
    [B64] is the same code on binary64 floats, with the rounding of
    every sum, difference and product; it carries the properties of
    bounds, overlap and weights.  On inputs that are whole numbers of a
    unit [2^e], below [2^51] units, the two agree number by number.
    [float('inf')], the initial value of the running minimum in the
    searches, is the [None] of an option in the exact model and
    [infinity] in [B64].

    Errors.  The only operation of the packer that can raise is
    [orientations[0]] on an empty orientation list; it is the [None] of
    [pack_step] and [pack_maximal_rectangles]. *)

From Stdlib Require Import ZArith List Bool Lia PeanoNat Permutation Floats.
Import ListNotations.

Local Open Scope Z_scope.

(* ================================================================== *)
(** ** Data model                                                      *)
(* ================================================================== *)

(** The exact model: every number of the Python objects is read as an
    exact integer.  Module [B64], further down, has the same records and
    functions on binary64 floats. *)

(** [class PaletConfig] (models/container.py). *)
Module PaletConfig.
Record t : Type := mk {
  length : Z;
  width : Z;
  height : Z;
  max_weight : Z
}.
End PaletConfig.

(** [class UrunData] (models/product.py); the fields the packer and the
    orientation helper read. *)
Module UrunData.
Record t : Type := mk {
  id : Z;
  boy : Z;
  en : Z;
  yukseklik : Z;
  agirlik : Z;
  donus_serbest : bool
}.
End UrunData.

(** An orientation: the triple [(item_l, item_w, item_h)]. *)
Definition Dims : Type := (Z * Z * Z)%type.

(** [class FreeRectangle] (core/packing.py).  The attribute [volume] is set
    once by the constructor from the three sizes and no field is ever
    reassigned, so it is a function of the record. *)
Module FreeRectangle.
Record t : Type := mk {
  x : Z;
  y : Z;
  z : Z;
  length : Z;
  width : Z;
  height : Z
}.

Definition volume (self : t) : Z := length self * width self * height self.

Definition can_fit (self : t) (item_l item_w item_h : Z) : bool :=
  (length self >=? item_l) && (width self >=? item_w) && (height self >=? item_h).
End FreeRectangle.

(** The dict appended to [current_pallet['items']]. *)
Module Placement.
Record t : Type := mk {
  urun : UrunData.t;
  x : Z;
  y : Z;
  z : Z;
  L : Z;
  W : Z;
  H : Z
}.
End Placement.

(** The dict appended to [pallets]: [{'items': ..., 'weight': ...}]. *)
Module Pallet.
Record t : Type := mk {
  items : list Placement.t;
  weight : Z
}.
End Pallet.

(** The dict [current_pallet]: items, weight and the free list. *)
Module CurrentPallet.
Record t : Type := mk {
  items : list Placement.t;
  weight : Z;
  free_rects : list FreeRectangle.t
}.
End CurrentPallet.

(* ================================================================== *)
(** ** Geometry                                                        *)
(* ================================================================== *)

Definition intersects_3d (rect : FreeRectangle.t)
    (placed_x placed_y placed_z placed_l placed_w placed_h : Z) : bool :=
  negb (
    (FreeRectangle.x rect >=? placed_x + placed_l) ||
    (placed_x >=? FreeRectangle.x rect + FreeRectangle.length rect) ||
    (FreeRectangle.y rect >=? placed_y + placed_w) ||
    (placed_y >=? FreeRectangle.y rect + FreeRectangle.width rect) ||
    (FreeRectangle.z rect >=? placed_z + placed_h) ||
    (placed_z >=? FreeRectangle.z rect + FreeRectangle.height rect)).

(** [split_rectangle_maximal]: six guarded appends to [new_rects]. *)
Definition split_rectangle_maximal (rect : FreeRectangle.t)
    (placed_x placed_y placed_z placed_l placed_w placed_h : Z)
    : list FreeRectangle.t :=
  let rx := FreeRectangle.x rect in
  let ry := FreeRectangle.y rect in
  let rz := FreeRectangle.z rect in
  let rl := FreeRectangle.length rect in
  let rw := FreeRectangle.width rect in
  let rh := FreeRectangle.height rect in
  let new_rects := [] in
  (* LEFT *)
  let new_rects :=
    if rx <? placed_x
    then new_rects ++ [FreeRectangle.mk rx ry rz (placed_x - rx) rw rh]
    else new_rects in
  (* RIGHT *)
  let new_rects :=
    if placed_x + placed_l <? rx + rl
    then new_rects ++ [FreeRectangle.mk (placed_x + placed_l) ry rz
                         ((rx + rl) - (placed_x + placed_l)) rw rh]
    else new_rects in
  (* FRONT *)
  let new_rects :=
    if ry <? placed_y
    then new_rects ++ [FreeRectangle.mk rx ry rz rl (placed_y - ry) rh]
    else new_rects in
  (* BACK *)
  let new_rects :=
    if placed_y + placed_w <? ry + rw
    then new_rects ++ [FreeRectangle.mk rx (placed_y + placed_w) rz rl
                         ((ry + rw) - (placed_y + placed_w)) rh]
    else new_rects in
  (* BOTTOM *)
  let new_rects :=
    if rz <? placed_z
    then new_rects ++ [FreeRectangle.mk rx ry rz rl rw (placed_z - rz)]
    else new_rects in
  (* TOP *)
  let new_rects :=
    if placed_z + placed_h <? rz + rh
    then new_rects ++ [FreeRectangle.mk rx ry (placed_z + placed_h) rl rw
                         ((rz + rh) - (placed_z + placed_h))]
    else new_rects in
  new_rects.

(** [find_best_rectangle]: the loop state is [(best_rect,
    min_short_side)]; the two are assigned together in the first branch, and
    [None] is the initial [(None, inf)].  The [elif] needs equality with a
    finite minimum, hence a [best_rect] that is not [None]. *)
Definition find_best_rectangle_step (item_l item_w item_h : Z)
    (st : option (FreeRectangle.t * Z)) (rect : FreeRectangle.t)
    : option (FreeRectangle.t * Z) :=
  if FreeRectangle.can_fit rect item_l item_w item_h then
    let residual_l := FreeRectangle.length rect - item_l in
    let residual_w := FreeRectangle.width rect - item_w in
    let short_side_residual := Z.min residual_l residual_w in
    match st with
    | None => Some (rect, short_side_residual)
    | Some (best_rect, min_short_side_residual) =>
        if short_side_residual <? min_short_side_residual then
          Some (rect, short_side_residual)
        else if short_side_residual =? min_short_side_residual then
          let current_vol_diff :=
            FreeRectangle.volume rect - (item_l * item_w * item_h) in
          let best_vol_diff :=
            FreeRectangle.volume best_rect - (item_l * item_w * item_h) in
          if current_vol_diff <? best_vol_diff
          then Some (rect, min_short_side_residual)
          else st
        else st
    end
  else st.

Definition find_best_rectangle (free_rects : list FreeRectangle.t)
    (item_l item_w item_h : Z) : option FreeRectangle.t :=
  option_map fst
    (fold_left (find_best_rectangle_step item_l item_w item_h) free_rects None).

(** [contains outer inner]: the test of the inner loop of
    [remove_redundant_rectangles], [rect2] being [outer] and [rect1]
    [inner]. *)
Definition contains (rect2 rect1 : FreeRectangle.t) : bool :=
  (FreeRectangle.x rect2 <=? FreeRectangle.x rect1) &&
  (FreeRectangle.y rect2 <=? FreeRectangle.y rect1) &&
  (FreeRectangle.z rect2 <=? FreeRectangle.z rect1) &&
  (FreeRectangle.x rect2 + FreeRectangle.length rect2
     >=? FreeRectangle.x rect1 + FreeRectangle.length rect1) &&
  (FreeRectangle.y rect2 + FreeRectangle.width rect2
     >=? FreeRectangle.y rect1 + FreeRectangle.width rect1) &&
  (FreeRectangle.z rect2 + FreeRectangle.height rect2
     >=? FreeRectangle.z rect1 + FreeRectangle.height rect1).

(** [enumerate(rects)]. *)
Definition enumerate {A : Type} (l : list A) : list (nat * A) :=
  combine (seq 0 (List.length l)) l.

(** The inner loop: is [rect1], at index [i], inside some [rect2] at another
    index [j]? *)
Definition is_contained (rects : list FreeRectangle.t) (i : nat)
    (rect1 : FreeRectangle.t) : bool :=
  existsb (fun jr : nat * FreeRectangle.t =>
             negb (Nat.eqb i (fst jr)) && contains (snd jr) rect1)
          (enumerate rects).

Definition remove_redundant_rectangles (rects : list FreeRectangle.t)
    : list FreeRectangle.t :=
  map snd
    (filter (fun ir : nat * FreeRectangle.t =>
               negb (is_contained rects (fst ir) (snd ir)))
            (enumerate rects)).

(* ================================================================== *)
(** ** Orientations                                                    *)
(* ================================================================== *)

(** Modelled from the spec: [possible_orientations_for] lives in
    [src/utils/helpers.py], which is not among the sources.  Section 4.2 of
    the specification: the base triple [(length, width, height)] comes
    first; when the product is rotatable in the horizontal plane the swap
    [(width, length, height)] is added when it is distinct from the base
    triple.  The packer does not depend on this definition: it takes the
    orientation function as a parameter. *)
Definition spec_orientations (urun : UrunData.t) : list Dims :=
  let base := (UrunData.boy urun, UrunData.en urun, UrunData.yukseklik urun) in
  if UrunData.donus_serbest urun
     && negb (UrunData.boy urun =? UrunData.en urun)
  then [base; (UrunData.en urun, UrunData.boy urun, UrunData.yukseklik urun)]
  else [base].

(* ================================================================== *)
(** ** The packer                                                      *)
(* ================================================================== *)

(** The three variables [best_rect], [best_orientation], [min_short_side]
    of the searches: assigned together, initially [(None, None, inf)],
    which is the [None] of [option Candidate]. *)
Definition Candidate : Type := (FreeRectangle.t * Dims * Z)%type.

(** The body of the two search loops: one orientation against one rect. *)
Definition try_rect (dims : Dims) (best : option Candidate)
    (rect : FreeRectangle.t) : option Candidate :=
  let '(item_l, item_w, item_h) := dims in
  if FreeRectangle.can_fit rect item_l item_w item_h then
    let residual_l := FreeRectangle.length rect - item_l in
    let residual_w := FreeRectangle.width rect - item_w in
    let short_side := Z.min residual_l residual_w in
    match best with
    | None => Some (rect, dims, short_side)
    | Some (_, _, min_short_side) =>
        if short_side <? min_short_side
        then Some (rect, dims, short_side)
        else best
    end
  else best.

(** AUTO-ORIENTATION: all orientations against all free rects. *)
Definition search_current (orientations : list Dims)
    (free_rects : list FreeRectangle.t) : option Candidate :=
  fold_left (fun best dims => fold_left (try_rect dims) free_rects best)
            orientations None.

(** SMART NEW PALLET: all orientations against [free_rects[0]]. *)
Definition search_fresh (orientations : list Dims) (rect : FreeRectangle.t)
    : option Candidate :=
  fold_left (fun best dims => try_rect dims best rect) orientations None.

(** The freshly opened pallet. *)
Definition new_pallet (palet_cfg : PaletConfig.t) : CurrentPallet.t :=
  CurrentPallet.mk [] 0
    [FreeRectangle.mk 0 0 0
       (PaletConfig.length palet_cfg) (PaletConfig.width palet_cfg)
       (PaletConfig.height palet_cfg)].

(** [if current_pallet['items']: pallets.append({...})]. *)
Definition emit (pallets : list Pallet.t) (current_pallet : CurrentPallet.t)
    : list Pallet.t :=
  match CurrentPallet.items current_pallet with
  | [] => pallets
  | _ :: _ =>
      pallets ++ [Pallet.mk (CurrentPallet.items current_pallet)
                            (CurrentPallet.weight current_pallet)]
  end.

(** TRUE MAXIMAL RECTANGLES SPLITTING: the loop building
    [new_free_rects]. *)
Definition split_free_rects (free_rects : list FreeRectangle.t)
    (placed_x placed_y placed_z u_l u_w u_h : Z) : list FreeRectangle.t :=
  fold_left
    (fun new_free_rects rect =>
       if intersects_3d rect placed_x placed_y placed_z u_l u_w u_h
       then new_free_rects ++
            split_rectangle_maximal rect placed_x placed_y placed_z u_l u_w u_h
       else new_free_rects ++ [rect])
    free_rects [].

(** Lines 317-347: append the placement, add the weight, split, prune. *)
Definition place (current_pallet : CurrentPallet.t) (urun : UrunData.t)
    (best_rect : FreeRectangle.t) (best_orientation : Dims) : CurrentPallet.t :=
  let '(u_l, u_w, u_h) := best_orientation in
  let placed_x := FreeRectangle.x best_rect in
  let placed_y := FreeRectangle.y best_rect in
  let placed_z := FreeRectangle.z best_rect in
  CurrentPallet.mk
    (CurrentPallet.items current_pallet ++
       [Placement.mk urun placed_x placed_y placed_z u_l u_w u_h])
    (CurrentPallet.weight current_pallet + UrunData.agirlik urun)
    (remove_redundant_rectangles
       (split_free_rects (CurrentPallet.free_rects current_pallet)
          placed_x placed_y placed_z u_l u_w u_h)).

(** The state of the main loop: [(pallets, current_pallet)]. *)
Definition State : Type := (list Pallet.t * CurrentPallet.t)%type.

Section Packer.

(** [possible_orientations_for], imported from [..utils.helpers]. *)
Variable possible_orientations_for : UrunData.t -> list Dims.
Variable palet_cfg : PaletConfig.t.

(** One iteration of [for idx, urun in enumerate(urunler)]. *)
Definition pack_step (st : State) (urun : UrunData.t) : option State :=
  let '(pallets, current_pallet) := st in
  let u_wgt := UrunData.agirlik urun in
  (* weight check *)
  let '(pallets, current_pallet) :=
    if CurrentPallet.weight current_pallet + u_wgt
         >? PaletConfig.max_weight palet_cfg
    then (emit pallets current_pallet, new_pallet palet_cfg)
    else (pallets, current_pallet) in
  let orientations := possible_orientations_for urun in
  match search_current orientations (CurrentPallet.free_rects current_pallet) with
  | Some (best_rect, best_orientation, _) =>
      Some (pallets, place current_pallet urun best_rect best_orientation)
  | None =>
      let pallets := emit pallets current_pallet in
      let current_pallet := new_pallet palet_cfg in
      match CurrentPallet.free_rects current_pallet with
      | [] => None
      | rect :: _ =>
          match search_fresh orientations rect with
          | Some (best_rect, best_orientation, _) =>
              Some (pallets, place current_pallet urun best_rect best_orientation)
          | None =>
              match orientations with
              | [] => None
              | first_orientation :: _ =>
                  Some (pallets, place current_pallet urun rect first_orientation)
              end
          end
      end
  end.

Fixpoint pack_loop (urunler : list UrunData.t) (st : State) : option State :=
  match urunler with
  | [] => Some st
  | urun :: rest =>
      match pack_step st urun with
      | Some st' => pack_loop rest st'
      | None => None
      end
  end.

Definition pack_maximal_rectangles (urunler : list UrunData.t)
    : option (list Pallet.t) :=
  match pack_loop urunler ([], new_pallet palet_cfg) with
  | Some (pallets, current_pallet) => Some (emit pallets current_pallet)
  | None => None
  end.

End Packer.

(* ================================================================== *)
(** ** Vocabulary of the properties                                    *)
(* ================================================================== *)

(** [rect.can_fit(item_l, item_w, item_h)] on an orientation triple. *)
Definition fits (rect : FreeRectangle.t) (dims : Dims) : bool :=
  let '(item_l, item_w, item_h) := dims in
  FreeRectangle.can_fit rect item_l item_w item_h.

(** The BSSF score [min(rect.length - L, rect.width - W)]. *)
Definition short_side_of (rect : FreeRectangle.t) (dims : Dims) : Z :=
  let '(item_l, item_w, _) := dims in
  Z.min (FreeRectangle.length rect - item_l) (FreeRectangle.width rect - item_w).

(** [rect.volume - L*W*H]. *)
Definition volume_residual (rect : FreeRectangle.t) (dims : Dims) : Z :=
  let '(item_l, item_w, item_h) := dims in
  FreeRectangle.volume rect - item_l * item_w * item_h.

(** The single free rect of an empty pallet. *)
Definition whole_pallet (palet_cfg : PaletConfig.t) : FreeRectangle.t :=
  FreeRectangle.mk 0 0 0
    (PaletConfig.length palet_cfg) (PaletConfig.width palet_cfg)
    (PaletConfig.height palet_cfg).

(** A placement inside the pallet cuboid (invariant I1). *)
Definition in_bounds (palet_cfg : PaletConfig.t) (pl : Placement.t) : Prop :=
  0 <= Placement.x pl /\
  Placement.x pl + Placement.L pl <= PaletConfig.length palet_cfg /\
  0 <= Placement.y pl /\
  Placement.y pl + Placement.W pl <= PaletConfig.width palet_cfg /\
  0 <= Placement.z pl /\
  Placement.z pl + Placement.H pl <= PaletConfig.height palet_cfg.

(** A free rect inside the pallet cuboid. *)
Definition rect_in_bounds (palet_cfg : PaletConfig.t) (r : FreeRectangle.t)
    : Prop :=
  0 <= FreeRectangle.x r /\
  FreeRectangle.x r + FreeRectangle.length r <= PaletConfig.length palet_cfg /\
  0 <= FreeRectangle.y r /\
  FreeRectangle.y r + FreeRectangle.width r <= PaletConfig.width palet_cfg /\
  0 <= FreeRectangle.z r /\
  FreeRectangle.z r + FreeRectangle.height r <= PaletConfig.height palet_cfg.

(** Two placed boxes separated along one of the three axes; touching faces
    count as separated (invariant I2). *)
Definition separated (a b : Placement.t) : Prop :=
  Placement.x a + Placement.L a <= Placement.x b \/
  Placement.x b + Placement.L b <= Placement.x a \/
  Placement.y a + Placement.W a <= Placement.y b \/
  Placement.y b + Placement.W b <= Placement.y a \/
  Placement.z a + Placement.H a <= Placement.z b \/
  Placement.z b + Placement.H b <= Placement.z a.

(** [intersects_3d] of a free rect against a placement. *)
Definition intersects_placement (r : FreeRectangle.t) (pl : Placement.t) : bool :=
  intersects_3d r (Placement.x pl) (Placement.y pl) (Placement.z pl)
    (Placement.L pl) (Placement.W pl) (Placement.H pl).

(** Sum of the [agirlik] of the products of a list of placements. *)
Definition items_weight (items : list Placement.t) : Z :=
  fold_right (fun pl acc => UrunData.agirlik (Placement.urun pl) + acc) 0 items.

(** The products of the returned pallets, pallet after pallet. *)
Definition products_of (pallets : list Pallet.t) : list UrunData.t :=
  map Placement.urun (concat (map Pallet.items pallets)).

(** The residual sub-cuboids of section 4.4 step 5, written after the
    specification: each of LEFT, RIGHT, FRONT, BACK, BOTTOM, TOP is emitted
    iff its guard holds.  Compared with [split_rectangle_maximal] in the properties. *)
Definition guarded (guard : bool) (r : FreeRectangle.t) : list FreeRectangle.t :=
  if guard then [r] else [].

Definition residual_sub_cuboids (r : FreeRectangle.t) (px py pz L W H : Z)
    : list FreeRectangle.t :=
  let rx := FreeRectangle.x r in
  let ry := FreeRectangle.y r in
  let rz := FreeRectangle.z r in
  let rl := FreeRectangle.length r in
  let rw := FreeRectangle.width r in
  let rh := FreeRectangle.height r in
  guarded (rx <? px) (FreeRectangle.mk rx ry rz (px - rx) rw rh) ++
  guarded (px + L <? rx + rl)
          (FreeRectangle.mk (px + L) ry rz ((rx + rl) - (px + L)) rw rh) ++
  guarded (ry <? py) (FreeRectangle.mk rx ry rz rl (py - ry) rh) ++
  guarded (py + W <? ry + rw)
          (FreeRectangle.mk rx (py + W) rz rl ((ry + rw) - (py + W)) rh) ++
  guarded (rz <? pz) (FreeRectangle.mk rx ry rz rl rw (pz - rz)) ++
  guarded (pz + H <? rz + rh)
          (FreeRectangle.mk rx ry (pz + H) rl rw ((rz + rh) - (pz + H))).

(** The pairs the search of the packer visits, in the order of its two
    nested loops: orientations outside, free rects inside. *)
Definition candidates (orientations : list Dims)
    (free_rects : list FreeRectangle.t) : list (Dims * FreeRectangle.t) :=
  flat_map (fun dims => map (fun rect => (dims, rect)) free_rects) orientations.

(** No rect of the list lies inside a rect at another position. *)
Definition antichain (rects : list FreeRectangle.t) : Prop :=
  forall i j r1 r2,
    i <> j -> nth_error rects i = Some r1 -> nth_error rects j = Some r2 ->
    contains r2 r1 = false.

(** What one iteration of the main loop does, as a relation: the product
    goes into the current pallet at a fitting free rect, or a fresh pallet is
    opened (the current one being emitted when it has items) and the product
    goes at its origin, in a fitting orientation or, when none fits, in the
    first one. *)
Inductive Step (orient : UrunData.t -> list Dims) (palet_cfg : PaletConfig.t)
    (pallets : list Pallet.t) (cur : CurrentPallet.t) (urun : UrunData.t)
    : State -> Prop :=
| StepKeep rect dims :
    CurrentPallet.weight cur + UrunData.agirlik urun
      <= PaletConfig.max_weight palet_cfg ->
    In rect (CurrentPallet.free_rects cur) ->
    In dims (orient urun) ->
    fits rect dims = true ->
    Step orient palet_cfg pallets cur urun
         (pallets, place cur urun rect dims)
| StepFresh dims :
    In dims (orient urun) ->
    fits (whole_pallet palet_cfg) dims = true ->
    Step orient palet_cfg pallets cur urun
         (emit pallets cur,
          place (new_pallet palet_cfg) urun (whole_pallet palet_cfg) dims)
| StepForced dims rest :
    orient urun = dims :: rest ->
    (forall d, In d (orient urun) -> fits (whole_pallet palet_cfg) d = false) ->
    Step orient palet_cfg pallets cur urun
         (emit pallets cur,
          place (new_pallet palet_cfg) urun (whole_pallet palet_cfg) dims).

(** Placements at two different positions of a pallet are separated. *)
Definition pairwise_separated (items : list Placement.t) : Prop :=
  forall i j a b,
    i <> j -> nth_error items i = Some a -> nth_error items j = Some b ->
    separated a b.

(* ================================================================== *)
(** ** The shelf packer                                                *)
(* ================================================================== *)

(** Python's [l[i]] for an integer index: a negative index counts from the
    end, and an index below [-len(l)] or from [len(l)] on raises
    [IndexError] ([None]). *)
Definition py_index {A : Type} (l : list A) (i : Z) : option A :=
  if 0 <=? i then nth_error l (Z.to_nat i)
  else if 0 <=? Z.of_nat (List.length l) + i
       then nth_error l (Z.to_nat (Z.of_nat (List.length l) + i))
       else None.

(** The local variables of [pack_shelf_based] that live across the
    iterations of its loop. *)
Module ShelfState.
Record t : Type := mk {
  pallets : list Pallet.t;
  current_items : list Placement.t;
  x : Z;
  y : Z;
  z : Z;
  current_weight : Z;
  current_shelf_height : Z;
  current_shelf_y : Z
}.
End ShelfState.

(** The dict appended to [result] by [basit_palet_paketleme]:
    [{'placements': ..., 'weight': ...}]. *)
Module PlacedPallet.
Record t : Type := mk {
  placements : list Placement.t;
  weight : Z
}.
End PlacedPallet.

(** The two places where [pack_shelf_based] closes the open pallet: the
    pallet is appended whether it has items or not, and every cursor is
    reset. *)
Definition shelf_close (st : ShelfState.t) : ShelfState.t :=
  ShelfState.mk
    (ShelfState.pallets st ++
       [Pallet.mk (ShelfState.current_items st) (ShelfState.current_weight st)])
    [] 0 0 0 0 0 0.

(** Lines 383-389: the orientation index of the product at position [idx]:
    the gene when [rot_gen] has one there, else 0; an index at or beyond
    the number of orientations falls back to 0. *)
Definition shelf_rotation (rot_gen : list Z) (idx : nat) (dims : list Dims) : Z :=
  let r := match nth_error rot_gen idx with
           | Some gene => gene
           | None => 0
           end in
  if r >=? Z.of_nat (List.length dims) then 0 else r.

(** Lines 393-398: the weight check. *)
Definition shelf_weight_check (palet_cfg : PaletConfig.t) (u_wgt : Z)
    (st : ShelfState.t) : ShelfState.t :=
  if ShelfState.current_weight st + u_wgt >? PaletConfig.max_weight palet_cfg
  then shelf_close st else st.

(** Lines 400-403: the row is full; start the next row. *)
Definition shelf_wrap_x (palet_cfg : PaletConfig.t) (u_l u_w : Z)
    (st : ShelfState.t) : ShelfState.t :=
  if ShelfState.x st + u_l >? PaletConfig.length palet_cfg
  then ShelfState.mk (ShelfState.pallets st) (ShelfState.current_items st)
         0
         (ShelfState.y st +
            (if ShelfState.current_shelf_y st >? 0
             then ShelfState.current_shelf_y st else u_w))
         (ShelfState.z st)
         (ShelfState.current_weight st)
         (ShelfState.current_shelf_height st)
         0
  else st.

(** Lines 405-409: the layer is full; start the next layer. *)
Definition shelf_wrap_y (palet_cfg : PaletConfig.t) (u_w u_h : Z)
    (st : ShelfState.t) : ShelfState.t :=
  if ShelfState.y st + u_w >? PaletConfig.width palet_cfg
  then ShelfState.mk (ShelfState.pallets st) (ShelfState.current_items st)
         0 0
         (ShelfState.z st +
            (if ShelfState.current_shelf_height st >? 0
             then ShelfState.current_shelf_height st else u_h))
         (ShelfState.current_weight st)
         0
         (ShelfState.current_shelf_y st)
  else st.

(** Lines 411-416: the pallet is full in height. *)
Definition shelf_height_check (palet_cfg : PaletConfig.t) (u_h : Z)
    (st : ShelfState.t) : ShelfState.t :=
  if ShelfState.z st + u_h >? PaletConfig.height palet_cfg
  then shelf_close st else st.

(** Lines 418-429: append the item at the cursor and advance. *)
Definition shelf_put (urun : UrunData.t) (u_l u_w u_h : Z)
    (st : ShelfState.t) : ShelfState.t :=
  ShelfState.mk
    (ShelfState.pallets st)
    (ShelfState.current_items st ++
       [Placement.mk urun (ShelfState.x st) (ShelfState.y st)
          (ShelfState.z st) u_l u_w u_h])
    (ShelfState.x st + u_l)
    (ShelfState.y st)
    (ShelfState.z st)
    (ShelfState.current_weight st + UrunData.agirlik urun)
    (if u_h >? ShelfState.current_shelf_height st
     then u_h else ShelfState.current_shelf_height st)
    (if u_w >? ShelfState.current_shelf_y st
     then u_w else ShelfState.current_shelf_y st).

Section ShelfPacker.

Variable possible_orientations_for : UrunData.t -> list Dims.
Variable rot_gen : list Z.
Variable palet_cfg : PaletConfig.t.

(** One iteration of the loop of [pack_shelf_based]: the orientation is
    looked up, then the five blocks of the body run in order. *)
Definition shelf_step (st : ShelfState.t) (idx : nat) (urun : UrunData.t)
    : option ShelfState.t :=
  let dims := possible_orientations_for urun in
  let r := shelf_rotation rot_gen idx dims in
  match py_index dims r with
  | None => None
  | Some (u_l, u_w, u_h) =>
      let u_wgt := UrunData.agirlik urun in
      let st := shelf_weight_check palet_cfg u_wgt st in
      let st := shelf_wrap_x palet_cfg u_l u_w st in
      let st := shelf_wrap_y palet_cfg u_w u_h st in
      let st := shelf_height_check palet_cfg u_h st in
      Some (shelf_put urun u_l u_w u_h st)
  end.

(** [for idx, urun in enumerate(urunler)], from index [idx] on. *)
Fixpoint shelf_loop (idx : nat) (urunler : list UrunData.t)
    (st : ShelfState.t) : option ShelfState.t :=
  match urunler with
  | [] => Some st
  | urun :: rest =>
      match shelf_step st idx urun with
      | Some st' => shelf_loop (S idx) rest st'
      | None => None
      end
  end.

Definition pack_shelf_based (urunler : list UrunData.t)
    : option (list Pallet.t) :=
  match shelf_loop 0 urunler (ShelfState.mk [] [] 0 0 0 0 0 0) with
  | Some st =>
      Some (match ShelfState.current_items st with
            | [] => ShelfState.pallets st
            | _ :: _ =>
                ShelfState.pallets st ++
                  [Pallet.mk (ShelfState.current_items st)
                             (ShelfState.current_weight st)]
            end)
  | None => None
  end.

End ShelfPacker.

(** [basit_palet_paketleme(chromosome, palet_cfg)] with
    [chromosome = (urunler, rotations)]: the shelf packing, each item dict
    copied key by key into a placement dict. *)
Definition basit_palet_paketleme
    (possible_orientations_for : UrunData.t -> list Dims)
    (chromosome : list UrunData.t * list Z) (palet_cfg : PaletConfig.t)
    : option (list PlacedPallet.t) :=
  let '(urunler, rotations) := chromosome in
  match pack_shelf_based possible_orientations_for rotations palet_cfg urunler with
  | Some pallets =>
      Some (map (fun pallet =>
                   PlacedPallet.mk
                     (map (fun item =>
                             Placement.mk (Placement.urun item)
                               (Placement.x item) (Placement.y item)
                               (Placement.z item) (Placement.L item)
                               (Placement.W item) (Placement.H item))
                          (Pallet.items pallet))
                     (Pallet.weight pallet))
                pallets)
  | None => None
  end.

(** The state in which [pack_shelf_based] enters its loop. *)
Definition shelf_initial : ShelfState.t := ShelfState.mk [] [] 0 0 0 0 0 0.

(** [dims[r]] as [pack_shelf_based] reads it for the product at position
    [idx]. *)
Definition chosen_orientation (orient : UrunData.t -> list Dims)
    (rot_gen : list Z) (idx : nat) (urun : UrunData.t) : option Dims :=
  py_index (orient urun) (shelf_rotation rot_gen idx (orient urun)).

(** All the placements made so far by the shelf packer, closed pallets
    first. *)
Definition shelf_placed (st : ShelfState.t) : list Placement.t :=
  concat (map Pallet.items (ShelfState.pallets st)) ++
  ShelfState.current_items st.

(** The pallets of a state, the open one included as the packer holds it. *)
Definition shelf_all_pallets (st : ShelfState.t) : list Pallet.t :=
  ShelfState.pallets st ++
  [Pallet.mk (ShelfState.current_items st) (ShelfState.current_weight st)].

(** A placement seen as the product with its orientation. *)
Definition oriented (pl : Placement.t) : UrunData.t * option Dims :=
  (Placement.urun pl,
   Some (Placement.L pl, Placement.W pl, Placement.H pl)).

(** Where the shelf packer has left an item of the open pallet, seen from
    the cursor: in an earlier row of the current layer, in an earlier
    layer, or in the current row before the cursor. *)
Definition shelf_item_behind (st : ShelfState.t) (a : Placement.t) : Prop :=
  (Placement.y a + Placement.W a <= ShelfState.y st /\
   Placement.z a + Placement.H a
     <= ShelfState.z st + ShelfState.current_shelf_height st) \/
  Placement.z a + Placement.H a <= ShelfState.z st \/
  (Placement.x a + Placement.L a <= ShelfState.x st /\
   Placement.y a + Placement.W a
     <= ShelfState.y st + ShelfState.current_shelf_y st /\
   Placement.z a + Placement.H a
     <= ShelfState.z st + ShelfState.current_shelf_height st).

Definition shelf_separation_inv (st : ShelfState.t) : Prop :=
  0 <= ShelfState.current_shelf_height st /\
  0 <= ShelfState.current_shelf_y st /\
  Forall (fun p => pairwise_separated (Pallet.items p))
         (ShelfState.pallets st) /\
  pairwise_separated (ShelfState.current_items st) /\
  forall a, In a (ShelfState.current_items st) -> shelf_item_behind st a.

Definition shelf_bounds_inv (palet_cfg : PaletConfig.t) (st : ShelfState.t)
    : Prop :=
  0 <= ShelfState.x st /\ 0 <= ShelfState.y st /\ 0 <= ShelfState.z st /\
  Forall (fun p => forall pl, In pl (Pallet.items p) -> in_bounds palet_cfg pl)
         (ShelfState.pallets st) /\
  forall pl, In pl (ShelfState.current_items st) -> in_bounds palet_cfg pl.

(* ================================================================== *)
(** ** Packing in the order of a chromosome                            *)
(* ================================================================== *)

(** [[urunler[i] for i in sira_gen]] (main.py line 135, services.py line
    181): the products taken in the order of the genes; an index out of
    range raises. *)
Fixpoint siralanmis_urunler (urunler : list UrunData.t) (sira_gen : list Z)
    : option (list UrunData.t) :=
  match sira_gen with
  | [] => Some []
  | i :: rest =>
      match py_index urunler i with
      | None => None
      | Some u =>
          match siralanmis_urunler urunler rest with
          | None => None
          | Some l => Some (u :: l)
          end
      end
  end.

(** main.py lines 135-136, services.py lines 181-182: the products are
    put in the order of [sira_gen] and handed to
    [pack_maximal_rectangles]. *)
Definition pack_in_gene_order (orient : UrunData.t -> list Dims)
    (palet_cfg : PaletConfig.t) (urunler : list UrunData.t)
    (sira_gen : list Z) : option (list Pallet.t) :=
  match siralanmis_urunler urunler sira_gen with
  | None => None
  | Some siralanmis => pack_maximal_rectangles orient palet_cfg siralanmis
  end.

(* ================================================================== *)
(** ** The values stored on a Django pallet                            *)
(* ================================================================== *)

(** A Python dict as the list of its items in insertion order.  The keys
    of [urun_konumlari] and [urun_boyutlari] are [str(urun.id)]; [str] is
    one-to-one on the ids, so the id itself is the key here. *)
Definition Dict (V : Type) : Type := list (Z * V).

(** [d[k] = v]: the value of an existing key is replaced in place, a new
    key goes to the end. *)
Fixpoint dict_set {V : Type} (k : Z) (v : V) (d : Dict V) : Dict V :=
  match d with
  | [] => [(k, v)]
  | (k', v') :: d' =>
      if k =? k' then (k, v) :: d' else (k', v') :: dict_set k v d'
  end.

(** [d.get(k)]. *)
Fixpoint dict_get {V : Type} (k : Z) (d : Dict V) : option V :=
  match d with
  | [] => None
  | (k', v') :: d' => if k =? k' then Some v' else dict_get k d'
  end.

(** The four values [_create_django_palet] computes in its loop and
    assigns to the [Palet] object before saving it.  The [Palet] class
    itself (palet_app/models.py) and its [save] are not modelled. *)
Module PaletFields.
Record t : Type := mk {
  urun_konumlari : Dict (Z * Z * Z);
  urun_boyutlari : Dict (Z * Z * Z);
  toplam_agirlik : Z;
  kullanilan_hacim : Z
}.
End PaletFields.

(** The body of the loop of [_create_django_palet]; its two branches on
    [items_are_dicts] are the same statements. *)
Definition create_django_palet_item (acc : PaletFields.t) (item : Placement.t)
    : PaletFields.t :=
  let urun := Placement.urun item in
  let urun_id := UrunData.id urun in
  PaletFields.mk
    (dict_set urun_id (Placement.x item, Placement.y item, Placement.z item)
       (PaletFields.urun_konumlari acc))
    (dict_set urun_id (Placement.L item, Placement.W item, Placement.H item)
       (PaletFields.urun_boyutlari acc))
    (PaletFields.toplam_agirlik acc + UrunData.agirlik urun)
    (PaletFields.kullanilan_hacim acc +
       Placement.L item * Placement.W item * Placement.H item).

Definition create_django_palet (placements : list Placement.t)
    : PaletFields.t :=
  fold_left create_django_palet_item placements (PaletFields.mk [] [] 0 0).

(** [chromosome_to_palets]: the pallets of the packing in gene order, each
    turned into the values of a Django pallet and numbered from
    [baslangic_id] on. *)
Definition chromosome_to_palets (orient : UrunData.t -> list Dims)
    (palet_cfg : PaletConfig.t) (urunler : list UrunData.t)
    (sira_gen : list Z) (baslangic_id : Z)
    : option (list (Z * PaletFields.t)) :=
  match pack_in_gene_order orient palet_cfg urunler sira_gen with
  | None => None
  | Some pallets =>
      Some (snd (fold_left
                   (fun (st : Z * list (Z * PaletFields.t)) pallet_data =>
                      let '(palet_id, django_paletler) := st in
                      (palet_id + 1,
                       django_paletler ++
                         [(palet_id,
                           create_django_palet (Pallet.items pallet_data))]))
                   pallets (baslangic_id, [])))
  end.

(** The id of the product of a placement, and its position. *)
Definition placement_id (pl : Placement.t) : Z :=
  UrunData.id (Placement.urun pl).

Definition placement_position (pl : Placement.t) : Z * Z * Z :=
  (Placement.x pl, Placement.y pl, Placement.z pl).

(** Sum of the volumes [L * W * H] of a list of placements. *)
Definition items_volume (items : list Placement.t) : Z :=
  fold_right (fun pl acc =>
                Placement.L pl * Placement.W pl * Placement.H pl + acc)
             0 items.

(* ================================================================== *)
(** ** Stage 1 of the stand-alone pipeline                             *)
(* ================================================================== *)

(** A bound of a Python slice, brought into [0 .. len]: a negative bound
    counts from the end. *)
Definition py_slice_bound (len i : Z) : Z :=
  if i <? 0 then Z.max (i + len) 0 else Z.min i len.

(** [l[a:b]] and [l[a:]] for integer bounds. *)
Definition py_slice {A : Type} (l : list A) (a b : Z) : list A :=
  let len := Z.of_nat (List.length l) in
  let a' := Z.to_nat (py_slice_bound len a) in
  let b' := Z.to_nat (py_slice_bound len b) in
  firstn (b' - a') (skipn a' l).

Definition py_slice_from {A : Type} (l : list A) (a : Z) : list A :=
  skipn (Z.to_nat (py_slice_bound (Z.of_nat (List.length l)) a)) l.

Section Stage1.

(** [simulate_single_pallet] (src/core/single_pallet.py, not among the
    sources): the entries ["can_be_single"] and ["capacity"] of its
    result. *)
Variable simulate_single_pallet : list UrunData.t -> PaletConfig.t -> bool * Z.

(** The float test
    [(remainder * urun_hacmi(group_items[0])) / palet_cfg.volume >= 0.90],
    with [urun_hacmi] from src/utils/helpers.py. *)
Variable partial_fill_reached : Z -> UrunData.t -> PaletConfig.t -> bool.

Variable palet_cfg : PaletConfig.t.

(** One iteration of [for key, group_items in groups.items()] in
    [run_optimization_standalone] (main.py lines 75-112).  The state is
    [(single_pallets, mix_pool)]; of a single pallet only the products
    handed to [generate_grid_placement] are kept.  [group_items[0]] on an
    empty group and a division by a zero capacity raise. *)
Definition stage1_group (st : list (list UrunData.t) * list UrunData.t)
    (group_items : list UrunData.t)
    : option (list (list UrunData.t) * list UrunData.t) :=
  let '(single_pallets, mix_pool) := st in
  let total_qty := Z.of_nat (List.length group_items) in
  let '(can_be_single, capacity) :=
    simulate_single_pallet group_items palet_cfg in
  if can_be_single then
    match group_items with
    | [] => None
    | first :: _ =>
        if capacity =? 0 then None
        else
          let num_full := total_qty / capacity in
          let remainder := total_qty mod capacity in
          let single_pallets :=
            single_pallets ++
            map (fun i => py_slice group_items (Z.of_nat i * capacity)
                            ((Z.of_nat i + 1) * capacity))
                (seq 0 (Z.to_nat num_full)) in
          if remainder >? 0 then
            if partial_fill_reached remainder first palet_cfg
            then Some (single_pallets ++
                         [py_slice_from group_items (- remainder)],
                       mix_pool)
            else Some (single_pallets,
                       mix_pool ++ py_slice_from group_items (- remainder))
          else Some (single_pallets, mix_pool)
    end
  else Some (single_pallets, mix_pool ++ group_items).

Fixpoint stage1 (groups : list (list UrunData.t))
    (st : list (list UrunData.t) * list UrunData.t)
    : option (list (list UrunData.t) * list UrunData.t) :=
  match groups with
  | [] => Some st
  | group_items :: rest =>
      match stage1_group st group_items with
      | Some st' => stage1 rest st'
      | None => None
      end
  end.

End Stage1.

(* ================================================================== *)
(** ** Worked inputs                                                   *)
(* ================================================================== *)

(** The 100 x 100 x 100 pallet with a 1000 kg cap of the boundary
    scenarios. *)
Definition cfg_100 : PaletConfig.t := PaletConfig.mk 100 100 100 1000.

(** A 120 x 50 x 50 product: too long for [cfg_100] in both orientations. *)
Definition urun_oversized : UrunData.t := UrunData.mk 1 120 50 50 10 true.

(** A 50 x 50 x 50 product of 1500 kg: heavier than the cap of [cfg_100]. *)
Definition urun_overweight : UrunData.t := UrunData.mk 1 50 50 50 1500 true.

(** A 30 x 20 x 10 pallet, a 10 x 10 x 10 cube and a 20 x 10 x 10 bar: after
    the cube the free list is [RIGHT; BACK], and the bar fits both with the
    same short-side residual. *)
Definition cfg_30_20_10 : PaletConfig.t := PaletConfig.mk 30 20 10 1000.
Definition urun_cube : UrunData.t := UrunData.mk 1 10 10 10 1 true.
Definition urun_bar : UrunData.t := UrunData.mk 2 20 10 10 1 true.
Definition rect_right : FreeRectangle.t := FreeRectangle.mk 10 0 0 20 20 10.
Definition rect_back : FreeRectangle.t := FreeRectangle.mk 0 10 0 30 10 10.


(* ================================================================== *)
(** ** Whole numbers as binary64 numbers                               *)
(* ================================================================== *)

(** Exponents [e] of a unit [2^e] for which every whole number of units
    below [2^53] is a normal binary64 number. *)
Definition unit_ok (e : Z) : Prop := -1022 <= e <= 971.

(** Whole numbers with at most 53 bits. *)
Definition rep (z : Z) : Prop := - 2 ^ 53 < z < 2 ^ 53.

(** The mantissa of the normal form: [m] shifted to 53 bits. *)
Definition norm_mant (m : positive) : positive :=
  Z.to_pos (Zpos m * 2 ^ (53 - Zpos (digits2_pos m))).

(** The binary64 number nearest to [z * 2^e] (ties to even), as a
    [spec_float] and as a primitive float.  [grid 0 z] is Python's
    [float(z)] for an integer [z]; for [rep z] the number is [z * 2^e]
    itself. *)
Definition SFgrid (e z : Z) : spec_float := binary_normalize prec emax z e false.

Definition grid (e z : Z) : float := SF2Prim (SFgrid e z).

(** The normal form of [p * 2^e], with sign [s], for [p] of at most 53
    bits. *)
Definition SFnormal (s : bool) (p : positive) (e : Z) : spec_float :=
  S754_finite s (norm_mant p) (e + Zpos (digits2_pos p) - 53).

(** The signed whole number behind a grid number. *)
Definition signed (s : bool) (p : positive) : Z := cond_Zopp s (Zpos p).

(* ================================================================== *)
(** ** The engine in binary64                                          *)
(* ================================================================== *)

(** The same code once more, with the numbers the Python objects hold:
    [PaletConfig] and [UrunData] store [float(...)] of their arguments,
    the running weight and the shelf cursor start at [0.0], and every
    sum, difference and product is rounded to binary64.  [float] is the
    primitive binary64 type; [+], [-], [*] round to nearest, ties to
    even, and the comparisons are those of IEEE 754 (false on NaN), as
    in Python.  The integer literals [0] of the source are the float
    zero: they only meet floats, in sums and comparisons where [0] and
    [0.0] behave alike. *)
Module B64.

(** Python's [a >= b] and [a > b] on floats. *)
Definition ge (a b : float) : bool := (b <=? a)%float.
Definition gt (a b : float) : bool := (b <? a)%float.

(** Python's [min(a, b)]: the first argument unless the second is
    smaller. *)
Definition py_min (a b : float) : float := if (b <? a)%float then b else a.

(** [class PaletConfig] (models/container.py). *)
Module PaletConfig.
Record t : Type := mk {
  length : float;
  width : float;
  height : float;
  max_weight : float
}.
End PaletConfig.

(** [class UrunData] (models/product.py). *)
Module UrunData.
Record t : Type := mk {
  id : Z;
  boy : float;
  en : float;
  yukseklik : float;
  agirlik : float;
  donus_serbest : bool
}.
End UrunData.

Definition Dims : Type := (float * float * float)%type.

(** [class FreeRectangle] (core/packing.py). *)
Module FreeRectangle.
Record t : Type := mk {
  x : float;
  y : float;
  z : float;
  length : float;
  width : float;
  height : float
}.

Definition volume (self : t) : float :=
  (length self * width self * height self)%float.

Definition can_fit (self : t) (item_l item_w item_h : float) : bool :=
  ge (length self) item_l && ge (width self) item_w && ge (height self) item_h.
End FreeRectangle.

Module Placement.
Record t : Type := mk {
  urun : UrunData.t;
  x : float;
  y : float;
  z : float;
  L : float;
  W : float;
  H : float
}.
End Placement.

Module Pallet.
Record t : Type := mk {
  items : list Placement.t;
  weight : float
}.
End Pallet.

Module CurrentPallet.
Record t : Type := mk {
  items : list Placement.t;
  weight : float;
  free_rects : list FreeRectangle.t
}.
End CurrentPallet.

Definition intersects_3d (rect : FreeRectangle.t)
    (placed_x placed_y placed_z placed_l placed_w placed_h : float) : bool :=
  negb (
    ge (FreeRectangle.x rect) (placed_x + placed_l) ||
    ge placed_x (FreeRectangle.x rect + FreeRectangle.length rect) ||
    ge (FreeRectangle.y rect) (placed_y + placed_w) ||
    ge placed_y (FreeRectangle.y rect + FreeRectangle.width rect) ||
    ge (FreeRectangle.z rect) (placed_z + placed_h) ||
    ge placed_z (FreeRectangle.z rect + FreeRectangle.height rect)).

Definition split_rectangle_maximal (rect : FreeRectangle.t)
    (placed_x placed_y placed_z placed_l placed_w placed_h : float)
    : list FreeRectangle.t :=
  let rx := FreeRectangle.x rect in
  let ry := FreeRectangle.y rect in
  let rz := FreeRectangle.z rect in
  let rl := FreeRectangle.length rect in
  let rw := FreeRectangle.width rect in
  let rh := FreeRectangle.height rect in
  let new_rects := [] in
  (* LEFT *)
  let new_rects :=
    if (rx <? placed_x)%float
    then new_rects ++ [FreeRectangle.mk rx ry rz (placed_x - rx) rw rh]
    else new_rects in
  (* RIGHT *)
  let new_rects :=
    if (placed_x + placed_l <? rx + rl)%float
    then new_rects ++ [FreeRectangle.mk (placed_x + placed_l) ry rz
                         ((rx + rl) - (placed_x + placed_l)) rw rh]
    else new_rects in
  (* FRONT *)
  let new_rects :=
    if (ry <? placed_y)%float
    then new_rects ++ [FreeRectangle.mk rx ry rz rl (placed_y - ry) rh]
    else new_rects in
  (* BACK *)
  let new_rects :=
    if (placed_y + placed_w <? ry + rw)%float
    then new_rects ++ [FreeRectangle.mk rx (placed_y + placed_w) rz rl
                         ((ry + rw) - (placed_y + placed_w)) rh]
    else new_rects in
  (* BOTTOM *)
  let new_rects :=
    if (rz <? placed_z)%float
    then new_rects ++ [FreeRectangle.mk rx ry rz rl rw (placed_z - rz)]
    else new_rects in
  (* TOP *)
  let new_rects :=
    if (placed_z + placed_h <? rz + rh)%float
    then new_rects ++ [FreeRectangle.mk rx ry (placed_z + placed_h) rl rw
                         ((rz + rh) - (placed_z + placed_h))]
    else new_rects in
  new_rects.

Definition contains (rect2 rect1 : FreeRectangle.t) : bool :=
  (FreeRectangle.x rect2 <=? FreeRectangle.x rect1)%float &&
  (FreeRectangle.y rect2 <=? FreeRectangle.y rect1)%float &&
  (FreeRectangle.z rect2 <=? FreeRectangle.z rect1)%float &&
  ge (FreeRectangle.x rect2 + FreeRectangle.length rect2)
     (FreeRectangle.x rect1 + FreeRectangle.length rect1) &&
  ge (FreeRectangle.y rect2 + FreeRectangle.width rect2)
     (FreeRectangle.y rect1 + FreeRectangle.width rect1) &&
  ge (FreeRectangle.z rect2 + FreeRectangle.height rect2)
     (FreeRectangle.z rect1 + FreeRectangle.height rect1).

Definition is_contained (rects : list FreeRectangle.t) (i : nat)
    (rect1 : FreeRectangle.t) : bool :=
  existsb (fun jr : nat * FreeRectangle.t =>
             negb (Nat.eqb i (fst jr)) && contains (snd jr) rect1)
          (enumerate rects).

Definition remove_redundant_rectangles (rects : list FreeRectangle.t)
    : list FreeRectangle.t :=
  map snd
    (filter (fun ir : nat * FreeRectangle.t =>
               negb (is_contained rects (fst ir) (snd ir)))
            (enumerate rects)).

(** The variables of the searches: [(best_rect, best_orientation)],
    assigned together and initially [None], and [min_short_side],
    initially [float('inf')]. *)
Definition Best : Type := (option (FreeRectangle.t * Dims) * float)%type.

Definition no_best : Best := (None, infinity).

Definition try_rect (dims : Dims) (best : Best) (rect : FreeRectangle.t)
    : Best :=
  let '(item_l, item_w, item_h) := dims in
  if FreeRectangle.can_fit rect item_l item_w item_h then
    let residual_l := (FreeRectangle.length rect - item_l)%float in
    let residual_w := (FreeRectangle.width rect - item_w)%float in
    let short_side := py_min residual_l residual_w in
    if (short_side <? snd best)%float
    then (Some (rect, dims), short_side)
    else best
  else best.

Definition search_current (orientations : list Dims)
    (free_rects : list FreeRectangle.t) : Best :=
  fold_left (fun best dims => fold_left (try_rect dims) free_rects best)
            orientations no_best.

Definition search_fresh (orientations : list Dims) (rect : FreeRectangle.t)
    : Best :=
  fold_left (fun best dims => try_rect dims best rect) orientations no_best.

Definition new_pallet (palet_cfg : PaletConfig.t) : CurrentPallet.t :=
  CurrentPallet.mk [] 0
    [FreeRectangle.mk 0 0 0
       (PaletConfig.length palet_cfg) (PaletConfig.width palet_cfg)
       (PaletConfig.height palet_cfg)].

Definition emit (pallets : list Pallet.t) (current_pallet : CurrentPallet.t)
    : list Pallet.t :=
  match CurrentPallet.items current_pallet with
  | [] => pallets
  | _ :: _ =>
      pallets ++ [Pallet.mk (CurrentPallet.items current_pallet)
                            (CurrentPallet.weight current_pallet)]
  end.

Definition split_free_rects (free_rects : list FreeRectangle.t)
    (placed_x placed_y placed_z u_l u_w u_h : float) : list FreeRectangle.t :=
  fold_left
    (fun new_free_rects rect =>
       if intersects_3d rect placed_x placed_y placed_z u_l u_w u_h
       then new_free_rects ++
            split_rectangle_maximal rect placed_x placed_y placed_z u_l u_w u_h
       else new_free_rects ++ [rect])
    free_rects [].

Definition place (current_pallet : CurrentPallet.t) (urun : UrunData.t)
    (best_rect : FreeRectangle.t) (best_orientation : Dims) : CurrentPallet.t :=
  let '(u_l, u_w, u_h) := best_orientation in
  let placed_x := FreeRectangle.x best_rect in
  let placed_y := FreeRectangle.y best_rect in
  let placed_z := FreeRectangle.z best_rect in
  CurrentPallet.mk
    (CurrentPallet.items current_pallet ++
       [Placement.mk urun placed_x placed_y placed_z u_l u_w u_h])
    (CurrentPallet.weight current_pallet + UrunData.agirlik urun)
    (remove_redundant_rectangles
       (split_free_rects (CurrentPallet.free_rects current_pallet)
          placed_x placed_y placed_z u_l u_w u_h)).

Definition State : Type := (list Pallet.t * CurrentPallet.t)%type.

Section Packer.

Variable possible_orientations_for : UrunData.t -> list Dims.
Variable palet_cfg : PaletConfig.t.

Definition pack_step (st : State) (urun : UrunData.t) : option State :=
  let '(pallets, current_pallet) := st in
  let u_wgt := UrunData.agirlik urun in
  (* weight check *)
  let '(pallets, current_pallet) :=
    if gt (CurrentPallet.weight current_pallet + u_wgt)
          (PaletConfig.max_weight palet_cfg)
    then (emit pallets current_pallet, new_pallet palet_cfg)
    else (pallets, current_pallet) in
  let orientations := possible_orientations_for urun in
  match fst (search_current orientations
               (CurrentPallet.free_rects current_pallet)) with
  | Some (best_rect, best_orientation) =>
      Some (pallets, place current_pallet urun best_rect best_orientation)
  | None =>
      let pallets := emit pallets current_pallet in
      let current_pallet := new_pallet palet_cfg in
      match CurrentPallet.free_rects current_pallet with
      | [] => None
      | rect :: _ =>
          match fst (search_fresh orientations rect) with
          | Some (best_rect, best_orientation) =>
              Some (pallets, place current_pallet urun best_rect best_orientation)
          | None =>
              match orientations with
              | [] => None
              | first_orientation :: _ =>
                  Some (pallets, place current_pallet urun rect first_orientation)
              end
          end
      end
  end.

Fixpoint pack_loop (urunler : list UrunData.t) (st : State) : option State :=
  match urunler with
  | [] => Some st
  | urun :: rest =>
      match pack_step st urun with
      | Some st' => pack_loop rest st'
      | None => None
      end
  end.

Definition pack_maximal_rectangles (urunler : list UrunData.t)
    : option (list Pallet.t) :=
  match pack_loop urunler ([], new_pallet palet_cfg) with
  | Some (pallets, current_pallet) => Some (emit pallets current_pallet)
  | None => None
  end.

End Packer.

(** [rect.can_fit] on an orientation triple, and the single free rect
    of an empty pallet. *)
Definition fits (rect : FreeRectangle.t) (dims : Dims) : bool :=
  let '(item_l, item_w, item_h) := dims in
  FreeRectangle.can_fit rect item_l item_w item_h.

Definition whole_pallet (palet_cfg : PaletConfig.t) : FreeRectangle.t :=
  FreeRectangle.mk 0 0 0
    (PaletConfig.length palet_cfg) (PaletConfig.width palet_cfg)
    (PaletConfig.height palet_cfg).

(** The running sum [((0.0 + w1) + w2) + ...] of the [agirlik] of the
    products of a list of placements, each addition rounded. *)
Definition items_weight (items : list Placement.t) : float :=
  fold_left (fun acc pl => (acc + UrunData.agirlik (Placement.urun pl))%float)
            items 0%float.

(** The running sum of the volumes [L * W * H], each product and each
    addition rounded. *)
Definition items_volume (items : list Placement.t) : float :=
  fold_left (fun acc pl =>
               (acc + Placement.L pl * Placement.W pl * Placement.H pl)%float)
            items 0%float.

(** Modelled from the spec: [possible_orientations_for]
    (src/utils/helpers.py, not among the sources) on the float fields of
    a product, after section 4.2 of the specification as
    [spec_orientations] is: the base triple, then the swap of length
    and width when the product may turn and the two differ. *)
Definition spec_orientations (urun : UrunData.t) : list Dims :=
  let base := (UrunData.boy urun, UrunData.en urun, UrunData.yukseklik urun) in
  if UrunData.donus_serbest urun
     && negb (UrunData.boy urun =? UrunData.en urun)%float
  then [base; (UrunData.en urun, UrunData.boy urun, UrunData.yukseklik urun)]
  else [base].

(** [intersects_3d] of a free rect against a placement. *)
Definition intersects_placement (r : FreeRectangle.t) (pl : Placement.t) : bool :=
  intersects_3d r (Placement.x pl) (Placement.y pl) (Placement.z pl)
    (Placement.L pl) (Placement.W pl) (Placement.H pl).

(** *** The shelf packer *)

Module ShelfState.
Record t : Type := mk {
  pallets : list Pallet.t;
  current_items : list Placement.t;
  x : float;
  y : float;
  z : float;
  current_weight : float;
  current_shelf_height : float;
  current_shelf_y : float
}.
End ShelfState.

Definition shelf_close (st : ShelfState.t) : ShelfState.t :=
  ShelfState.mk
    (ShelfState.pallets st ++
       [Pallet.mk (ShelfState.current_items st) (ShelfState.current_weight st)])
    [] 0 0 0 0 0 0.

Definition shelf_rotation (rot_gen : list Z) (idx : nat) (dims : list Dims) : Z :=
  let r := match nth_error rot_gen idx with
           | Some gene => gene
           | None => 0%Z
           end in
  if r >=? Z.of_nat (List.length dims) then 0%Z else r.

Definition shelf_weight_check (palet_cfg : PaletConfig.t) (u_wgt : float)
    (st : ShelfState.t) : ShelfState.t :=
  if gt (ShelfState.current_weight st + u_wgt) (PaletConfig.max_weight palet_cfg)
  then shelf_close st else st.

Definition shelf_wrap_x (palet_cfg : PaletConfig.t) (u_l u_w : float)
    (st : ShelfState.t) : ShelfState.t :=
  if gt (ShelfState.x st + u_l) (PaletConfig.length palet_cfg)
  then ShelfState.mk (ShelfState.pallets st) (ShelfState.current_items st)
         0
         (ShelfState.y st +
            (if gt (ShelfState.current_shelf_y st) 0
             then ShelfState.current_shelf_y st else u_w))
         (ShelfState.z st)
         (ShelfState.current_weight st)
         (ShelfState.current_shelf_height st)
         0
  else st.

Definition shelf_wrap_y (palet_cfg : PaletConfig.t) (u_w u_h : float)
    (st : ShelfState.t) : ShelfState.t :=
  if gt (ShelfState.y st + u_w) (PaletConfig.width palet_cfg)
  then ShelfState.mk (ShelfState.pallets st) (ShelfState.current_items st)
         0 0
         (ShelfState.z st +
            (if gt (ShelfState.current_shelf_height st) 0
             then ShelfState.current_shelf_height st else u_h))
         (ShelfState.current_weight st)
         0
         (ShelfState.current_shelf_y st)
  else st.

Definition shelf_height_check (palet_cfg : PaletConfig.t) (u_h : float)
    (st : ShelfState.t) : ShelfState.t :=
  if gt (ShelfState.z st + u_h) (PaletConfig.height palet_cfg)
  then shelf_close st else st.

Definition shelf_put (urun : UrunData.t) (u_l u_w u_h : float)
    (st : ShelfState.t) : ShelfState.t :=
  ShelfState.mk
    (ShelfState.pallets st)
    (ShelfState.current_items st ++
       [Placement.mk urun (ShelfState.x st) (ShelfState.y st)
          (ShelfState.z st) u_l u_w u_h])
    (ShelfState.x st + u_l)
    (ShelfState.y st)
    (ShelfState.z st)
    (ShelfState.current_weight st + UrunData.agirlik urun)
    (if gt u_h (ShelfState.current_shelf_height st)
     then u_h else ShelfState.current_shelf_height st)
    (if gt u_w (ShelfState.current_shelf_y st)
     then u_w else ShelfState.current_shelf_y st).

Definition shelf_initial : ShelfState.t := ShelfState.mk [] [] 0 0 0 0 0 0.

Section ShelfPacker.

Variable possible_orientations_for : UrunData.t -> list Dims.
Variable rot_gen : list Z.
Variable palet_cfg : PaletConfig.t.

Definition shelf_step (st : ShelfState.t) (idx : nat) (urun : UrunData.t)
    : option ShelfState.t :=
  let dims := possible_orientations_for urun in
  let r := shelf_rotation rot_gen idx dims in
  match py_index dims r with
  | None => None
  | Some (u_l, u_w, u_h) =>
      let u_wgt := UrunData.agirlik urun in
      let st := shelf_weight_check palet_cfg u_wgt st in
      let st := shelf_wrap_x palet_cfg u_l u_w st in
      let st := shelf_wrap_y palet_cfg u_w u_h st in
      let st := shelf_height_check palet_cfg u_h st in
      Some (shelf_put urun u_l u_w u_h st)
  end.

Fixpoint shelf_loop (idx : nat) (urunler : list UrunData.t)
    (st : ShelfState.t) : option ShelfState.t :=
  match urunler with
  | [] => Some st
  | urun :: rest =>
      match shelf_step st idx urun with
      | Some st' => shelf_loop (S idx) rest st'
      | None => None
      end
  end.

Definition pack_shelf_based (urunler : list UrunData.t)
    : option (list Pallet.t) :=
  match shelf_loop 0 urunler shelf_initial with
  | Some st =>
      Some (match ShelfState.current_items st with
            | [] => ShelfState.pallets st
            | _ :: _ =>
                ShelfState.pallets st ++
                  [Pallet.mk (ShelfState.current_items st)
                             (ShelfState.current_weight st)]
            end)
  | None => None
  end.

End ShelfPacker.

(** *** The values stored on a Django pallet (palet_app/services.py) *)

Module PaletFields.
Record t : Type := mk {
  urun_konumlari : Dict (float * float * float);
  urun_boyutlari : Dict (float * float * float);
  toplam_agirlik : float;
  kullanilan_hacim : float
}.
End PaletFields.

Definition create_django_palet_item (acc : PaletFields.t) (item : Placement.t)
    : PaletFields.t :=
  let urun := Placement.urun item in
  let urun_id := UrunData.id urun in
  PaletFields.mk
    (dict_set urun_id (Placement.x item, Placement.y item, Placement.z item)
       (PaletFields.urun_konumlari acc))
    (dict_set urun_id (Placement.L item, Placement.W item, Placement.H item)
       (PaletFields.urun_boyutlari acc))
    (PaletFields.toplam_agirlik acc + UrunData.agirlik urun)
    (PaletFields.kullanilan_hacim acc +
       Placement.L item * Placement.W item * Placement.H item).

Definition create_django_palet (placements : list Placement.t)
    : PaletFields.t :=
  fold_left create_django_palet_item placements (PaletFields.mk [] [] 0 0).

(** The id of the product of a placement, and its position. *)
Definition placement_id (pl : Placement.t) : Z :=
  UrunData.id (Placement.urun pl).

Definition placement_position (pl : Placement.t) : float * float * float :=
  (Placement.x pl, Placement.y pl, Placement.z pl).

End B64.

(* ================================================================== *)
(** ** Exact values of binary64 numbers                                *)
(* ================================================================== *)

(** Every finite binary64 number is a whole multiple of [2^-1074], the
    smallest positive one.  [ticks f] is that multiple: the exact value
    of [f], without any rounding, counted in units of [2^-1074]; it is
    0 for an infinity or a NaN, which [is_finite] tells apart. *)
Definition SFticks (x : spec_float) : Z :=
  match x with
  | S754_finite s m e => cond_Zopp s (Zpos m * 2 ^ (e + 1074))
  | _ => 0
  end.

Definition ticks (f : float) : Z := SFticks (Prim2SF f).

Definition is_finite (f : float) : bool :=
  match Prim2SF f with
  | S754_zero _ | S754_finite _ _ _ => true
  | _ => false
  end.

(** The objects of the binary64 engine with every number replaced by
    its exact value. *)
Definition exact_cfg (c : B64.PaletConfig.t) : PaletConfig.t :=
  PaletConfig.mk (ticks (B64.PaletConfig.length c))
    (ticks (B64.PaletConfig.width c)) (ticks (B64.PaletConfig.height c))
    (ticks (B64.PaletConfig.max_weight c)).

Definition exact_urun (u : B64.UrunData.t) : UrunData.t :=
  UrunData.mk (B64.UrunData.id u) (ticks (B64.UrunData.boy u))
    (ticks (B64.UrunData.en u)) (ticks (B64.UrunData.yukseklik u))
    (ticks (B64.UrunData.agirlik u)) (B64.UrunData.donus_serbest u).

Definition exact_placement (pl : B64.Placement.t) : Placement.t :=
  Placement.mk (exact_urun (B64.Placement.urun pl))
    (ticks (B64.Placement.x pl)) (ticks (B64.Placement.y pl))
    (ticks (B64.Placement.z pl)) (ticks (B64.Placement.L pl))
    (ticks (B64.Placement.W pl)) (ticks (B64.Placement.H pl)).

Definition exact_rect (r : B64.FreeRectangle.t) : FreeRectangle.t :=
  FreeRectangle.mk (ticks (B64.FreeRectangle.x r)) (ticks (B64.FreeRectangle.y r))
    (ticks (B64.FreeRectangle.z r)) (ticks (B64.FreeRectangle.length r))
    (ticks (B64.FreeRectangle.width r)) (ticks (B64.FreeRectangle.height r)).

Definition finite_cfg (c : B64.PaletConfig.t) : Prop :=
  is_finite (B64.PaletConfig.length c) = true /\
  is_finite (B64.PaletConfig.width c) = true /\
  is_finite (B64.PaletConfig.height c) = true.

Definition finite_box (pl : B64.Placement.t) : Prop :=
  is_finite (B64.Placement.x pl) = true /\
  is_finite (B64.Placement.y pl) = true /\
  is_finite (B64.Placement.z pl) = true /\
  is_finite (B64.Placement.L pl) = true /\
  is_finite (B64.Placement.W pl) = true /\
  is_finite (B64.Placement.H pl) = true.

Definition finite_rect (r : B64.FreeRectangle.t) : Prop :=
  is_finite (B64.FreeRectangle.x r) = true /\
  is_finite (B64.FreeRectangle.y r) = true /\
  is_finite (B64.FreeRectangle.z r) = true /\
  is_finite (B64.FreeRectangle.length r) = true /\
  is_finite (B64.FreeRectangle.width r) = true /\
  is_finite (B64.FreeRectangle.height r) = true.

(** Invariants I1 and I2 on the placements of the binary64 engine, read
    on the exact values: all numbers finite, and the inequalities of
    [in_bounds] and [separated] between them. *)
Definition in_bounds64 (c : B64.PaletConfig.t) (pl : B64.Placement.t) : Prop :=
  finite_cfg c /\ finite_box pl /\
  in_bounds (exact_cfg c) (exact_placement pl).

Definition separated64 (a b : B64.Placement.t) : Prop :=
  finite_box a /\ finite_box b /\
  separated (exact_placement a) (exact_placement b).

Definition rect_in_bounds64 (c : B64.PaletConfig.t) (r : B64.FreeRectangle.t)
    : Prop :=
  finite_cfg c /\ finite_rect r /\ rect_in_bounds (exact_cfg c) (exact_rect r).

(** The exact sum of the weights of the products of a list of
    placements, in units of [2^-1074]. *)
Definition exact_items_weight (items : list B64.Placement.t) : Z :=
  items_weight (map exact_placement items).

(* ================================================================== *)
(** ** Whole numbers of units as binary64 inputs                       *)
(* ================================================================== *)

(** Whole numbers that leave room for one sum or difference, or two,
    below [2^53]. *)
Definition small (z : Z) : Prop := 0 <= z < 2 ^ 51.

Definition small_dims (d : Dims) : Prop :=
  let '(l, w, h) := d in small l /\ small w /\ small h.

Definition small_cfg (c : PaletConfig.t) : Prop :=
  small (PaletConfig.length c) /\ small (PaletConfig.width c) /\
  small (PaletConfig.height c) /\ small (PaletConfig.max_weight c).

(** The objects of the exact model as inputs of the binary64 engine:
    every number [n] becomes the binary64 number [n * 2^e]. *)
Definition cfg64 (e : Z) (c : PaletConfig.t) : B64.PaletConfig.t :=
  B64.PaletConfig.mk (grid e (PaletConfig.length c))
    (grid e (PaletConfig.width c)) (grid e (PaletConfig.height c))
    (grid e (PaletConfig.max_weight c)).

Definition urun64 (e : Z) (u : UrunData.t) : B64.UrunData.t :=
  B64.UrunData.mk (UrunData.id u) (grid e (UrunData.boy u))
    (grid e (UrunData.en u)) (grid e (UrunData.yukseklik u))
    (grid e (UrunData.agirlik u)) (UrunData.donus_serbest u).

Definition dims64 (e : Z) (d : Dims) : B64.Dims :=
  let '(l, w, h) := d in (grid e l, grid e w, grid e h).

Definition rect64 (e : Z) (r : FreeRectangle.t) : B64.FreeRectangle.t :=
  B64.FreeRectangle.mk (grid e (FreeRectangle.x r)) (grid e (FreeRectangle.y r))
    (grid e (FreeRectangle.z r)) (grid e (FreeRectangle.length r))
    (grid e (FreeRectangle.width r)) (grid e (FreeRectangle.height r)).

Definition placement64 (e : Z) (pl : Placement.t) : B64.Placement.t :=
  B64.Placement.mk (urun64 e (Placement.urun pl))
    (grid e (Placement.x pl)) (grid e (Placement.y pl))
    (grid e (Placement.z pl)) (grid e (Placement.L pl))
    (grid e (Placement.W pl)) (grid e (Placement.H pl)).

Definition pallet64 (e : Z) (p : Pallet.t) : B64.Pallet.t :=
  B64.Pallet.mk (map (placement64 e) (Pallet.items p))
    (grid e (Pallet.weight p)).

Definition current64 (e : Z) (c : CurrentPallet.t) : B64.CurrentPallet.t :=
  B64.CurrentPallet.mk (map (placement64 e) (CurrentPallet.items c))
    (grid e (CurrentPallet.weight c))
    (map (rect64 e) (CurrentPallet.free_rects c)).

Definition state64 (e : Z) (st : State) : B64.State :=
  (map (pallet64 e) (fst st), current64 e (snd st)).

Definition best64 (e : Z) (best : option Candidate) : B64.Best :=
  match best with
  | None => B64.no_best
  | Some (rect, dims, short_side) =>
      (Some (rect64 e rect, dims64 e dims), grid e short_side)
  end.

Definition shelf64 (e : Z) (st : ShelfState.t) : B64.ShelfState.t :=
  B64.ShelfState.mk (map (pallet64 e) (ShelfState.pallets st))
    (map (placement64 e) (ShelfState.current_items st))
    (grid e (ShelfState.x st)) (grid e (ShelfState.y st))
    (grid e (ShelfState.z st)) (grid e (ShelfState.current_weight st))
    (grid e (ShelfState.current_shelf_height st))
    (grid e (ShelfState.current_shelf_y st)).

(** Inputs on which no sum or difference of the packer rounds: every
    size and weight is a whole number of units [2^e], below [2^51]
    units. *)
Definition exact_range (e : Z) (c : PaletConfig.t)
    (orient : UrunData.t -> list Dims) (urunler : list UrunData.t) : Prop :=
  unit_ok e /\ small_cfg c /\
  forall u, In u urunler ->
    small (UrunData.agirlik u) /\ Forall small_dims (orient u).

(** The orientation helper of the binary64 engine returns, on the
    products of the list, the orientations of the exact model. *)
Definition agree (e : Z) (orient : UrunData.t -> list Dims)
    (orient64 : B64.UrunData.t -> list B64.Dims)
    (urunler : list UrunData.t) : Prop :=
  forall u, In u urunler -> orient64 (urun64 e u) = map (dims64 e) (orient u).

(** A free rect inside the pallet, with sizes that are not negative. *)
Definition sound_rect (c : PaletConfig.t) (r : FreeRectangle.t) : Prop :=
  rect_in_bounds c r /\
  0 <= FreeRectangle.length r /\ 0 <= FreeRectangle.width r /\
  0 <= FreeRectangle.height r.

Definition small_rect (r : FreeRectangle.t) : Prop :=
  small (FreeRectangle.x r) /\ small (FreeRectangle.y r) /\
  small (FreeRectangle.z r) /\ small (FreeRectangle.length r) /\
  small (FreeRectangle.width r) /\ small (FreeRectangle.height r).

Definition small_box (pl : Placement.t) : Prop :=
  small (Placement.x pl) /\ small (Placement.y pl) /\ small (Placement.z pl) /\
  small (Placement.L pl) /\ small (Placement.W pl) /\ small (Placement.H pl).

(** The running minimum of a search is a whole number of units. *)
Definition best_ok (best : option Candidate) : Prop :=
  match best with
  | Some (_, _, short_side) => rep short_side
  | None => True
  end.

(** The open pallet of the exact model, as far as the binary64 engine
    depends on it: free rects inside the pallet, and a running weight
    in range. *)
Definition sound_pallet (c : PaletConfig.t) (cur : CurrentPallet.t) : Prop :=
  Forall (sound_rect c) (CurrentPallet.free_rects cur) /\
  small (CurrentPallet.weight cur).


(** The cursor, the shelf sizes and the running weight of the shelf
    packer between two products: in range. *)
Definition shelf_small (st : ShelfState.t) : Prop :=
  small (ShelfState.x st) /\ small (ShelfState.y st) /\
  small (ShelfState.z st) /\ small (ShelfState.current_weight st) /\
  small (ShelfState.current_shelf_height st) /\
  small (ShelfState.current_shelf_y st).

(** The same numbers inside an iteration, where the cursor may have
    moved one step past the range. *)
Definition shelf_rep (st : ShelfState.t) : Prop :=
  0 <= ShelfState.x st < 2 ^ 52 /\ 0 <= ShelfState.y st < 2 ^ 52 /\
  0 <= ShelfState.z st < 2 ^ 52 /\
  0 <= ShelfState.current_weight st < 2 ^ 52 /\
  0 <= ShelfState.current_shelf_height st < 2 ^ 52 /\
  0 <= ShelfState.current_shelf_y st < 2 ^ 52.

(** A binary64 number that is a whole number of units [2^e], below
    [2^51] units. *)
Definition on_grid (e : Z) (f : float) : Prop :=
  exists n, small n /\ f = grid e n.

(* ================================================================== *)
(** ** Worked inputs at the edge of the binary64 integers              *)
(* ================================================================== *)



(** A cap of [2^60] kg; a product of [2^53] kg and two of 1 kg. *)
Definition cfg_strong : PaletConfig.t := PaletConfig.mk 100 100 100 (2 ^ 60).
Definition urun_heavy : UrunData.t := UrunData.mk 1 10 10 10 (2 ^ 53) true.
Definition urun_kilo_a : UrunData.t := UrunData.mk 2 10 10 10 1 true.
Definition urun_kilo_b : UrunData.t := UrunData.mk 3 10 10 10 1 true.

(** A cap of exactly [2^53] kg. *)
Definition cfg_brim : PaletConfig.t := PaletConfig.mk 100 100 100 (2 ^ 53).

(* ================================================================== *)
(** ** Lists and enumeration                                           *)
(* ================================================================== *)

Lemma fold_left_app_flat_map {A B : Type} (f : A -> list B) (l : list A)
    (acc : list B) :
  fold_left (fun acc a => acc ++ f a) l acc = acc ++ flat_map f l.
Proof.
  revert acc. induction l as [|a l IH]; intros acc; simpl.
  - now rewrite app_nil_r.
  - rewrite IH. now rewrite app_assoc.
Qed.

Lemma fold_left_pointwise {A B : Type} (f g : A -> B -> A) (l : list B) (a : A) :
  (forall x y, f x y = g x y) -> fold_left f l a = fold_left g l a.
Proof.
  intros Hfg. revert a. induction l as [|b l IH]; intros a; simpl.
  - reflexivity.
  - rewrite Hfg. apply IH.
Qed.

Lemma in_combine_seq {A : Type} (l : list A) (s i : nat) (a : A) :
  In (i, a) (combine (seq s (List.length l)) l) <->
  (s <= i)%nat /\ nth_error l (i - s) = Some a.
Proof.
  revert s. induction l as [|b l IH]; intros s; simpl.
  - split; [tauto|]. intros [_ H]. destruct (i - s)%nat; discriminate.
  - rewrite IH. split.
    + intros [H | [Hle H]].
      * injection H as <- <-. split; [lia|]. now rewrite Nat.sub_diag.
      * split; [lia|]. replace (i - s)%nat with (S (i - S s)) by lia. exact H.
    + intros [Hle H]. destruct (Nat.eq_dec s i) as [<- | Hne].
      * left. rewrite Nat.sub_diag in H. simpl in H. now injection H as <-.
      * right. split; [lia|].
        replace (i - s)%nat with (S (i - S s)) in H by lia. exact H.
Qed.

Lemma in_enumerate {A : Type} (l : list A) (i : nat) (a : A) :
  In (i, a) (enumerate l) <-> nth_error l i = Some a.
Proof.
  unfold enumerate. rewrite in_combine_seq, Nat.sub_0_r.
  split; [tauto | intros H; split; [lia | exact H]].
Qed.

Lemma nth_error_snoc {A : Type} (l : list A) (a b : A) (i : nat) :
  nth_error (l ++ [a]) i = Some b ->
  nth_error l i = Some b \/ (i = List.length l /\ b = a).
Proof.
  intros H. destruct (Nat.lt_ge_cases i (List.length l)) as [Hlt | Hge].
  - left. now rewrite nth_error_app1 in H.
  - right. rewrite nth_error_app2 in H by exact Hge.
    destruct (i - List.length l)%nat as [|k] eqn:E; simpl in H.
    + injection H as <-. split; [lia | reflexivity].
    + destruct k; discriminate.
Qed.

(* ================================================================== *)
(** ** Pruning                                                         *)
(* ================================================================== *)

Lemma contains_iff (r2 r1 : FreeRectangle.t) :
  contains r2 r1 = true <->
  FreeRectangle.x r2 <= FreeRectangle.x r1 /\
  FreeRectangle.y r2 <= FreeRectangle.y r1 /\
  FreeRectangle.z r2 <= FreeRectangle.z r1 /\
  FreeRectangle.x r1 + FreeRectangle.length r1
    <= FreeRectangle.x r2 + FreeRectangle.length r2 /\
  FreeRectangle.y r1 + FreeRectangle.width r1
    <= FreeRectangle.y r2 + FreeRectangle.width r2 /\
  FreeRectangle.z r1 + FreeRectangle.height r1
    <= FreeRectangle.z r2 + FreeRectangle.height r2.
Proof.
  unfold contains. rewrite !andb_true_iff, !Z.leb_le, !Z.geb_le. tauto.
Qed.

Lemma contains_refl (r : FreeRectangle.t) : contains r r = true.
Proof. apply contains_iff. lia. Qed.



Lemma is_contained_true (rects : list FreeRectangle.t) (i : nat)
    (r : FreeRectangle.t) :
  is_contained rects i r = true <->
  exists j r2, j <> i /\ nth_error rects j = Some r2 /\ contains r2 r = true.
Proof.
  unfold is_contained. rewrite existsb_exists. split.
  - intros [[j r2] [Hin H]]. simpl in H.
    apply andb_true_iff in H as [Hne Hc].
    apply negb_true_iff, Nat.eqb_neq in Hne.
    exists j, r2. rewrite <- in_enumerate. auto.
  - intros (j & r2 & Hne & Hnth & Hc). exists (j, r2). simpl.
    rewrite in_enumerate. split; [exact Hnth|].
    apply andb_true_iff. split; [|exact Hc].
    apply negb_true_iff, Nat.eqb_neq. auto.
Qed.

Lemma is_contained_false (rects : list FreeRectangle.t) (i : nat)
    (r : FreeRectangle.t) :
  is_contained rects i r = false <->
  forall j r2, j <> i -> nth_error rects j = Some r2 -> contains r2 r = false.
Proof.
  split.
  - intros H j r2 Hne Hnth. destruct (contains r2 r) eqn:Hc; [|reflexivity].
    assert (is_contained rects i r = true) as Ht
      by (apply is_contained_true; eauto).
    congruence.
  - intros H. destruct (is_contained rects i r) eqn:E; [|reflexivity].
    apply is_contained_true in E as (j & r2 & Hne & Hnth & Hc).
    rewrite (H j r2 Hne Hnth) in Hc. discriminate.
Qed.

Lemma in_remove_redundant (rects : list FreeRectangle.t) (r : FreeRectangle.t) :
  In r (remove_redundant_rectangles rects) <->
  exists i, nth_error rects i = Some r /\ is_contained rects i r = false.
Proof.
  unfold remove_redundant_rectangles. rewrite in_map_iff. split.
  - intros [[i r'] [Heq Hin]]. simpl in Heq. subst r'.
    apply filter_In in Hin as [Hin Hk]. simpl in Hk.
    apply negb_true_iff in Hk. apply in_enumerate in Hin. eauto.
  - intros (i & Hnth & Hk). exists (i, r). split; [reflexivity|].
    apply filter_In. split; [now apply in_enumerate|].
    simpl. now rewrite Hk.
Qed.

Lemma remove_redundant_incl (rects : list FreeRectangle.t) (r : FreeRectangle.t) :
  In r (remove_redundant_rectangles rects) -> In r rects.
Proof.
  intros H. apply in_remove_redundant in H as (i & Hnth & _).
  eapply nth_error_In; eauto.
Qed.



Lemma NoDup_combine_seq {A : Type} (l : list A) (s : nat) :
  NoDup (combine (seq s (List.length l)) l).
Proof.
  revert s. induction l as [|a l IH]; intros s; simpl; constructor.
  - intros H. apply in_combine_seq in H. lia.
  - apply IH.
Qed.

(** What the pruning keeps is an antichain, whatever the list. *)
Lemma remove_redundant_antichain (rects : list FreeRectangle.t) :
  antichain (remove_redundant_rectangles rects).
Proof.
  unfold antichain, remove_redundant_rectangles.
  set (kept := filter _ (enumerate rects)).
  assert (Hnd : NoDup kept)
    by (apply NoDup_filter, NoDup_combine_seq).
  intros i' j' r1 r2 Hne H1 H2. rewrite nth_error_map in H1, H2.
  destruct (nth_error kept i') as [[i a]|] eqn:E1; [|discriminate].
  destruct (nth_error kept j') as [[j b]|] eqn:E2; [|discriminate].
  simpl in H1, H2. injection H1 as ->. injection H2 as ->.
  pose proof (nth_error_In _ _ E1) as In1.
  pose proof (nth_error_In _ _ E2) as In2.
  apply filter_In in In1 as [In1 K1]. apply filter_In in In2 as [In2 _].
  apply in_enumerate in In1, In2. simpl in K1.
  apply negb_true_iff in K1.
  assert (Hij : j <> i).
  { intros ->. rewrite In1 in In2. injection In2 as ->.
    apply Hne. apply (proj1 (NoDup_nth_error kept) Hnd).
    - apply nth_error_Some. congruence.
    - congruence. }
  exact (proj1 (is_contained_false rects i r1) K1 j r2 Hij In2).
Qed.



(* ================================================================== *)
(** ** Splitting                                                       *)
(* ================================================================== *)

Lemma split_rectangle_maximal_residuals (r : FreeRectangle.t)
    (px py pz L W H : Z) :
  split_rectangle_maximal r px py pz L W H = residual_sub_cuboids r px py pz L W H.
Proof.
  unfold split_rectangle_maximal, residual_sub_cuboids, guarded.
  destruct (FreeRectangle.x r <? px);
  destruct (px + L <? FreeRectangle.x r + FreeRectangle.length r);
  destruct (FreeRectangle.y r <? py);
  destruct (py + W <? FreeRectangle.y r + FreeRectangle.width r);
  destruct (FreeRectangle.z r <? pz);
  destruct (pz + H <? FreeRectangle.z r + FreeRectangle.height r);
  reflexivity.
Qed.

Lemma in_guarded (b : bool) (r s : FreeRectangle.t) :
  In s (guarded b r) <-> b = true /\ s = r.
Proof.
  unfold guarded. destruct b; simpl; split; intros H.
  - destruct H as [H|[]]. auto.
  - left. symmetry. tauto.
  - contradiction.
  - destruct H. discriminate.
Qed.


Lemma intersects_3d_true (r : FreeRectangle.t) (px py pz L W H : Z) :
  intersects_3d r px py pz L W H = true <->
  FreeRectangle.x r < px + L /\
  px < FreeRectangle.x r + FreeRectangle.length r /\
  FreeRectangle.y r < py + W /\
  py < FreeRectangle.y r + FreeRectangle.width r /\
  FreeRectangle.z r < pz + H /\
  pz < FreeRectangle.z r + FreeRectangle.height r.
Proof.
  unfold intersects_3d. rewrite negb_true_iff, !orb_false_iff.
  rewrite !Z.geb_leb, !Z.leb_gt. tauto.
Qed.

Lemma intersects_3d_false (r : FreeRectangle.t) (px py pz L W H : Z) :
  intersects_3d r px py pz L W H = false <->
  px + L <= FreeRectangle.x r \/
  FreeRectangle.x r + FreeRectangle.length r <= px \/
  py + W <= FreeRectangle.y r \/
  FreeRectangle.y r + FreeRectangle.width r <= py \/
  pz + H <= FreeRectangle.z r \/
  FreeRectangle.z r + FreeRectangle.height r <= pz.
Proof.
  unfold intersects_3d. rewrite negb_false_iff, !orb_true_iff.
  rewrite !Z.geb_le. tauto.
Qed.

(** A residual sub-cuboid does not meet the placed box. *)
Lemma split_piece_clear (r s : FreeRectangle.t) (px py pz L W H : Z) :
  In s (split_rectangle_maximal r px py pz L W H) ->
  intersects_3d s px py pz L W H = false.
Proof.
  rewrite split_rectangle_maximal_residuals. unfold residual_sub_cuboids.
  rewrite !in_app_iff, !in_guarded, !Z.ltb_lt, intersects_3d_false.
  intros [[_ ->] | [[_ ->] | [[_ ->] | [[_ ->] | [[_ ->] | [_ ->]]]]]];
    simpl; lia.
Qed.

(** A residual sub-cuboid of a rect that meets the placed box lies inside
    that rect. *)
Lemma split_piece_inside (r s : FreeRectangle.t) (px py pz L W H : Z) :
  intersects_3d r px py pz L W H = true ->
  In s (split_rectangle_maximal r px py pz L W H) ->
  contains r s = true.
Proof.
  rewrite split_rectangle_maximal_residuals. unfold residual_sub_cuboids.
  rewrite !in_app_iff, !in_guarded, !Z.ltb_lt, intersects_3d_true, contains_iff.
  intros Hi [[? ->] | [[? ->] | [[? ->] | [[? ->] | [[? ->] | [? ->]]]]]];
    simpl; lia.
Qed.

Lemma split_free_rects_flat_map (free_rects : list FreeRectangle.t)
    (px py pz L W H : Z) :
  split_free_rects free_rects px py pz L W H =
  flat_map (fun r => if intersects_3d r px py pz L W H
                     then split_rectangle_maximal r px py pz L W H
                     else [r]) free_rects.
Proof.
  unfold split_free_rects.
  rewrite <- (app_nil_l (flat_map _ free_rects)).
  rewrite <- fold_left_app_flat_map.
  apply fold_left_pointwise. intros acc r.
  now destruct (intersects_3d r px py pz L W H).
Qed.

Lemma in_split_free_rects (free_rects : list FreeRectangle.t)
    (px py pz L W H : Z) (s : FreeRectangle.t) :
  In s (split_free_rects free_rects px py pz L W H) <->
  exists r, In r free_rects /\
    ((intersects_3d r px py pz L W H = true /\
      In s (split_rectangle_maximal r px py pz L W H)) \/
     (intersects_3d r px py pz L W H = false /\ s = r)).
Proof.
  rewrite split_free_rects_flat_map, in_flat_map. split.
  - intros (r & Hin & Hs). exists r. split; [exact Hin|].
    destruct (intersects_3d r px py pz L W H).
    + left. auto.
    + right. destruct Hs as [Hs|[]]. auto.
  - intros (r & Hin & [[Hi Hs] | [Hi ->]]); exists r; rewrite Hi.
    + auto.
    + simpl. auto.
Qed.

(** After the split no free rect meets the placed box, and every free rect
    lies inside one of the former free rects. *)
Lemma split_free_rects_clear (free_rects : list FreeRectangle.t)
    (px py pz L W H : Z) (s : FreeRectangle.t) :
  In s (split_free_rects free_rects px py pz L W H) ->
  intersects_3d s px py pz L W H = false /\
  exists r, In r free_rects /\ contains r s = true.
Proof.
  intros Hs. apply in_split_free_rects in Hs as (r & Hin & [[Hi Hs] | [Hi ->]]).
  - split; [eapply split_piece_clear; eauto|].
    exists r. split; [exact Hin|]. eapply split_piece_inside; eauto.
  - split; [exact Hi|]. exists r. split; [exact Hin | apply contains_refl].
Qed.







(* ================================================================== *)
(** ** The best-fit searches                                           *)
(* ================================================================== *)

Lemma try_rect_cases (dims : Dims) (best : option Candidate)
    (rect : FreeRectangle.t) :
  try_rect dims best rect = best \/
  (fits rect dims = true /\
   try_rect dims best rect = Some (rect, dims, short_side_of rect dims)).
Proof.
  unfold try_rect, fits, short_side_of. destruct dims as [[l w] h].
  destruct (FreeRectangle.can_fit rect l w h); [|now left].
  destruct best as [[[br bd] m]|]; [|now right].
  destruct (_ <? m); [now right | now left].
Qed.

Lemma try_rect_None (dims : Dims) (best : option Candidate)
    (rect : FreeRectangle.t) :
  try_rect dims best rect = None <-> best = None /\ fits rect dims = false.
Proof.
  unfold try_rect, fits. destruct dims as [[l w] h].
  destruct (FreeRectangle.can_fit rect l w h).
  - destruct best as [[[br bd] m]|].
    + destruct (_ <? m); split; intros H; try discriminate; destruct H; discriminate.
    + split; intros H; [discriminate | destruct H; discriminate].
  - split; [auto | tauto].
Qed.

Lemma scan_rects_cases (dims : Dims) (free_rects : list FreeRectangle.t)
    (best : option Candidate) :
  fold_left (try_rect dims) free_rects best = best \/
  exists rect, In rect free_rects /\ fits rect dims = true /\
    fold_left (try_rect dims) free_rects best
      = Some (rect, dims, short_side_of rect dims).
Proof.
  revert best. induction free_rects as [|r l IH]; intros best; simpl.
  - now left.
  - destruct (IH (try_rect dims best r)) as [H | (rect & Hin & Hf & H)].
    + rewrite H. destruct (try_rect_cases dims best r) as [H' | [Hf H']].
      * now left.
      * right. exists r. auto.
    + right. exists rect. auto.
Qed.

Lemma scan_rects_None (dims : Dims) (free_rects : list FreeRectangle.t)
    (best : option Candidate) :
  fold_left (try_rect dims) free_rects best = None <->
  best = None /\ forall rect, In rect free_rects -> fits rect dims = false.
Proof.
  revert best. induction free_rects as [|r l IH]; intros best; simpl.
  - split; [intros ->; split; [reflexivity | contradiction] | tauto].
  - rewrite IH, try_rect_None. split.
    + intros [[Hb Hr] Hl]. split; [exact Hb|].
      intros rect [<- | Hin]; auto.
    + intros [Hb H]. auto.
Qed.

Lemma scan_orientations_cases (orientations : list Dims)
    (free_rects : list FreeRectangle.t) (best : option Candidate) :
  let res := fold_left (fun best dims => fold_left (try_rect dims) free_rects best)
                       orientations best in
  res = best \/
  exists rect dims, In rect free_rects /\ In dims orientations /\
    fits rect dims = true /\ res = Some (rect, dims, short_side_of rect dims).
Proof.
  revert best. induction orientations as [|d l IH]; intros best; simpl.
  - now left.
  - destruct (IH (fold_left (try_rect d) free_rects best))
      as [H | (rect & dims & Hr & Hd & Hf & H)].
    + rewrite H. destruct (scan_rects_cases d free_rects best)
        as [H' | (rect & Hr & Hf & H')].
      * now left.
      * right. exists rect, d. auto.
    + right. exists rect, dims. auto.
Qed.

Lemma scan_orientations_None (orientations : list Dims)
    (free_rects : list FreeRectangle.t) (best : option Candidate) :
  fold_left (fun best dims => fold_left (try_rect dims) free_rects best)
            orientations best = None <->
  best = None /\
  forall dims rect, In dims orientations -> In rect free_rects ->
    fits rect dims = false.
Proof.
  revert best. induction orientations as [|d l IH]; intros best; simpl.
  - split; [intros ->; split; [reflexivity | contradiction] | tauto].
  - rewrite IH, scan_rects_None. split.
    + intros [[Hb Hd] Hl]. split; [exact Hb|].
      intros dims rect [<- | Hin]; auto.
    + intros [Hb H]. auto.
Qed.

Lemma search_current_Some (orientations : list Dims)
    (free_rects : list FreeRectangle.t) (c : Candidate) :
  search_current orientations free_rects = Some c ->
  exists rect dims, c = (rect, dims, short_side_of rect dims) /\
    In rect free_rects /\ In dims orientations /\ fits rect dims = true.
Proof.
  unfold search_current. intros H.
  destruct (scan_orientations_cases orientations free_rects None)
    as [H' | (rect & dims & Hr & Hd & Hf & H')]; simpl in H'.
  - congruence.
  - exists rect, dims. rewrite H in H'. injection H' as ->. auto.
Qed.

Lemma search_current_None (orientations : list Dims)
    (free_rects : list FreeRectangle.t) :
  search_current orientations free_rects = None <->
  forall dims rect, In dims orientations -> In rect free_rects ->
    fits rect dims = false.
Proof.
  unfold search_current. rewrite scan_orientations_None. tauto.
Qed.

Lemma search_fresh_current (orientations : list Dims) (rect : FreeRectangle.t) :
  search_fresh orientations rect = search_current orientations [rect].
Proof. reflexivity. Qed.

Lemma search_fresh_Some (orientations : list Dims) (rect : FreeRectangle.t)
    (c : Candidate) :
  search_fresh orientations rect = Some c ->
  exists dims, c = (rect, dims, short_side_of rect dims) /\
    In dims orientations /\ fits rect dims = true.
Proof.
  rewrite search_fresh_current. intros H.
  apply search_current_Some in H as (r & dims & -> & [<- | []] & Hd & Hf).
  exists dims. auto.
Qed.

Lemma search_fresh_None (orientations : list Dims) (rect : FreeRectangle.t) :
  search_fresh orientations rect = None <->
  forall dims, In dims orientations -> fits rect dims = false.
Proof.
  rewrite search_fresh_current, search_current_None. split.
  - intros H dims Hd. apply (H dims rect Hd). now left.
  - intros H dims r Hd [<- | []]. auto.
Qed.

Lemma scan_rects_candidates (dims : Dims) (free_rects : list FreeRectangle.t)
    (best : option Candidate) :
  fold_left (try_rect dims) free_rects best =
  fold_left (fun best c => try_rect (fst c) best (snd c))
            (map (fun rect => (dims, rect)) free_rects) best.
Proof.
  revert best. induction free_rects as [|r rs IH]; intros best; simpl.
  - reflexivity.
  - apply IH.
Qed.

Lemma search_current_candidates (orientations : list Dims)
    (free_rects : list FreeRectangle.t) (best : option Candidate) :
  fold_left (fun best dims => fold_left (try_rect dims) free_rects best)
            orientations best =
  fold_left (fun best c => try_rect (fst c) best (snd c))
            (candidates orientations free_rects) best.
Proof.
  unfold candidates. revert best.
  induction orientations as [|d l IH]; intros best; simpl; [reflexivity|].
  now rewrite fold_left_app, <- scan_rects_candidates, IH.
Qed.

Lemma try_rect_spec (dims : Dims) (best : option Candidate)
    (rect : FreeRectangle.t) :
  (fits rect dims = false /\ try_rect dims best rect = best) \/
  (fits rect dims = true /\
   ((try_rect dims best rect = Some (rect, dims, short_side_of rect dims) /\
     forall r d m, best = Some (r, d, m) -> short_side_of rect dims < m) \/
    (try_rect dims best rect = best /\
     exists r d m, best = Some (r, d, m) /\ m <= short_side_of rect dims))).
Proof.
  unfold try_rect, fits, short_side_of. destruct dims as [[l w] h].
  destruct (FreeRectangle.can_fit rect l w h); [right | now left].
  split; [reflexivity|].
  destruct best as [[[br bd] m]|].
  - destruct (_ <? m) eqn:E.
    + left. split; [reflexivity|]. intros r d m' H. injection H as _ _ <-.
      now apply Z.ltb_lt.
    + right. split; [reflexivity|]. exists br, bd, m. split; [reflexivity|].
      now apply Z.ltb_ge.
  - left. split; [reflexivity|]. discriminate.
Qed.

(** The winner of a scan is the first candidate, in the order of the scan,
    that fits with the least short-side residual. *)
Lemma scan_first_minimal (l : list (Dims * FreeRectangle.t))
    (best : option Candidate) (rect : FreeRectangle.t) (dims : Dims) (s : Z) :
  fold_left (fun best c => try_rect (fst c) best (snd c)) l best
    = Some (rect, dims, s) ->
  (best = Some (rect, dims, s) /\
   forall c, In c l -> fits (snd c) (fst c) = true ->
             s <= short_side_of (snd c) (fst c)) \/
  (s = short_side_of rect dims /\ fits rect dims = true /\
   (forall r d m, best = Some (r, d, m) -> s < m) /\
   exists before after,
     l = before ++ (dims, rect) :: after /\
     (forall c, In c before -> fits (snd c) (fst c) = true ->
                s < short_side_of (snd c) (fst c)) /\
     (forall c, In c after -> fits (snd c) (fst c) = true ->
                s <= short_side_of (snd c) (fst c))).
Proof.
  revert best. induction l as [|[d r] l IH]; intros best; simpl.
  - intros ->. left. split; [reflexivity | contradiction].
  - intros H. apply IH in H.
    destruct (try_rect_spec d best r)
      as [[Hf Ht] | [Hf [[Ht Hlt] | [Ht (br & bd & m & Hb & Hle)]]]];
      rewrite Ht in H;
      destruct H as [[Hbest Hall] | (Hs & Hfit & Hbound & before & after & Hl & Hb4 & Haft)].
    + left. split; [exact Hbest|].
      intros c [<- | Hc]; [simpl; congruence | auto].
    + right. repeat (split; [assumption|]).
      exists ((d, r) :: before), after. split; [now rewrite Hl|].
      split; [|exact Haft].
      intros c [<- | Hc]; [simpl; congruence | auto].
    + right. injection Hbest as <- <- <-.
      repeat (split; [auto|]). exists [], l. split; [reflexivity|].
      split; [contradiction | exact Hall].
    + right. repeat (split; [auto|]).
      * intros r0 d0 m0 Hb0.
        specialize (Hlt r0 d0 m0 Hb0).
        specialize (Hbound r d (short_side_of r d) eq_refl). lia.
      * exists ((d, r) :: before), after. split; [now rewrite Hl|].
        split; [|exact Haft].
        intros c [<- | Hc] Hfc; [|auto]. simpl.
        apply (Hbound r d (short_side_of r d) eq_refl).
    + left. split; [exact Hbest|].
      intros c [<- | Hc] Hfc; [|auto]. simpl.
      rewrite Hbest in Hb. injection Hb as _ _ <-. exact Hle.
    + right. repeat (split; [auto|]).
      exists ((d, r) :: before), after. split; [now rewrite Hl|].
      split; [|exact Haft].
      intros c [<- | Hc] Hfc; [|auto]. simpl.
      specialize (Hbound br bd m Hb). lia.
Qed.

Lemma search_current_first_minimal (orientations : list Dims)
    (free_rects : list FreeRectangle.t) (rect : FreeRectangle.t)
    (dims : Dims) (s : Z) :
  search_current orientations free_rects = Some (rect, dims, s) ->
  s = short_side_of rect dims /\ fits rect dims = true /\
  exists before after,
    candidates orientations free_rects = before ++ (dims, rect) :: after /\
    (forall c, In c before -> fits (snd c) (fst c) = true ->
               s < short_side_of (snd c) (fst c)) /\
    (forall c, In c after -> fits (snd c) (fst c) = true ->
               s <= short_side_of (snd c) (fst c)).
Proof.
  unfold search_current. rewrite search_current_candidates. intros H.
  apply scan_first_minimal in H
    as [[Hb _] | (Hs & Hf & _ & before & after & Hl & Hb & Ha)].
  - discriminate.
  - split; [exact Hs|]. split; [exact Hf|]. exists before, after. auto.
Qed.

(** [find_best_rectangle], the stand-alone search over one orientation,
    does break ties by the volume residual: its winner fits, and every
    fitting rect of the list has a larger short-side residual, or the same
    one and a volume residual that is not smaller. *)
Lemma find_best_rectangle_scan (item_l item_w item_h : Z)
    (rest scanned : list FreeRectangle.t)
    (st : option (FreeRectangle.t * Z)) :
  let dims := (item_l, item_w, item_h) in
  let inv (st : option (FreeRectangle.t * Z)) (seen : list FreeRectangle.t) :=
    match st with
    | None => forall r, In r seen -> fits r dims = false
    | Some (b, m) =>
        m = short_side_of b dims /\ fits b dims = true /\ In b seen /\
        forall r, In r seen -> fits r dims = true ->
          m < short_side_of r dims \/
          (m = short_side_of r dims /\
           volume_residual b dims <= volume_residual r dims)
    end in
  inv st scanned ->
  inv (fold_left (find_best_rectangle_step item_l item_w item_h) rest st)
      (scanned ++ rest).
Proof.
  intros dims inv. revert scanned st.
  induction rest as [|r rest IH]; intros scanned st Hinv; simpl.
  - now rewrite app_nil_r.
  - replace (scanned ++ r :: rest) with ((scanned ++ [r]) ++ rest)
      by now rewrite <- app_assoc.
    apply IH. unfold find_best_rectangle_step.
    change (FreeRectangle.can_fit r item_l item_w item_h) with (fits r dims).
    change (Z.min (FreeRectangle.length r - item_l)
                  (FreeRectangle.width r - item_w))
      with (short_side_of r dims).
    destruct (fits r dims) eqn:Hf.
    + destruct st as [[b m]|]; unfold inv in *.
      * destruct Hinv as (Hm & Hb & Hin & Hall).
        destruct (short_side_of r dims <? m) eqn:E1;
          [apply Z.ltb_lt in E1 | apply Z.ltb_ge in E1].
        { repeat split; auto using in_or_app, in_eq.
          intros r' Hr' Hf'. apply in_app_iff in Hr' as [Hr' | [<- | []]].
          - destruct (Hall r' Hr' Hf') as [? | [? ?]]; left; lia.
          - right. split; lia. }
        destruct (short_side_of r dims =? m) eqn:E2;
          [apply Z.eqb_eq in E2 | apply Z.eqb_neq in E2].
        { change (FreeRectangle.volume r - item_l * item_w * item_h)
            with (volume_residual r dims).
          change (FreeRectangle.volume b - item_l * item_w * item_h)
            with (volume_residual b dims).
          destruct (volume_residual r dims <? volume_residual b dims) eqn:E3;
            [apply Z.ltb_lt in E3 | apply Z.ltb_ge in E3].
          - repeat split; auto using in_or_app, in_eq.
            intros r' Hr' Hf'. apply in_app_iff in Hr' as [Hr' | [<- | []]].
            + destruct (Hall r' Hr' Hf') as [? | [? ?]]; [left | right]; lia.
            + right. split; lia.
          - repeat split; auto using in_or_app.
            intros r' Hr' Hf'. apply in_app_iff in Hr' as [Hr' | [<- | []]].
            + auto.
            + right. split; lia. }
        repeat split; auto using in_or_app.
        intros r' Hr' Hf'. apply in_app_iff in Hr' as [Hr' | [<- | []]].
        { auto. }
        left. lia.
      * repeat split; auto using in_or_app, in_eq.
        intros r' Hr' Hf'. apply in_app_iff in Hr' as [Hr' | [<- | []]].
        { rewrite (Hinv r' Hr') in Hf'. discriminate. }
        right. split; lia.
    + destruct st as [[b m]|]; unfold inv in *.
      * destruct Hinv as (Hm & Hb & Hin & Hall).
        repeat split; auto using in_or_app.
        intros r' Hr' Hf'. apply in_app_iff in Hr' as [Hr' | [<- | []]].
        { auto. }
        congruence.
      * intros r' Hr'. apply in_app_iff in Hr' as [Hr' | [<- | []]]; auto.
Qed.

Lemma find_best_rectangle_tie_break (free_rects : list FreeRectangle.t)
    (item_l item_w item_h : Z) (best_rect : FreeRectangle.t) :
  let dims := (item_l, item_w, item_h) in
  find_best_rectangle free_rects item_l item_w item_h = Some best_rect ->
  In best_rect free_rects /\ fits best_rect dims = true /\
  forall r, In r free_rects -> fits r dims = true ->
    short_side_of best_rect dims < short_side_of r dims \/
    (short_side_of best_rect dims = short_side_of r dims /\
     volume_residual best_rect dims <= volume_residual r dims).
Proof.
  intros dims. unfold find_best_rectangle.
  pose proof (find_best_rectangle_scan item_l item_w item_h free_rects [] None)
    as H.
  cbv zeta in H. simpl app in H.
  destruct (fold_left _ free_rects None) as [[b m]|]; [|discriminate].
  intros E. simpl in E. injection E as <-.
  destruct H as (-> & Hf & Hin & Hall); [intros r []|].
  split; [exact Hin|]. split; [exact Hf|].
  intros r Hr Hfr. exact (Hall r Hr Hfr).
Qed.

(* ================================================================== *)
(** ** One iteration of the main loop                                  *)
(* ================================================================== *)

Lemma pack_step_Step (orient : UrunData.t -> list Dims)
    (palet_cfg : PaletConfig.t) (pallets : list Pallet.t)
    (cur : CurrentPallet.t) (urun : UrunData.t) (st' : State) :
  pack_step orient palet_cfg (pallets, cur) urun = Some st' ->
  Step orient palet_cfg pallets cur urun st'.
Proof.
  unfold pack_step.
  assert (Hfresh : forall pallets0,
    match search_fresh (orient urun) (whole_pallet palet_cfg) with
    | Some (best_rect, best_orientation, _) =>
        Some (pallets0, place (new_pallet palet_cfg) urun best_rect best_orientation)
    | None =>
        match orient urun with
        | [] => None
        | first_orientation :: _ =>
            Some (pallets0, place (new_pallet palet_cfg) urun
                              (whole_pallet palet_cfg) first_orientation)
        end
    end = Some st' ->
    pallets0 = emit pallets cur ->
    Step orient palet_cfg pallets cur urun st').
  { intros pallets0 H ->.
    destruct (search_fresh (orient urun) (whole_pallet palet_cfg))
      as [[[r d] s]|] eqn:Es.
    - apply search_fresh_Some in Es as (dims & E & Hd & Hf).
      injection E as -> -> _. injection H as <-. now apply StepFresh.
    - destruct (orient urun) as [|d rest] eqn:Eo; [discriminate|].
      injection H as <-. rewrite <- Eo in Es.
      apply StepForced with (rest := rest); [exact Eo|].
      now apply search_fresh_None. }
  destruct (CurrentPallet.weight cur + UrunData.agirlik urun
              >? PaletConfig.max_weight palet_cfg) eqn:Ew.
  - (* the weight check opens a new pallet *)
    destruct (search_current (orient urun)
                (CurrentPallet.free_rects (new_pallet palet_cfg)))
      as [[[r d] s]|] eqn:Es.
    + intros H. injection H as <-.
      apply search_current_Some in Es as (rect & dims & E & Hr & Hd & Hf).
      injection E as -> -> _. destruct Hr as [<- | []].
      now apply StepFresh.
    + intros H. apply (Hfresh _ H). reflexivity.
  - rewrite Z.gtb_ltb in Ew. apply Z.ltb_ge in Ew.
    destruct (search_current (orient urun) (CurrentPallet.free_rects cur))
      as [[[r d] s]|] eqn:Es.
    + intros H. injection H as <-.
      apply search_current_Some in Es as (rect & dims & E & Hr & Hd & Hf).
      injection E as -> -> _. now apply StepKeep.
    + intros H. apply (Hfresh _ H). reflexivity.
Qed.

Lemma pack_step_total (orient : UrunData.t -> list Dims)
    (palet_cfg : PaletConfig.t) (st : State) (urun : UrunData.t) :
  orient urun <> [] -> exists st', pack_step orient palet_cfg st urun = Some st'.
Proof.
  intros Hne. destruct st as [pallets cur]. unfold pack_step.
  destruct (_ >? _);
    (destruct (search_current _ _) as [[[r d] s]|]; [eauto|]);
    simpl CurrentPallet.free_rects; cbv iota;
    (destruct (search_fresh _ _) as [[[r d] s]|]; [eauto|]);
    (destruct (orient urun); [congruence | eauto]).
Qed.

Lemma Step_pallets (orient : UrunData.t -> list Dims)
    (palet_cfg : PaletConfig.t) (pallets : list Pallet.t)
    (cur : CurrentPallet.t) (urun : UrunData.t) (st' : State) :
  Step orient palet_cfg pallets cur urun st' ->
  fst st' = pallets \/ fst st' = emit pallets cur.
Proof. intros H. destruct H; simpl; auto. Qed.

Lemma place_items (cur : CurrentPallet.t) (urun : UrunData.t)
    (rect : FreeRectangle.t) (l w h : Z) :
  CurrentPallet.items (place cur urun rect (l, w, h)) =
  CurrentPallet.items cur ++
    [Placement.mk urun (FreeRectangle.x rect) (FreeRectangle.y rect)
       (FreeRectangle.z rect) l w h].
Proof. reflexivity. Qed.

Lemma place_weight (cur : CurrentPallet.t) (urun : UrunData.t)
    (rect : FreeRectangle.t) (dims : Dims) :
  CurrentPallet.weight (place cur urun rect dims) =
  CurrentPallet.weight cur + UrunData.agirlik urun.
Proof. destruct dims as [[l w] h]. reflexivity. Qed.

Lemma place_free_rects (cur : CurrentPallet.t) (urun : UrunData.t)
    (rect : FreeRectangle.t) (l w h : Z) :
  CurrentPallet.free_rects (place cur urun rect (l, w, h)) =
  remove_redundant_rectangles
    (split_free_rects (CurrentPallet.free_rects cur)
       (FreeRectangle.x rect) (FreeRectangle.y rect) (FreeRectangle.z rect)
       l w h).
Proof. reflexivity. Qed.

(* ================================================================== *)
(** ** The main loop                                                   *)
(* ================================================================== *)

Lemma pack_loop_cons (orient : UrunData.t -> list Dims)
    (palet_cfg : PaletConfig.t) (u : UrunData.t) (rest : list UrunData.t)
    (st : State) :
  pack_loop orient palet_cfg (u :: rest) st =
  match pack_step orient palet_cfg st u with
  | Some st' => pack_loop orient palet_cfg rest st'
  | None => None
  end.
Proof. reflexivity. Qed.

Lemma pack_loop_total (orient : UrunData.t -> list Dims)
    (palet_cfg : PaletConfig.t) (urunler : list UrunData.t) (st : State) :
  (forall u, In u urunler -> orient u <> []) ->
  exists st', pack_loop orient palet_cfg urunler st = Some st'.
Proof.
  revert st. induction urunler as [|u rest IH]; intros st Hne; simpl.
  - eauto.
  - destruct (pack_step_total orient palet_cfg st u) as [st1 E].
    + apply Hne. now left.
    + rewrite E. apply IH. intros u' Hin. apply Hne. now right.
Qed.

Lemma pack_loop_invariant (orient : UrunData.t -> list Dims)
    (palet_cfg : PaletConfig.t) (good : UrunData.t -> Prop)
    (I : State -> Prop) :
  (forall pallets cur u st',
      good u -> I (pallets, cur) ->
      Step orient palet_cfg pallets cur u st' -> I st') ->
  forall urunler st st',
    Forall good urunler -> I st ->
    pack_loop orient palet_cfg urunler st = Some st' -> I st'.
Proof.
  intros Hstep. induction urunler as [|u rest IH]; intros st st' Hgood HI; simpl.
  - intros H. now injection H as <-.
  - destruct (pack_step orient palet_cfg st u) as [st1|] eqn:E; [|discriminate].
    inversion Hgood as [|? ? Hu Hrest]; subst.
    destruct st as [pallets cur]. apply pack_step_Step in E.
    apply (IH st1 st' Hrest). eapply Hstep; eauto.
Qed.

(** The shape shared by the per-pallet properties: [R] is kept by the open
    pallet, and gives [Q] for the pallet whenever it is emitted. *)
Lemma pack_pallets_invariant (orient : UrunData.t -> list Dims)
    (palet_cfg : PaletConfig.t) (good : UrunData.t -> Prop)
    (Q : Pallet.t -> Prop) (R : CurrentPallet.t -> Prop) :
  R (new_pallet palet_cfg) ->
  (forall cur, R cur -> CurrentPallet.items cur <> [] ->
     Q (Pallet.mk (CurrentPallet.items cur) (CurrentPallet.weight cur))) ->
  (forall pallets cur u st',
     good u -> R cur -> Step orient palet_cfg pallets cur u st' -> R (snd st')) ->
  forall urunler,
    Forall good urunler ->
    (forall u, In u urunler -> orient u <> []) ->
    exists pallets,
      pack_maximal_rectangles orient palet_cfg urunler = Some pallets /\
      Forall Q pallets.
Proof.
  intros Hnew Hemit Hstep urunler Hgood Hne.
  assert (Hemit' : forall pallets cur,
             Forall Q pallets -> R cur -> Forall Q (emit pallets cur)).
  { intros pallets cur HQ HR. unfold emit.
    destruct (CurrentPallet.items cur) eqn:E; [exact HQ|].
    apply Forall_app. split; [exact HQ|]. constructor; [|constructor].
    rewrite <- E. apply Hemit; [exact HR | congruence]. }
  destruct (pack_loop_total orient palet_cfg urunler ([], new_pallet palet_cfg) Hne)
    as [[pallets cur] E].
  unfold pack_maximal_rectangles. rewrite E.
  exists (emit pallets cur). split; [reflexivity|].
  assert (HI : Forall Q pallets /\ R cur).
  { apply (pack_loop_invariant orient palet_cfg good
             (fun st => Forall Q (fst st) /\ R (snd st)))
      with (urunler := urunler) (st := ([], new_pallet palet_cfg))
           (st' := (pallets, cur)); auto.
    intros ps c u st' Hu [HQ HR] HS. simpl in HQ, HR. split.
    - destruct (Step_pallets _ _ _ _ _ _ HS) as [-> | ->]; auto.
    - eapply Hstep; eauto. }
  destruct HI. auto.
Qed.


(* ================================================================== *)
(** ** Weight bookkeeping                                              *)
(* ================================================================== *)

Lemma items_weight_snoc (items : list Placement.t) (pl : Placement.t) :
  items_weight (items ++ [pl]) =
  items_weight items + UrunData.agirlik (Placement.urun pl).
Proof.
  unfold items_weight. induction items as [|a l IH]; simpl.
  - lia.
  - rewrite IH. lia.
Qed.

Lemma place_items_weight (cur : CurrentPallet.t) (urun : UrunData.t)
    (rect : FreeRectangle.t) (dims : Dims) :
  items_weight (CurrentPallet.items (place cur urun rect dims)) =
  items_weight (CurrentPallet.items cur) + UrunData.agirlik urun.
Proof.
  destruct dims as [[l w] h]. rewrite place_items, items_weight_snoc.
  reflexivity.
Qed.

Lemma Step_weight_consistent (orient : UrunData.t -> list Dims)
    (palet_cfg : PaletConfig.t) (pallets : list Pallet.t)
    (cur : CurrentPallet.t) (urun : UrunData.t) (st' : State) :
  CurrentPallet.weight cur = items_weight (CurrentPallet.items cur) ->
  Step orient palet_cfg pallets cur urun st' ->
  CurrentPallet.weight (snd st') = items_weight (CurrentPallet.items (snd st')).
Proof.
  intros HR HS. destruct HS; cbn [snd];
    rewrite place_weight, place_items_weight; simpl; lia.
Qed.

(* ================================================================== *)
(** ** Order of the products                                           *)
(* ================================================================== *)

Lemma emit_items (pallets : list Pallet.t) (cur : CurrentPallet.t) :
  concat (map Pallet.items (emit pallets cur)) =
  concat (map Pallet.items pallets) ++ CurrentPallet.items cur.
Proof.
  unfold emit. destruct (CurrentPallet.items cur) as [|pl l] eqn:E.
  - now rewrite app_nil_r.
  - rewrite map_app, concat_app. simpl. now rewrite app_nil_r.
Qed.

Lemma Step_products (orient : UrunData.t -> list Dims)
    (palet_cfg : PaletConfig.t) (pallets : list Pallet.t)
    (cur : CurrentPallet.t) (urun : UrunData.t) (st' : State) :
  Step orient palet_cfg pallets cur urun st' ->
  map Placement.urun
      (concat (map Pallet.items (fst st')) ++ CurrentPallet.items (snd st')) =
  map Placement.urun
      (concat (map Pallet.items pallets) ++ CurrentPallet.items cur) ++ [urun].
Proof.
  intros HS. destruct HS as [rect [[l w] h] | [[l w] h] | [[l w] h] rest];
    cbn [fst snd]; rewrite place_items, ?emit_items;
    rewrite !map_app; simpl; now rewrite ?app_nil_r, ?app_assoc.
Qed.

Lemma pack_loop_products (orient : UrunData.t -> list Dims)
    (palet_cfg : PaletConfig.t) (urunler : list UrunData.t) (st st' : State) :
  pack_loop orient palet_cfg urunler st = Some st' ->
  map Placement.urun
      (concat (map Pallet.items (fst st')) ++ CurrentPallet.items (snd st')) =
  map Placement.urun
      (concat (map Pallet.items (fst st)) ++ CurrentPallet.items (snd st))
    ++ urunler.
Proof.
  revert st. induction urunler as [|u rest IH]; intros st; simpl.
  - intros H. injection H as <-. now rewrite app_nil_r.
  - destruct (pack_step orient palet_cfg st u) as [st1|] eqn:E; [|discriminate].
    intros H. rewrite (IH st1 H). destruct st as [pallets cur].
    apply pack_step_Step in E. rewrite (Step_products _ _ _ _ _ _ E).
    simpl. now rewrite <- app_assoc.
Qed.

Lemma pack_products (orient : UrunData.t -> list Dims)
    (palet_cfg : PaletConfig.t) (urunler : list UrunData.t)
    (pallets : list Pallet.t) :
  pack_maximal_rectangles orient palet_cfg urunler = Some pallets ->
  products_of pallets = urunler.
Proof.
  unfold pack_maximal_rectangles, products_of.
  destruct (pack_loop orient palet_cfg urunler ([], new_pallet palet_cfg))
    as [[ps cur]|] eqn:E; [|discriminate].
  intros H. injection H as <-. rewrite emit_items.
  apply pack_loop_products in E. simpl in E. exact E.
Qed.

Lemma pack_total (orient : UrunData.t -> list Dims)
    (palet_cfg : PaletConfig.t) (urunler : list UrunData.t) :
  (forall u, In u urunler -> orient u <> []) ->
  exists pallets, pack_maximal_rectangles orient palet_cfg urunler = Some pallets.
Proof.
  intros Hne. unfold pack_maximal_rectangles.
  destruct (pack_loop_total orient palet_cfg urunler ([], new_pallet palet_cfg) Hne)
    as [[ps cur] E].
  rewrite E. eauto.
Qed.

(* ================================================================== *)
(** ** Bounds                                                          *)
(* ================================================================== *)

Lemma fits_iff (rect : FreeRectangle.t) (l w h : Z) :
  fits rect (l, w, h) = true <->
  l <= FreeRectangle.length rect /\ w <= FreeRectangle.width rect /\
  h <= FreeRectangle.height rect.
Proof.
  unfold fits, FreeRectangle.can_fit.
  rewrite !andb_true_iff, !Z.geb_le. tauto.
Qed.

Lemma rect_in_bounds_whole (palet_cfg : PaletConfig.t) :
  rect_in_bounds palet_cfg (whole_pallet palet_cfg).
Proof. unfold rect_in_bounds, whole_pallet. simpl. lia. Qed.

Lemma rect_in_bounds_contains (palet_cfg : PaletConfig.t)
    (r s : FreeRectangle.t) :
  rect_in_bounds palet_cfg r -> contains r s = true ->
  rect_in_bounds palet_cfg s.
Proof. unfold rect_in_bounds. rewrite contains_iff. lia. Qed.

Lemma place_free_rects_inside (cur : CurrentPallet.t) (urun : UrunData.t)
    (rect : FreeRectangle.t) (dims : Dims) (s : FreeRectangle.t) :
  In s (CurrentPallet.free_rects (place cur urun rect dims)) ->
  (let '(l, w, h) := dims in
   intersects_3d s (FreeRectangle.x rect) (FreeRectangle.y rect)
     (FreeRectangle.z rect) l w h = false) /\
  exists r, In r (CurrentPallet.free_rects cur) /\ contains r s = true.
Proof.
  destruct dims as [[l w] h]. rewrite place_free_rects. intros Hs.
  apply remove_redundant_incl in Hs. now apply split_free_rects_clear.
Qed.

Lemma place_rects_in_bounds (palet_cfg : PaletConfig.t) (cur : CurrentPallet.t)
    (urun : UrunData.t) (rect : FreeRectangle.t) (dims : Dims) :
  (forall r, In r (CurrentPallet.free_rects cur) -> rect_in_bounds palet_cfg r) ->
  forall s, In s (CurrentPallet.free_rects (place cur urun rect dims)) ->
    rect_in_bounds palet_cfg s.
Proof.
  intros H s Hs. apply place_free_rects_inside in Hs as [_ (r & Hr & Hc)].
  eapply rect_in_bounds_contains; eauto.
Qed.

Lemma fitted_in_bounds (palet_cfg : PaletConfig.t) (urun : UrunData.t)
    (rect : FreeRectangle.t) (l w h : Z) :
  rect_in_bounds palet_cfg rect -> fits rect (l, w, h) = true ->
  in_bounds palet_cfg
    (Placement.mk urun (FreeRectangle.x rect) (FreeRectangle.y rect)
       (FreeRectangle.z rect) l w h).
Proof.
  unfold rect_in_bounds, in_bounds. rewrite fits_iff. simpl. lia.
Qed.


(* ================================================================== *)
(** ** Separation                                                      *)
(* ================================================================== *)

Lemma separated_sym (a b : Placement.t) : separated a b -> separated b a.
Proof. unfold separated. tauto. Qed.

Lemma intersects_placement_false (r : FreeRectangle.t) (pl : Placement.t) :
  intersects_placement r pl = false <->
  Placement.x pl + Placement.L pl <= FreeRectangle.x r \/
  FreeRectangle.x r + FreeRectangle.length r <= Placement.x pl \/
  Placement.y pl + Placement.W pl <= FreeRectangle.y r \/
  FreeRectangle.y r + FreeRectangle.width r <= Placement.y pl \/
  Placement.z pl + Placement.H pl <= FreeRectangle.z r \/
  FreeRectangle.z r + FreeRectangle.height r <= Placement.z pl.
Proof. unfold intersects_placement. apply intersects_3d_false. Qed.

Lemma intersects_placement_contains (r s : FreeRectangle.t) (pl : Placement.t) :
  contains r s = true -> intersects_placement r pl = false ->
  intersects_placement s pl = false.
Proof. rewrite contains_iff, !intersects_placement_false. lia. Qed.

(** A box put at the corner of a free rect it fits in is separated from
    every placement the rect is clear of. *)
Lemma fitted_separated (urun : UrunData.t) (rect : FreeRectangle.t)
    (l w h : Z) (a : Placement.t) :
  fits rect (l, w, h) = true -> intersects_placement rect a = false ->
  separated a
    (Placement.mk urun (FreeRectangle.x rect) (FreeRectangle.y rect)
       (FreeRectangle.z rect) l w h).
Proof.
  rewrite fits_iff, intersects_placement_false. unfold separated. simpl. lia.
Qed.

Lemma pairwise_separated_nil : pairwise_separated [].
Proof. intros i j a b _ H. destruct i; discriminate. Qed.

Lemma pairwise_separated_snoc (items : list Placement.t) (pl : Placement.t) :
  pairwise_separated items ->
  (forall a, In a items -> separated a pl) ->
  pairwise_separated (items ++ [pl]).
Proof.
  intros Hold Hnew i j a b Hne Ha Hb.
  apply nth_error_snoc in Ha as [Ha | [Hi ->]];
    apply nth_error_snoc in Hb as [Hb | [Hj ->]].
  - eapply Hold; eauto.
  - apply Hnew. eapply nth_error_In; eauto.
  - apply separated_sym, Hnew. eapply nth_error_In; eauto.
  - congruence.
Qed.

(** The invariant behind the separation: the placements of the open pallet
    are pairwise separated and no free rect meets any of them. *)
Lemma place_separation (cur : CurrentPallet.t) (urun : UrunData.t)
    (rect : FreeRectangle.t) (dims : Dims) :
  let R c :=
    pairwise_separated (CurrentPallet.items c) /\
    (forall r pl, In r (CurrentPallet.free_rects c) ->
                  In pl (CurrentPallet.items c) ->
                  intersects_placement r pl = false) in
  R cur ->
  In rect (CurrentPallet.free_rects cur) ->
  (CurrentPallet.items cur = [] \/ fits rect dims = true) ->
  R (place cur urun rect dims).
Proof.
  intros R [Hsep Hclear] Hr Hfit. destruct dims as [[l w] h]. split.
  - rewrite place_items. apply pairwise_separated_snoc; [exact Hsep|].
    intros a Ha. destruct Hfit as [He | Hf].
    + rewrite He in Ha. contradiction.
    + apply fitted_separated; auto.
  - intros s pl Hs. rewrite place_items. intros Hpl.
    apply place_free_rects_inside in Hs as [Hbox (r & Hin & Hc)].
    apply in_app_iff in Hpl as [Hpl | [<- | []]].
    + eapply intersects_placement_contains; eauto.
    + exact Hbox.
Qed.

Lemma Step_separation (orient : UrunData.t -> list Dims)
    (palet_cfg : PaletConfig.t) (pallets : list Pallet.t)
    (cur : CurrentPallet.t) (urun : UrunData.t) (st' : State) :
  let R c :=
    pairwise_separated (CurrentPallet.items c) /\
    (forall r pl, In r (CurrentPallet.free_rects c) ->
                  In pl (CurrentPallet.items c) ->
                  intersects_placement r pl = false) in
  R cur -> Step orient palet_cfg pallets cur urun st' -> R (snd st').
Proof.
  intros R HR HS.
  assert (Hnew : R (new_pallet palet_cfg)).
  { split; [apply pairwise_separated_nil | intros r pl _ []]. }
  destruct HS; cbn [snd]; apply place_separation; auto;
    simpl; auto.
Qed.

(* ================================================================== *)
(** ** Properties of the packer                                        *)
(* ================================================================== *)

(** Discharges [forall u, In u urunler -> spec_orientations u <> []] on a
    concrete product list. *)
Ltac orientations_nonempty :=
  let u := fresh "u" in
  let H := fresh "H" in
  let E := fresh "E" in
  intros u H; simpl in H;
  repeat (destruct H as [<- | H]; [intros E; vm_compute in E; discriminate E|]);
  contradiction H.

(** The negation of a membership in a concrete list. *)
Ltac not_in_concrete :=
  let H := fresh "H" in
  intros H; vm_compute in H;
  repeat (destruct H as [H | H]; [discriminate H|]); exact H.

(** C2, as stated, fails: the product that fits no orientation is not set
    aside; it is an item of the returned pallet. *)
Lemma oversized_item_is_placed :
  (forall d, In d (spec_orientations urun_oversized) ->
             fits (whole_pallet cfg_100) d = false) /\
  exists p,
    pack_maximal_rectangles spec_orientations cfg_100 [urun_oversized]
      = Some [p] /\
    In urun_oversized (map Placement.urun (Pallet.items p)).
Proof.
  split.
  - intros d Hd. vm_compute in Hd.
    destruct Hd as [<- | [<- | []]]; reflexivity.
  - eexists. split; [reflexivity|]. left. reflexivity.
Qed.

(** C2 (amended): when a product fits no orientation in any free rect of
    the open pallet nor in a fresh empty pallet, the iteration emits the
    open pallet if it has items, opens a fresh one and places the product on
    it anyway, at (0,0,0) in its first orientation, as the only item so far;
    the loop then goes on with the remaining products from that state. *)
Theorem oversized_item_forced (orient : UrunData.t -> list Dims)
    (palet_cfg : PaletConfig.t) (pallets : list Pallet.t)
    (cur : CurrentPallet.t) (urun : UrunData.t) (l w h : Z)
    (others : list Dims) (rest : list UrunData.t) :
  orient urun = (l, w, h) :: others ->
  (forall d r, In d (orient urun) -> In r (CurrentPallet.free_rects cur) ->
               fits r d = false) ->
  (forall d, In d (orient urun) -> fits (whole_pallet palet_cfg) d = false) ->
  let st' := (emit pallets cur,
              place (new_pallet palet_cfg) urun (whole_pallet palet_cfg)
                    (l, w, h)) in
  pack_step orient palet_cfg (pallets, cur) urun = Some st' /\
  CurrentPallet.items (snd st') = [Placement.mk urun 0 0 0 l w h] /\
  pack_loop orient palet_cfg (urun :: rest) (pallets, cur) =
    pack_loop orient palet_cfg rest st'.
Proof.
  intros Ho Hcur Hwhole st'.
  assert (E : pack_step orient palet_cfg (pallets, cur) urun = Some st').
  { unfold pack_step.
    assert (Hf : search_fresh (orient urun) (whole_pallet palet_cfg) = None)
      by now apply search_fresh_None.
    assert (Hn : search_current (orient urun)
                   (CurrentPallet.free_rects (new_pallet palet_cfg)) = None).
    { apply search_current_None. intros d r Hd [<- | []]. now apply Hwhole. }
    assert (Hc : search_current (orient urun) (CurrentPallet.free_rects cur)
                 = None)
      by now apply search_current_None.
    destruct (_ >? _); [rewrite Hn | rewrite Hc];
      cbn [new_pallet CurrentPallet.free_rects];
      fold (whole_pallet palet_cfg); fold (new_pallet palet_cfg);
      rewrite Hf, Ho; reflexivity. }
  split; [exact E|]. split; [reflexivity|].
  rewrite pack_loop_cons, E. reflexivity.
Qed.

Lemma oversized_item_forced_witness :
  let cur := place (new_pallet cfg_100) urun_cube (whole_pallet cfg_100)
                   (10, 10, 10) in
  pack_step spec_orientations cfg_100 ([], cur) urun_oversized =
    Some ([Pallet.mk [Placement.mk urun_cube 0 0 0 10 10 10] 1],
          place (new_pallet cfg_100) urun_oversized (whole_pallet cfg_100)
                (120, 50, 50)).
Proof.
  intros cur.
  refine (proj1 (oversized_item_forced spec_orientations cfg_100 [] cur
                   urun_oversized 120 50 50 [(50, 120, 50)] [] _ _ _)).
  - reflexivity.
  - intros d r Hd Hr. vm_compute in Hd, Hr.
    destruct Hd as [<- | [<- | []]];
      destruct Hr as [<- | [<- | [<- | []]]]; reflexivity.
  - intros d Hd. vm_compute in Hd.
    destruct Hd as [<- | [<- | []]]; reflexivity.
Defined.

(** C5: the packer does not reorder its input.  Whenever every product has
    an orientation list that is not empty the packer returns, and the
    products of the returned pallets, read pallet after pallet, are the
    input list itself: each product once, in the input order, none left
    out. *)
Theorem pack_keeps_input_order (orient : UrunData.t -> list Dims)
    (palet_cfg : PaletConfig.t) (urunler : list UrunData.t) :
  (forall u, In u urunler -> orient u <> []) ->
  exists pallets,
    pack_maximal_rectangles orient palet_cfg urunler = Some pallets /\
    products_of pallets = urunler /\
    List.length (concat (map Pallet.items pallets)) = List.length urunler.
Proof.
  intros Hne. destruct (pack_total orient palet_cfg urunler Hne) as [pallets E].
  exists pallets. split; [exact E|].
  pose proof (pack_products orient palet_cfg urunler pallets E) as HP.
  split; [exact HP|].
  apply (f_equal (@List.length UrunData.t)) in HP.
  unfold products_of in HP. now rewrite length_map in HP.
Qed.

Lemma pack_keeps_input_order_witness :
  exists pallets,
    pack_maximal_rectangles spec_orientations cfg_30_20_10
      [urun_cube; urun_bar] = Some pallets /\
    products_of pallets = [urun_cube; urun_bar] /\
    List.length (concat (map Pallet.items pallets)) = 2%nat.
Proof.
  apply (pack_keeps_input_order spec_orientations cfg_30_20_10
           [urun_cube; urun_bar]).
  orientations_nonempty.
Defined.

(** C6: the search of the packer does not break ties of the short-side
    residual by the volume residual.  On the 30 x 20 x 10 pallet holding the
    cube, the free list is [rect_right; rect_back]; the bar fits both with
    short-side residual 0, and [rect_back] leaves the smaller volume
    residual.  The packer puts the bar in [rect_right], at (10,0,0), while
    [find_best_rectangle], which has the volume tie-break, picks
    [rect_back]. *)
Theorem packer_search_ignores_volume_residual :
  pack_loop spec_orientations cfg_30_20_10 [urun_cube]
            ([], new_pallet cfg_30_20_10)
    = Some ([], CurrentPallet.mk [Placement.mk urun_cube 0 0 0 10 10 10] 1
                  [rect_right; rect_back]) /\
  spec_orientations urun_bar = [(20, 10, 10); (10, 20, 10)] /\
  fits rect_right (20, 10, 10) = true /\
  fits rect_back (20, 10, 10) = true /\
  short_side_of rect_right (20, 10, 10) = 0 /\
  short_side_of rect_back (20, 10, 10) = 0 /\
  volume_residual rect_back (20, 10, 10) = 1000 /\
  volume_residual rect_right (20, 10, 10) = 2000 /\
  search_current (spec_orientations urun_bar) [rect_right; rect_back]
    = Some (rect_right, (20, 10, 10), 0) /\
  find_best_rectangle [rect_right; rect_back] 20 10 10 = Some rect_back /\
  pack_maximal_rectangles spec_orientations cfg_30_20_10 [urun_cube; urun_bar]
    = Some [Pallet.mk [Placement.mk urun_cube 0 0 0 10 10 10;
                       Placement.mk urun_bar 10 0 0 20 10 10] 2].
Proof. repeat split; reflexivity. Qed.






(** C9: the packer never emits an empty pallet.  On an empty product list
    it returns the empty pallet list; whenever it returns, every returned
    pallet has at least one item. *)
Theorem no_empty_pallet (orient : UrunData.t -> list Dims)
    (palet_cfg : PaletConfig.t) :
  pack_maximal_rectangles orient palet_cfg [] = Some [] /\
  forall urunler,
    (forall u, In u urunler -> orient u <> []) ->
    exists pallets,
      pack_maximal_rectangles orient palet_cfg urunler = Some pallets /\
      forall p, In p pallets -> Pallet.items p <> [].
Proof.
  split; [reflexivity|]. intros urunler Hne.
  destruct (pack_pallets_invariant orient palet_cfg (fun _ => True)
              (fun p => Pallet.items p <> []) (fun _ => True))
    with (urunler := urunler) as (pallets & E & HQ); auto.
  - apply Forall_forall. trivial.
  - exists pallets. split; [exact E|]. now apply Forall_forall.
Qed.

Lemma no_empty_pallet_witness :
  exists pallets,
    pack_maximal_rectangles spec_orientations cfg_100
      [urun_overweight; urun_oversized] = Some pallets /\
    forall p, In p pallets -> Pallet.items p <> [].
Proof.
  apply (proj2 (no_empty_pallet spec_orientations cfg_100)).
  orientations_nonempty.
Defined.

(* ================================================================== *)
(** ** Further properties of the packer                                *)
(* ================================================================== *)

(** X1: whenever the packer returns, the (L, W, H) of every placement is
    one of the orientations that [possible_orientations_for] lists for the
    placed product, also for a product placed by the fallback. *)
Theorem placements_use_listed_orientations (orient : UrunData.t -> list Dims)
    (palet_cfg : PaletConfig.t) (urunler : list UrunData.t) :
  (forall u, In u urunler -> orient u <> []) ->
  exists pallets,
    pack_maximal_rectangles orient palet_cfg urunler = Some pallets /\
    forall p pl, In p pallets -> In pl (Pallet.items p) ->
      In (Placement.L pl, Placement.W pl, Placement.H pl)
         (orient (Placement.urun pl)).
Proof.
  intros Hne.
  set (ok := fun pl : Placement.t =>
    In (Placement.L pl, Placement.W pl, Placement.H pl)
       (orient (Placement.urun pl))).
  destruct (pack_pallets_invariant orient palet_cfg (fun _ => True)
              (fun p => forall pl, In pl (Pallet.items p) -> ok pl)
              (fun c => forall pl, In pl (CurrentPallet.items c) -> ok pl))
    with (urunler := urunler) as (pallets & E & HQ).
  - intros pl [].
  - intros cur H _. exact H.
  - intros ps cur u st' _ HR HS.
    destruct HS as [rect [[l w] h] Hw Hr Hd Hf | [[l w] h] Hd Hf
                   | [[l w] h] rest Ho Hnone];
      cbn [snd]; intros pl; rewrite place_items; intros Hin;
      apply in_app_iff in Hin as [Hin | [<- | []]]; auto; try contradiction;
      unfold ok; simpl; auto.
    rewrite Ho. now left.
  - apply Forall_forall. trivial.
  - exact Hne.
  - exists pallets. split; [exact E|].
    intros p pl Hp Hpl. rewrite Forall_forall in HQ. exact (HQ p Hp pl Hpl).
Qed.

Lemma placements_use_listed_orientations_witness :
  In (120, 50, 50) (spec_orientations urun_oversized).
Proof.
  destruct (placements_use_listed_orientations spec_orientations cfg_100
              [urun_oversized]) as (pallets & E & H).
  - orientations_nonempty.
  - vm_compute in E. injection E as <-.
    apply (H (Pallet.mk [Placement.mk urun_oversized 0 0 0 120 50 50] 10)
             (Placement.mk urun_oversized 0 0 0 120 50 50)).
    + left. reflexivity.
    + left. reflexivity.
Defined.

(** X3: whenever the packer returns, the first placement of every returned
    pallet sits at the origin (0, 0, 0). *)
Theorem first_placement_at_origin (orient : UrunData.t -> list Dims)
    (palet_cfg : PaletConfig.t) (urunler : list UrunData.t) :
  (forall u, In u urunler -> orient u <> []) ->
  exists pallets,
    pack_maximal_rectangles orient palet_cfg urunler = Some pallets /\
    forall p, In p pallets ->
      exists pl rest,
        Pallet.items p = pl :: rest /\
        Placement.x pl = 0 /\ Placement.y pl = 0 /\ Placement.z pl = 0.
Proof.
  intros Hne.
  set (origin := fun items : list Placement.t =>
    exists pl rest, items = pl :: rest /\
      Placement.x pl = 0 /\ Placement.y pl = 0 /\ Placement.z pl = 0).
  destruct (pack_pallets_invariant orient palet_cfg (fun _ => True)
              (fun p => origin (Pallet.items p))
              (fun c =>
                 (CurrentPallet.items c = [] ->
                  CurrentPallet.free_rects c = [whole_pallet palet_cfg]) /\
                 (CurrentPallet.items c <> [] -> origin (CurrentPallet.items c))))
    with (urunler := urunler) as (pallets & E & HQ).
  - split; [reflexivity | intros H; now elim H].
  - intros cur [_ H] Hitems. simpl. auto.
  - intros ps cur u st' _ [Hempty Horigin] HS.
    destruct HS as [rect [[l w] h] Hw Hr Hd Hf | [[l w] h] Hd Hf
                   | [[l w] h] rest Ho Hnone];
      cbn [snd]; rewrite place_items;
      (split; [intros H; apply app_eq_nil in H as [_ H]; discriminate | intros _]).
    + destruct (CurrentPallet.items cur) as [|a items] eqn:Ei.
      * rewrite (Hempty eq_refl) in Hr. destruct Hr as [<- | []].
        simpl. eexists _, _. split; [reflexivity|]. simpl. auto.
      * destruct Horigin as (pl & rest & Heq & Hx); [discriminate|].
        injection Heq as <- <-. exists a, (items ++ [Placement.mk u
          (FreeRectangle.x rect) (FreeRectangle.y rect) (FreeRectangle.z rect)
          l w h]). split; [reflexivity | exact Hx].
    + simpl. eexists _, _. split; [reflexivity|]. simpl. auto.
    + simpl. eexists _, _. split; [reflexivity|]. simpl. auto.
  - apply Forall_forall. trivial.
  - exact Hne.
  - exists pallets. split; [exact E|].
    intros p Hp. rewrite Forall_forall in HQ. exact (HQ p Hp).
Qed.

Lemma first_placement_at_origin_witness :
  exists pallets,
    pack_maximal_rectangles spec_orientations cfg_100
      [urun_overweight; urun_oversized] = Some pallets /\
    forall p, In p pallets ->
      exists pl rest,
        Pallet.items p = pl :: rest /\
        Placement.x pl = 0 /\ Placement.y pl = 0 /\ Placement.z pl = 0.
Proof.
  apply (first_placement_at_origin spec_orientations cfg_100
           [urun_overweight; urun_oversized]).
  orientations_nonempty.
Defined.

Lemma length_concat_nonempty (pallets : list Pallet.t) :
  Forall (fun p => Pallet.items p <> []) pallets ->
  (List.length pallets <= List.length (concat (map Pallet.items pallets)))%nat.
Proof.
  induction 1 as [|p ps Hp _ IH]; simpl; [lia|].
  rewrite length_app. destruct (Pallet.items p); [congruence | simpl; lia].
Qed.

(** X5: whenever the packer returns, it uses at most one pallet per
    product, and at least one pallet when there is a product. *)
Theorem pallet_count_bounds (orient : UrunData.t -> list Dims)
    (palet_cfg : PaletConfig.t) (urunler : list UrunData.t) :
  (forall u, In u urunler -> orient u <> []) ->
  exists pallets,
    pack_maximal_rectangles orient palet_cfg urunler = Some pallets /\
    (List.length pallets <= List.length urunler)%nat /\
    (urunler <> [] -> pallets <> []).
Proof.
  intros Hne.
  destruct (pack_pallets_invariant orient palet_cfg (fun _ => True)
              (fun p => Pallet.items p <> []) (fun _ => True))
    with (urunler := urunler) as (pallets & E & HQ); auto.
  - apply Forall_forall. trivial.
  - exists pallets. split; [exact E|].
    pose proof (pack_products orient palet_cfg urunler pallets E) as HP.
    split.
    + apply length_concat_nonempty in HQ.
      apply (f_equal (@List.length UrunData.t)) in HP.
      unfold products_of in HP. rewrite length_map in HP. lia.
    + intros Hu ->. apply Hu. now rewrite <- HP.
Qed.

Lemma pallet_count_bounds_witness :
  exists pallets,
    pack_maximal_rectangles spec_orientations cfg_30_20_10
      [urun_cube; urun_bar] = Some pallets /\
    (List.length pallets <= 2)%nat /\
    ([urun_cube; urun_bar] <> [] -> pallets <> []).
Proof.
  apply (pallet_count_bounds spec_orientations cfg_30_20_10
           [urun_cube; urun_bar]).
  orientations_nonempty.
Defined.

Lemma pack_step_None (orient : UrunData.t -> list Dims)
    (palet_cfg : PaletConfig.t) (st : State) (urun : UrunData.t) :
  pack_step orient palet_cfg st urun = None <-> orient urun = [].
Proof.
  split.
  - intros H. destruct (orient urun) as [|d l] eqn:E; [reflexivity|].
    destruct (pack_step_total orient palet_cfg st urun) as [st' E'];
      congruence.
  - intros E. destruct st as [pallets cur]. unfold pack_step. rewrite E.
    destruct (_ >? _); reflexivity.
Qed.

(** X6: the packer raises (on [orientations[0]]) exactly when some product
    of the input has an empty orientation list; the products before it do
    not save the run. *)
Theorem pack_fails_on_empty_orientations (orient : UrunData.t -> list Dims)
    (palet_cfg : PaletConfig.t) (urunler : list UrunData.t) :
  pack_maximal_rectangles orient palet_cfg urunler = None <->
  exists u, In u urunler /\ orient u = [].
Proof.
  unfold pack_maximal_rectangles.
  assert (H : forall st,
             pack_loop orient palet_cfg urunler st = None <->
             exists u, In u urunler /\ orient u = []).
  { induction urunler as [|u rest IH]; intros st; simpl.
    - split; [discriminate | intros (u & [] & _)].
    - destruct (pack_step orient palet_cfg st u) as [st1|] eqn:E.
      + rewrite IH. split.
        * intros (v & Hv & Ev). eauto.
        * intros (v & [<- | Hv] & Ev); [|eauto].
          apply (pack_step_None orient palet_cfg st) in Ev. congruence.
      + split; [|reflexivity]. intros _. exists u. split; [now left|].
        now apply (pack_step_None orient palet_cfg st). }
  destruct (pack_loop orient palet_cfg urunler ([], new_pallet palet_cfg))
    as [[ps cur]|] eqn:E.
  - split; [discriminate|]. intros Hex.
    apply (proj2 (H ([], new_pallet palet_cfg))) in Hex. congruence.
  - split; [|reflexivity]. intros _. now apply (H ([], new_pallet palet_cfg)).
Qed.

Lemma pack_fails_on_empty_orientations_witness :
  pack_maximal_rectangles (fun _ => []) cfg_100 [urun_cube] = None.
Proof.
  apply (proj2 (pack_fails_on_empty_orientations (fun _ => []) cfg_100
                  [urun_cube])).
  exists urun_cube. split; [left; reflexivity | reflexivity].
Defined.

(** X8: the search of the packer over orientations and free rects finds
    nothing exactly when no orientation fits any free rect; otherwise its
    winner is, in the order of the two loops (orientations outside, free
    rects inside), the first fitting pair with the least short-side
    residual.  The search on a fresh pallet is the same search on the single
    rect of that pallet. *)
Theorem packer_search_first_minimal (orientations : list Dims)
    (free_rects : list FreeRectangle.t) :
  (search_current orientations free_rects = None <->
   forall dims rect, In dims orientations -> In rect free_rects ->
     fits rect dims = false) /\
  (forall rect dims s,
     search_current orientations free_rects = Some (rect, dims, s) ->
     s = short_side_of rect dims /\ fits rect dims = true /\
     exists before after,
       candidates orientations free_rects = before ++ (dims, rect) :: after /\
       (forall c, In c before -> fits (snd c) (fst c) = true ->
                  s < short_side_of (snd c) (fst c)) /\
       (forall c, In c after -> fits (snd c) (fst c) = true ->
                  s <= short_side_of (snd c) (fst c))) /\
  (forall rect, search_fresh orientations rect
                = search_current orientations [rect]).
Proof.
  split; [apply search_current_None|]. split.
  - intros rect dims s. apply search_current_first_minimal.
  - intros rect. apply search_fresh_current.
Qed.

Lemma packer_search_first_minimal_witness :
  exists before after,
    candidates (spec_orientations urun_bar) [rect_right; rect_back]
      = before ++ ((20, 10, 10), rect_right) :: after /\
    (forall c, In c before -> fits (snd c) (fst c) = true ->
               0 < short_side_of (snd c) (fst c)) /\
    (forall c, In c after -> fits (snd c) (fst c) = true ->
               0 <= short_side_of (snd c) (fst c)).
Proof.
  destruct (packer_search_first_minimal (spec_orientations urun_bar)
              [rect_right; rect_back]) as (_ & H & _).
  destruct (H rect_right (20, 10, 10) 0 eq_refl) as (_ & _ & Hex).
  exact Hex.
Defined.

Lemma find_best_rectangle_None (free_rects : list FreeRectangle.t)
    (item_l item_w item_h : Z) :
  find_best_rectangle free_rects item_l item_w item_h = None <->
  forall r, In r free_rects -> fits r (item_l, item_w, item_h) = false.
Proof.
  unfold find_best_rectangle.
  pose proof (find_best_rectangle_scan item_l item_w item_h free_rects [] None)
    as H.
  cbv zeta in H. simpl app in H.
  destruct (fold_left _ free_rects None) as [[b m]|]; simpl.
  - destruct H as (_ & Hf & Hin & _); [intros r []|].
    split; [discriminate|]. intros Hall. specialize (Hall b Hin).
    unfold fits in Hall, Hf. congruence.
  - split; [|reflexivity]. intros _. apply H. intros r [].
Qed.

(** X9: [find_best_rectangle] returns [None] exactly when the item fits no
    rect of the list; otherwise it returns a rect of the list that the item
    fits, and every rect the item fits has a larger short-side residual, or
    the same one and a volume residual that is not smaller. *)
Theorem find_best_rectangle_lexicographic (free_rects : list FreeRectangle.t)
    (item_l item_w item_h : Z) :
  let dims := (item_l, item_w, item_h) in
  (find_best_rectangle free_rects item_l item_w item_h = None <->
   forall r, In r free_rects -> fits r dims = false) /\
  (forall best_rect,
     find_best_rectangle free_rects item_l item_w item_h = Some best_rect ->
     In best_rect free_rects /\ fits best_rect dims = true /\
     forall r, In r free_rects -> fits r dims = true ->
       short_side_of best_rect dims < short_side_of r dims \/
       (short_side_of best_rect dims = short_side_of r dims /\
        volume_residual best_rect dims <= volume_residual r dims)).
Proof.
  intros dims. split.
  - apply find_best_rectangle_None.
  - intros best_rect. apply find_best_rectangle_tie_break.
Qed.

Lemma find_best_rectangle_lexicographic_witness :
  short_side_of rect_back (20, 10, 10) < short_side_of rect_right (20, 10, 10) \/
  (short_side_of rect_back (20, 10, 10) = short_side_of rect_right (20, 10, 10) /\
   volume_residual rect_back (20, 10, 10)
     <= volume_residual rect_right (20, 10, 10)).
Proof.
  destruct (find_best_rectangle_lexicographic [rect_right; rect_back] 20 10 10)
    as [_ H].
  destruct (H rect_back eq_refl) as (_ & _ & Hall).
  apply Hall.
  - left. reflexivity.
  - reflexivity.
Defined.

Lemma map_snd_combine_seq {A : Type} (l : list A) (s : nat) :
  map snd (combine (seq s (List.length l)) l) = l.
Proof.
  revert s. induction l as [|a l IH]; intros s; simpl.
  - reflexivity.
  - now rewrite IH.
Qed.

Lemma filter_all {A : Type} (f : A -> bool) (l : list A) :
  (forall a, In a l -> f a = true) -> filter f l = l.
Proof.
  induction l as [|a l IH]; intros H; simpl; [reflexivity|].
  rewrite (H a (or_introl eq_refl)), IH; [reflexivity|].
  intros b Hb. apply H. now right.
Qed.

Lemma remove_redundant_antichain_id (rects : list FreeRectangle.t) :
  antichain rects -> remove_redundant_rectangles rects = rects.
Proof.
  intros Ha. unfold remove_redundant_rectangles.
  rewrite filter_all; [apply map_snd_combine_seq|].
  intros [i r] Hin. apply in_enumerate in Hin. simpl.
  apply negb_true_iff, is_contained_false.
  intros j r2 Hne Hj. apply (Ha i j); auto.
Qed.

(** X10: what [remove_redundant_rectangles] returns is made of rects of
    its argument, none of which lies inside another one at a different
    position; pruning a list in which no rect lies inside another changes
    nothing, so pruning twice is pruning once. *)
Theorem remove_redundant_rectangles_idempotent (rects : list FreeRectangle.t) :
  (forall r, In r (remove_redundant_rectangles rects) -> In r rects) /\
  antichain (remove_redundant_rectangles rects) /\
  (antichain rects -> remove_redundant_rectangles rects = rects) /\
  remove_redundant_rectangles (remove_redundant_rectangles rects)
    = remove_redundant_rectangles rects.
Proof.
  split; [apply remove_redundant_incl|].
  split; [apply remove_redundant_antichain|].
  split; [apply remove_redundant_antichain_id|].
  apply remove_redundant_antichain_id, remove_redundant_antichain.
Qed.

Lemma remove_redundant_rectangles_idempotent_witness :
  remove_redundant_rectangles [rect_right; rect_back] = [rect_right; rect_back].
Proof.
  destruct (remove_redundant_rectangles_idempotent [rect_right; rect_back])
    as (_ & _ & H & _).
  apply H. intros i j r1 r2 Hne H1 H2.
  destruct i as [|[|i]], j as [|[|j]]; simpl in H1, H2;
    try (destruct i; discriminate); try (destruct j; discriminate);
    try congruence;
    injection H1 as <-; injection H2 as <-; reflexivity.
Defined.



(* ================================================================== *)
(** ** The shelf packer: one iteration                                 *)
(* ================================================================== *)

Lemma py_index_In {A : Type} (l : list A) (i : Z) (a : A) :
  py_index l i = Some a -> In a l.
Proof.
  unfold py_index. destruct (0 <=? i); [apply nth_error_In|].
  destruct (0 <=? _); [apply nth_error_In | discriminate].
Qed.

(** Unfolds one iteration of the shelf packer into its branches. *)
Ltac shelf_unfold :=
  unfold shelf_put, shelf_height_check, shelf_wrap_y, shelf_wrap_x,
    shelf_weight_check, shelf_close;
  repeat match goal with
         | |- context [Z.gtb ?a ?b] =>
             let E := fresh "E" in
             destruct (Z.gtb a b) eqn:E;
             cbn [ShelfState.pallets ShelfState.current_items ShelfState.x
                  ShelfState.y ShelfState.z ShelfState.current_weight
                  ShelfState.current_shelf_height ShelfState.current_shelf_y]
               in *
         end.

Lemma shelf_step_Some (orient : UrunData.t -> list Dims) (rot_gen : list Z)
    (palet_cfg : PaletConfig.t) (st st' : ShelfState.t) (idx : nat)
    (urun : UrunData.t) :
  shelf_step orient rot_gen palet_cfg st idx urun = Some st' ->
  exists u_l u_w u_h,
    chosen_orientation orient rot_gen idx urun = Some (u_l, u_w, u_h) /\
    st' = shelf_put urun u_l u_w u_h
            (shelf_height_check palet_cfg u_h
               (shelf_wrap_y palet_cfg u_w u_h
                  (shelf_wrap_x palet_cfg u_l u_w
                     (shelf_weight_check palet_cfg (UrunData.agirlik urun) st)))).
Proof.
  unfold shelf_step, chosen_orientation.
  destruct (py_index _ _) as [[[u_l u_w] u_h]|]; [|discriminate].
  intros H. injection H as <-. eauto.
Qed.

Lemma shelf_step_None (orient : UrunData.t -> list Dims) (rot_gen : list Z)
    (palet_cfg : PaletConfig.t) (st : ShelfState.t) (idx : nat)
    (urun : UrunData.t) :
  shelf_step orient rot_gen palet_cfg st idx urun = None <->
  chosen_orientation orient rot_gen idx urun = None.
Proof.
  unfold shelf_step, chosen_orientation.
  destruct (py_index _ _) as [[[u_l u_w] u_h]|]; split;
    (discriminate || reflexivity).
Qed.

Lemma shelf_put_placed (palet_cfg : PaletConfig.t) (urun : UrunData.t)
    (u_l u_w u_h u_wgt : Z) (st : ShelfState.t) :
  map oriented
    (shelf_placed
       (shelf_put urun u_l u_w u_h
          (shelf_height_check palet_cfg u_h
             (shelf_wrap_y palet_cfg u_w u_h
                (shelf_wrap_x palet_cfg u_l u_w
                   (shelf_weight_check palet_cfg u_wgt st)))))) =
  map oriented (shelf_placed st) ++ [(urun, Some (u_l, u_w, u_h))].
Proof.
  unfold shelf_placed. shelf_unfold;
    rewrite ?map_app, ?concat_app; simpl;
    rewrite ?app_nil_r, ?map_app, <- ?app_assoc; reflexivity.
Qed.

Lemma chosen_orientation_cases (orient : UrunData.t -> list Dims)
    (rot_gen : list Z) (idx : nat) (urun : UrunData.t) :
  let dims := orient urun in
  let n := Z.of_nat (List.length dims) in
  match nth_error rot_gen idx with
  | None => chosen_orientation orient rot_gen idx urun = nth_error dims 0
  | Some gene =>
      (n <= gene ->
       chosen_orientation orient rot_gen idx urun = nth_error dims 0) /\
      (0 <= gene < n ->
       chosen_orientation orient rot_gen idx urun
         = nth_error dims (Z.to_nat gene)) /\
      (- n <= gene < 0 ->
       chosen_orientation orient rot_gen idx urun
         = nth_error dims (Z.to_nat (n + gene))) /\
      (gene < - n -> chosen_orientation orient rot_gen idx urun = None)
  end.
Proof.
  intros dims n. unfold chosen_orientation, shelf_rotation, py_index.
  fold dims. fold n.
  destruct (nth_error rot_gen idx) as [gene|].
  - destruct (Z.geb_spec gene n) as [Hge | Hlt].
    + repeat split; intros; try lia; reflexivity.
    + destruct (Z.leb_spec 0 gene) as [H0 | H0].
      * repeat split; intros; try lia; reflexivity.
      * destruct (Z.leb_spec 0 (n + gene)); repeat split; intros;
          try lia; reflexivity.
  - destruct (Z.geb_spec 0 n); reflexivity.
Qed.

Lemma chosen_orientation_None (orient : UrunData.t -> list Dims)
    (rot_gen : list Z) (idx : nat) (urun : UrunData.t) :
  chosen_orientation orient rot_gen idx urun = None <->
  orient urun = [] \/
  exists gene, nth_error rot_gen idx = Some gene /\
               gene < - Z.of_nat (List.length (orient urun)).
Proof.
  pose proof (chosen_orientation_cases orient rot_gen idx urun) as H.
  cbv zeta in H.
  assert (Hhd : nth_error (orient urun) 0 = None <-> orient urun = []).
  { destruct (orient urun); simpl; split; congruence. }
  assert (Hlen : orient urun = [] -> Z.of_nat (List.length (orient urun)) = 0)
    by (intros ->; reflexivity).
  destruct (nth_error rot_gen idx) as [gene|].
  - destruct H as (H1 & H2 & H3 & H4).
    set (n := Z.of_nat (List.length (orient urun))) in *.
    destruct (Z_lt_le_dec gene (- n)) as [Hlow | Hlow].
    { rewrite (H4 Hlow). split; [intros _ | reflexivity]. right. eauto. }
    destruct (Z_lt_le_dec gene 0) as [Hneg | Hpos].
    { rewrite H3 by lia. rewrite nth_error_None. split.
      - intros Hn. exfalso. unfold n in *. lia.
      - intros [He | (g & Eg & Hg)].
        + specialize (Hlen He). fold n in Hlen. lia.
        + injection Eg as <-. lia. }
    destruct (Z_lt_le_dec gene n) as [Hin | Hout].
    { rewrite H2 by lia. rewrite nth_error_None. split.
      - intros Hn. exfalso. unfold n in *. lia.
      - intros [He | (g & Eg & Hg)].
        + specialize (Hlen He). fold n in Hlen. lia.
        + injection Eg as <-. lia. }
    rewrite (H1 Hout), Hhd. split; [auto|].
    intros [He | (g & Eg & Hg)]; [exact He|]. injection Eg as <-. lia.
  - rewrite H, Hhd. split; [auto|].
    intros [He | (g & Eg & _)]; [exact He | discriminate].
Qed.

(* ================================================================== *)
(** ** The shelf packer: the loop                                      *)
(* ================================================================== *)

Lemma shelf_loop_placed (orient : UrunData.t -> list Dims) (rot_gen : list Z)
    (palet_cfg : PaletConfig.t) (urunler : list UrunData.t) (idx : nat)
    (st st' : ShelfState.t) :
  shelf_loop orient rot_gen palet_cfg idx urunler st = Some st' ->
  map oriented (shelf_placed st') =
  map oriented (shelf_placed st) ++
  map (fun iu : nat * UrunData.t =>
         (snd iu, chosen_orientation orient rot_gen (fst iu) (snd iu)))
      (combine (seq idx (List.length urunler)) urunler).
Proof.
  revert idx st. induction urunler as [|u rest IH]; intros idx st; simpl.
  - intros H. injection H as <-. now rewrite app_nil_r.
  - destruct (shelf_step orient rot_gen palet_cfg st idx u) as [st1|] eqn:E;
      [|discriminate].
    intros H. rewrite (IH _ _ H).
    apply shelf_step_Some in E as (u_l & u_w & u_h & Ec & ->).
    rewrite shelf_put_placed, Ec, <- app_assoc. reflexivity.
Qed.

Lemma shelf_loop_None (orient : UrunData.t -> list Dims) (rot_gen : list Z)
    (palet_cfg : PaletConfig.t) (urunler : list UrunData.t) (idx : nat)
    (st : ShelfState.t) :
  shelf_loop orient rot_gen palet_cfg idx urunler st = None <->
  exists k u, nth_error urunler k = Some u /\
              chosen_orientation orient rot_gen (idx + k) u = None.
Proof.
  revert idx st. induction urunler as [|u rest IH]; intros idx st; simpl.
  - split; [discriminate | intros (k & v & H & _); destruct k; discriminate].
  - destruct (shelf_step orient rot_gen palet_cfg st idx u) as [st1|] eqn:E.
    + rewrite IH. split.
      * intros (k & v & Hk & Hc). exists (S k), v. split; [exact Hk|].
        now rewrite Nat.add_succ_r.
      * intros ([|k] & v & Hk & Hc).
        -- simpl in Hk. injection Hk as <-. rewrite Nat.add_0_r in Hc.
           apply (shelf_step_None orient rot_gen palet_cfg st) in Hc.
           congruence.
        -- exists k, v. split; [exact Hk|]. now rewrite Nat.add_succ_r in Hc.
    + split; [|reflexivity]. intros _. exists 0%nat, u.
      split; [reflexivity|]. rewrite Nat.add_0_r.
      now apply (shelf_step_None orient rot_gen palet_cfg st).
Qed.

Lemma pack_shelf_based_result (orient : UrunData.t -> list Dims)
    (rot_gen : list Z) (palet_cfg : PaletConfig.t)
    (urunler : list UrunData.t) (pallets : list Pallet.t) :
  pack_shelf_based orient rot_gen palet_cfg urunler = Some pallets ->
  exists st,
    shelf_loop orient rot_gen palet_cfg 0 urunler shelf_initial = Some st /\
    concat (map Pallet.items pallets) = shelf_placed st /\
    forall p, In p pallets -> In p (shelf_all_pallets st).
Proof.
  unfold pack_shelf_based. fold shelf_initial.
  destruct (shelf_loop orient rot_gen palet_cfg 0 urunler shelf_initial)
    as [st|]; [|discriminate].
  intros H. injection H as <-. exists st. split; [reflexivity|].
  unfold shelf_placed, shelf_all_pallets.
  destruct (ShelfState.current_items st) as [|a l] eqn:Ei.
  - rewrite app_nil_r. split; [reflexivity|].
    intros p Hp. apply in_or_app. now left.
  - rewrite map_app, concat_app. simpl. rewrite app_nil_r.
    split; [reflexivity|]. intros p Hp. exact Hp.
Qed.

Lemma shelf_loop_invariant (orient : UrunData.t -> list Dims)
    (rot_gen : list Z) (palet_cfg : PaletConfig.t)
    (good : UrunData.t -> Dims -> Prop) (I : ShelfState.t -> Prop) :
  (forall st u u_l u_w u_h,
     good u (u_l, u_w, u_h) -> I st ->
     I (shelf_put u u_l u_w u_h
          (shelf_height_check palet_cfg u_h
             (shelf_wrap_y palet_cfg u_w u_h
                (shelf_wrap_x palet_cfg u_l u_w
                   (shelf_weight_check palet_cfg (UrunData.agirlik u) st)))))) ->
  forall urunler idx st st',
    (forall u d, In u urunler -> In d (orient u) -> good u d) ->
    I st ->
    shelf_loop orient rot_gen palet_cfg idx urunler st = Some st' -> I st'.
Proof.
  intros Hstep. induction urunler as [|u rest IH]; intros idx st st' Hgood HI;
    simpl.
  - intros H. now injection H as <-.
  - destruct (shelf_step orient rot_gen palet_cfg st idx u) as [st1|] eqn:E;
      [|discriminate].
    apply shelf_step_Some in E as (u_l & u_w & u_h & Ec & ->).
    apply IH.
    + intros v d Hv Hd. apply Hgood; [now right | exact Hd].
    + apply Hstep; [|exact HI]. apply Hgood; [now left|].
      eapply py_index_In. exact Ec.
Qed.

(** The separation invariant through the blocks of an iteration. *)
Lemma shelf_separation_close (st : ShelfState.t) :
  shelf_separation_inv st -> shelf_separation_inv (shelf_close st).
Proof.
  intros (Hsh & Hsy & Hps & Hsep & Hcls).
  unfold shelf_separation_inv, shelf_close. simpl.
  split; [lia|]. split; [lia|]. split.
  - apply Forall_app. split; [exact Hps|]. constructor; [exact Hsep|constructor].
  - split; [apply pairwise_separated_nil | intros a []].
Qed.

Lemma shelf_separation_wrap_x (palet_cfg : PaletConfig.t) (u_l u_w : Z)
    (st : ShelfState.t) :
  0 <= u_w ->
  shelf_separation_inv st ->
  shelf_separation_inv (shelf_wrap_x palet_cfg u_l u_w st).
Proof.
  intros Hw (Hsh & Hsy & Hps & Hsep & Hcls). unfold shelf_wrap_x.
  destruct (_ >? PaletConfig.length palet_cfg); [|repeat split; assumption].
  unfold shelf_separation_inv, shelf_item_behind in *. simpl.
  split; [lia|]. split; [lia|]. split; [exact Hps|]. split; [exact Hsep|].
  intros a Ha. specialize (Hcls a Ha).
  destruct (ShelfState.current_shelf_y st >? 0) eqn:E;
    rewrite ?Z.gtb_ltb, ?Z.ltb_lt, ?Z.ltb_ge in E; lia.
Qed.

Lemma shelf_separation_wrap_y (palet_cfg : PaletConfig.t) (u_w u_h : Z)
    (st : ShelfState.t) :
  0 <= u_h ->
  shelf_separation_inv st ->
  shelf_separation_inv (shelf_wrap_y palet_cfg u_w u_h st).
Proof.
  intros Hh (Hsh & Hsy & Hps & Hsep & Hcls). unfold shelf_wrap_y.
  destruct (_ >? PaletConfig.width palet_cfg); [|repeat split; assumption].
  unfold shelf_separation_inv, shelf_item_behind in *. simpl.
  split; [lia|]. split; [lia|]. split; [exact Hps|]. split; [exact Hsep|].
  intros a Ha. specialize (Hcls a Ha).
  destruct (ShelfState.current_shelf_height st >? 0) eqn:E;
    rewrite ?Z.gtb_ltb, ?Z.ltb_lt, ?Z.ltb_ge in E; lia.
Qed.

Lemma shelf_separation_put (u : UrunData.t) (u_l u_w u_h : Z)
    (st : ShelfState.t) :
  0 <= u_l ->
  shelf_separation_inv st ->
  shelf_separation_inv (shelf_put u u_l u_w u_h st).
Proof.
  intros Hl (Hsh & Hsy & Hps & Hsep & Hcls).
  unfold shelf_separation_inv, shelf_item_behind, shelf_put in *. simpl.
  destruct (u_h >? ShelfState.current_shelf_height st) eqn:E1;
    destruct (u_w >? ShelfState.current_shelf_y st) eqn:E2;
    rewrite ?Z.gtb_ltb, ?Z.ltb_lt, ?Z.ltb_ge in E1, E2;
    (split; [lia|]); (split; [lia|]); (split; [exact Hps|]);
    (split;
     [ apply pairwise_separated_snoc; [exact Hsep|];
       intros a Ha; specialize (Hcls a Ha); unfold separated; simpl; lia
     | intros a Ha; apply in_app_iff in Ha;
       destruct Ha as [Ha | [<- | []]];
       [ specialize (Hcls a Ha); lia | simpl; lia ] ]).
Qed.

Lemma shelf_separation_step (palet_cfg : PaletConfig.t) (st : ShelfState.t)
    (u : UrunData.t) (u_l u_w u_h : Z) :
  0 <= u_l -> 0 <= u_w -> 0 <= u_h ->
  shelf_separation_inv st ->
  shelf_separation_inv
    (shelf_put u u_l u_w u_h
       (shelf_height_check palet_cfg u_h
          (shelf_wrap_y palet_cfg u_w u_h
             (shelf_wrap_x palet_cfg u_l u_w
                (shelf_weight_check palet_cfg (UrunData.agirlik u) st))))).
Proof.
  intros Hl Hw Hh HI.
  apply shelf_separation_put; [exact Hl|].
  unfold shelf_height_check.
  match goal with |- context [if ?b then _ else _] => destruct b end;
    [apply shelf_separation_close|];
    apply shelf_separation_wrap_y; try exact Hh;
    apply shelf_separation_wrap_x; try exact Hw;
    unfold shelf_weight_check;
    match goal with |- context [if ?b then _ else _] => destruct b end;
    try apply shelf_separation_close; exact HI.
Qed.

(** The bounds invariant through the blocks of an iteration: after the
    three checks the cursor leaves room for the item on every axis. *)
Lemma shelf_bounds_close (palet_cfg : PaletConfig.t) (st : ShelfState.t) :
  shelf_bounds_inv palet_cfg st -> shelf_bounds_inv palet_cfg (shelf_close st).
Proof.
  intros (Hx & Hy & Hz & Hps & Hin).
  unfold shelf_bounds_inv, shelf_close. simpl.
  repeat (split; [lia|]). split.
  - apply Forall_app. split; [exact Hps|]. constructor; [exact Hin|constructor].
  - intros pl [].
Qed.

Lemma shelf_bounds_checks (palet_cfg : PaletConfig.t) (st : ShelfState.t)
    (u_wgt u_l u_w u_h : Z) :
  0 <= u_l <= PaletConfig.length palet_cfg ->
  0 <= u_w <= PaletConfig.width palet_cfg ->
  0 <= u_h <= PaletConfig.height palet_cfg ->
  shelf_bounds_inv palet_cfg st ->
  let st4 := shelf_height_check palet_cfg u_h
               (shelf_wrap_y palet_cfg u_w u_h
                  (shelf_wrap_x palet_cfg u_l u_w
                     (shelf_weight_check palet_cfg u_wgt st))) in
  shelf_bounds_inv palet_cfg st4 /\
  ShelfState.x st4 + u_l <= PaletConfig.length palet_cfg /\
  ShelfState.y st4 + u_w <= PaletConfig.width palet_cfg /\
  ShelfState.z st4 + u_h <= PaletConfig.height palet_cfg.
Proof.
  intros Hl Hw Hh HI.
  set (st1 := shelf_weight_check palet_cfg u_wgt st).
  assert (H1 : shelf_bounds_inv palet_cfg st1).
  { unfold st1, shelf_weight_check.
    destruct (_ >? _); [now apply shelf_bounds_close | exact HI]. }
  set (st2 := shelf_wrap_x palet_cfg u_l u_w st1).
  assert (H2 : shelf_bounds_inv palet_cfg st2 /\
               ShelfState.x st2 + u_l <= PaletConfig.length palet_cfg).
  { destruct H1 as (Hx & Hy & Hz & Hps & Hin).
    unfold st2, shelf_wrap_x, shelf_bounds_inv.
    destruct (ShelfState.x st1 + u_l >? PaletConfig.length palet_cfg) eqn:E;
      rewrite Z.gtb_ltb in E; [apply Z.ltb_lt in E | apply Z.ltb_ge in E];
      simpl.
    - destruct (ShelfState.current_shelf_y st1 >? 0) eqn:E';
        rewrite Z.gtb_ltb in E'; [apply Z.ltb_lt in E' | apply Z.ltb_ge in E'];
        (split; [repeat (split; [lia|]); split; assumption | lia]).
    - split; [repeat (split; [lia|]); split; assumption | lia]. }
  destruct H2 as [H2 H2x].
  set (st3 := shelf_wrap_y palet_cfg u_w u_h st2) in *.
  assert (H3 : shelf_bounds_inv palet_cfg st3 /\
               ShelfState.x st3 + u_l <= PaletConfig.length palet_cfg /\
               ShelfState.y st3 + u_w <= PaletConfig.width palet_cfg).
  { destruct H2 as (Hx & Hy & Hz & Hps & Hin).
    unfold st3, shelf_wrap_y, shelf_bounds_inv.
    destruct (ShelfState.y st2 + u_w >? PaletConfig.width palet_cfg) eqn:E;
      rewrite Z.gtb_ltb in E; [apply Z.ltb_lt in E | apply Z.ltb_ge in E];
      simpl.
    - destruct (ShelfState.current_shelf_height st2 >? 0) eqn:E';
        rewrite Z.gtb_ltb in E'; [apply Z.ltb_lt in E' | apply Z.ltb_ge in E'];
        (split; [repeat (split; [lia|]); split; assumption | lia]).
    - split; [repeat (split; [lia|]); split; assumption | lia]. }
  destruct H3 as (H3 & H3x & H3y).
  cbv zeta. fold st1. fold st2. fold st3.
  unfold shelf_height_check.
  destruct (ShelfState.z st3 + u_h >? PaletConfig.height palet_cfg) eqn:E;
    rewrite Z.gtb_ltb in E; [apply Z.ltb_lt in E | apply Z.ltb_ge in E].
  - split; [now apply shelf_bounds_close|]. simpl. lia.
  - split; [exact H3|]. lia.
Qed.

Lemma shelf_bounds_step (palet_cfg : PaletConfig.t) (st : ShelfState.t)
    (u : UrunData.t) (u_l u_w u_h : Z) :
  0 <= u_l <= PaletConfig.length palet_cfg ->
  0 <= u_w <= PaletConfig.width palet_cfg ->
  0 <= u_h <= PaletConfig.height palet_cfg ->
  shelf_bounds_inv palet_cfg st ->
  shelf_bounds_inv palet_cfg
    (shelf_put u u_l u_w u_h
       (shelf_height_check palet_cfg u_h
          (shelf_wrap_y palet_cfg u_w u_h
             (shelf_wrap_x palet_cfg u_l u_w
                (shelf_weight_check palet_cfg (UrunData.agirlik u) st))))).
Proof.
  intros Hl Hw Hh HI.
  destruct (shelf_bounds_checks palet_cfg st (UrunData.agirlik u) u_l u_w u_h
              Hl Hw Hh HI) as ((Hx & Hy & Hz & Hps & Hin) & Hxl & Hyw & Hzh).
  set (st4 := shelf_height_check _ _ _) in *.
  unfold shelf_bounds_inv, shelf_put. simpl.
  repeat (split; [lia|]). split; [exact Hps|].
  intros pl Hpl. apply in_app_iff in Hpl as [Hpl | [<- | []]]; [auto|].
  unfold in_bounds. simpl. lia.
Qed.

(* ================================================================== *)
(** ** Properties of the shelf packer                                  *)
(* ================================================================== *)

Lemma In_shelf_all_pallets (P : Pallet.t -> Prop) (st : ShelfState.t)
    (p : Pallet.t) :
  Forall P (ShelfState.pallets st) ->
  P (Pallet.mk (ShelfState.current_items st) (ShelfState.current_weight st)) ->
  In p (shelf_all_pallets st) -> P p.
Proof.
  intros HF Ho Hin. unfold shelf_all_pallets in Hin.
  apply in_app_iff in Hin as [Hin | [<- | []]]; [|exact Ho].
  rewrite Forall_forall in HF. auto.
Qed.

(** X12: when [pack_shelf_based] returns, the placements of the returned
    pallets, read pallet after pallet, are the input products in the input
    order, the product at position [idx] carrying the orientation
    [dims[r]] that its rotation gene selects. *)
Theorem shelf_keeps_order_and_orientations (orient : UrunData.t -> list Dims)
    (rot_gen : list Z) (palet_cfg : PaletConfig.t)
    (urunler : list UrunData.t) (pallets : list Pallet.t) :
  pack_shelf_based orient rot_gen palet_cfg urunler = Some pallets ->
  map oriented (concat (map Pallet.items pallets)) =
    map (fun iu : nat * UrunData.t =>
           (snd iu, chosen_orientation orient rot_gen (fst iu) (snd iu)))
        (enumerate urunler) /\
  products_of pallets = urunler.
Proof.
  intros H. apply pack_shelf_based_result in H as (st & Hrun & Hflat & _).
  apply shelf_loop_placed in Hrun. rewrite <- Hflat in Hrun. simpl in Hrun.
  split; [exact Hrun|].
  unfold products_of.
  transitivity (map fst (map oriented (concat (map Pallet.items pallets)))).
  - rewrite map_map. apply map_ext. reflexivity.
  - rewrite Hrun, map_map. exact (map_snd_combine_seq urunler 0).
Qed.

Lemma shelf_keeps_order_and_orientations_witness :
  products_of
    [Pallet.mk [Placement.mk urun_cube 0 0 0 10 10 10;
                Placement.mk urun_bar 10 0 0 10 20 10] 2]
  = [urun_cube; urun_bar].
Proof.
  exact (proj2 (shelf_keeps_order_and_orientations spec_orientations [0; 1]
                  cfg_30_20_10 [urun_cube; urun_bar] _ eq_refl)).
Defined.

(** X13: [pack_shelf_based] raises (on [dims[r]]) exactly when some
    product has an empty orientation list or a rotation gene below minus
    the number of its orientations. *)
Theorem shelf_fails_on_bad_gene (orient : UrunData.t -> list Dims)
    (rot_gen : list Z) (palet_cfg : PaletConfig.t)
    (urunler : list UrunData.t) :
  pack_shelf_based orient rot_gen palet_cfg urunler = None <->
  exists idx u,
    nth_error urunler idx = Some u /\
    (orient u = [] \/
     exists gene, nth_error rot_gen idx = Some gene /\
                  gene < - Z.of_nat (List.length (orient u))).
Proof.
  unfold pack_shelf_based.
  pose proof (shelf_loop_None orient rot_gen palet_cfg urunler 0
                (ShelfState.mk [] [] 0 0 0 0 0 0)) as H.
  destruct (shelf_loop orient rot_gen palet_cfg 0 urunler _) as [st|].
  - split; [discriminate|]. intros (idx & u & Hn & Hc).
    assert (@None ShelfState.t = None) as E by reflexivity.
    enough (Some st = None) by discriminate. apply H.
    exists idx, u. split; [exact Hn|]. simpl.
    now apply chosen_orientation_None.
  - split; [|reflexivity]. intros _.
    destruct (proj1 H eq_refl) as (idx & u & Hn & Hc).
    exists idx, u. split; [exact Hn|]. simpl in Hc.
    now apply chosen_orientation_None.
Qed.

Lemma shelf_fails_on_bad_gene_witness :
  pack_shelf_based spec_orientations [0; -3] cfg_30_20_10
    [urun_cube; urun_bar] = None.
Proof.
  apply (proj2 (shelf_fails_on_bad_gene spec_orientations [0; -3]
                  cfg_30_20_10 [urun_cube; urun_bar])).
  exists 1%nat, urun_bar. split; [reflexivity|].
  right. exists (-3). split; [reflexivity|]. vm_compute. reflexivity.
Defined.

(** X14: the orientation [pack_shelf_based] reads for the product at
    position [idx].  Without a gene at [idx], or with a gene at or beyond
    the number of orientations, it is the first orientation; a gene in range
    selects its orientation; a negative gene counts from the end of the
    list, as Python indexes, and below minus the length nothing is read. *)
Theorem shelf_gene_selects_orientation (orient : UrunData.t -> list Dims)
    (rot_gen : list Z) (idx : nat) (urun : UrunData.t) :
  let dims := orient urun in
  let n := Z.of_nat (List.length dims) in
  (nth_error rot_gen idx = None ->
   chosen_orientation orient rot_gen idx urun = nth_error dims 0) /\
  (forall gene, nth_error rot_gen idx = Some gene ->
     (n <= gene ->
      chosen_orientation orient rot_gen idx urun = nth_error dims 0) /\
     (0 <= gene < n ->
      chosen_orientation orient rot_gen idx urun
        = nth_error dims (Z.to_nat gene)) /\
     (- n <= gene < 0 ->
      chosen_orientation orient rot_gen idx urun
        = nth_error dims (Z.to_nat (n + gene))) /\
     (gene < - n -> chosen_orientation orient rot_gen idx urun = None)).
Proof.
  intros dims n.
  pose proof (chosen_orientation_cases orient rot_gen idx urun) as H.
  cbv zeta in H. fold dims in H. fold n in H.
  destruct (nth_error rot_gen idx) as [g|].
  - split; [discriminate|]. intros gene E. injection E as <-. exact H.
  - split; [intros _; exact H | discriminate].
Qed.

Lemma shelf_gene_selects_orientation_witness :
  chosen_orientation spec_orientations [0; -1] 1 urun_bar = Some (10, 20, 10).
Proof.
  pose proof (shelf_gene_selects_orientation spec_orientations [0; -1] 1
                urun_bar) as H.
  cbv zeta in H. destruct H as [_ H].
  destruct (H (-1) eq_refl) as (_ & _ & Hneg & _).
  rewrite Hneg; [reflexivity|]. vm_compute. split; [discriminate | reflexivity].
Defined.

Lemma shelf_pallets_prefix (palet_cfg : PaletConfig.t) (st : ShelfState.t)
    (u : UrunData.t) (u_l u_w u_h : Z) (p0 : Pallet.t) :
  let I (s : ShelfState.t) :=
    exists ps, ShelfState.pallets s = p0 :: ps in
  I st ->
  I (shelf_put u u_l u_w u_h
       (shelf_height_check palet_cfg u_h
          (shelf_wrap_y palet_cfg u_w u_h
             (shelf_wrap_x palet_cfg u_l u_w
                (shelf_weight_check palet_cfg (UrunData.agirlik u) st))))).
Proof.
  intros I [ps Hps]. unfold I.
  shelf_unfold; rewrite Hps; simpl; eauto.
Qed.

(** X16: unlike the maximal-rectangles packer, [pack_shelf_based] closes
    the open pallet without looking whether it has items: when it returns
    on an input whose first product weighs more than [max_weight], the
    first returned pallet has no item. *)
Theorem shelf_emits_empty_pallet (orient : UrunData.t -> list Dims)
    (rot_gen : list Z) (palet_cfg : PaletConfig.t) (urun : UrunData.t)
    (rest : list UrunData.t) (pallets : list Pallet.t) :
  UrunData.agirlik urun > PaletConfig.max_weight palet_cfg ->
  pack_shelf_based orient rot_gen palet_cfg (urun :: rest) = Some pallets ->
  exists others, pallets = Pallet.mk [] 0 :: others.
Proof.
  intros Hw. unfold pack_shelf_based. simpl.
  destruct (shelf_step orient rot_gen palet_cfg _ 0 urun) as [st1|] eqn:E1;
    [|discriminate].
  destruct (shelf_loop orient rot_gen palet_cfg 1 rest st1) as [st|] eqn:E;
    [|discriminate].
  intros H. injection H as <-.
  assert (H1 : exists ps, ShelfState.pallets st1 = Pallet.mk [] 0 :: ps).
  { apply shelf_step_Some in E1 as (u_l & u_w & u_h & _ & ->).
    unfold shelf_weight_check. simpl.
    replace (UrunData.agirlik urun >? PaletConfig.max_weight palet_cfg)
      with true by (symmetry; rewrite Z.gtb_ltb; apply Z.ltb_lt; lia).
    shelf_unfold; simpl; eauto. }
  assert (HI : exists ps, ShelfState.pallets st = Pallet.mk [] 0 :: ps).
  { revert E.
    apply (shelf_loop_invariant orient rot_gen palet_cfg (fun _ _ => True)
             (fun s => exists ps, ShelfState.pallets s = Pallet.mk [] 0 :: ps));
      auto.
    intros s u u_l u_w u_h _ HI. now apply shelf_pallets_prefix. }
  destruct HI as [ps Hps]. rewrite Hps.
  destruct (ShelfState.current_items st); simpl; eauto.
Qed.

Lemma shelf_emits_empty_pallet_witness :
  exists others,
    [Pallet.mk [] 0; Pallet.mk [Placement.mk urun_overweight 0 0 0 50 50 50] 1500]
    = Pallet.mk [] 0 :: others.
Proof.
  apply (shelf_emits_empty_pallet spec_orientations [] cfg_100
           urun_overweight []).
  - reflexivity.
  - reflexivity.
Defined.

(** X19: [basit_palet_paketleme] returns, or raises, as [pack_shelf_based]
    does on the two halves of the chromosome; when it returns there is one
    result per shelf pallet, in order, with the same weight and the same
    placements, so the products of the placements read in order are the
    products of the chromosome. *)
Theorem basit_palet_paketleme_copies (orient : UrunData.t -> list Dims)
    (urunler : list UrunData.t) (rotations : list Z)
    (palet_cfg : PaletConfig.t) :
  match pack_shelf_based orient rotations palet_cfg urunler with
  | None => basit_palet_paketleme orient (urunler, rotations) palet_cfg = None
  | Some pallets =>
      exists result,
        basit_palet_paketleme orient (urunler, rotations) palet_cfg
          = Some result /\
        map PlacedPallet.placements result = map Pallet.items pallets /\
        map PlacedPallet.weight result = map Pallet.weight pallets /\
        map Placement.urun (concat (map PlacedPallet.placements result))
          = urunler
  end.
Proof.
  unfold basit_palet_paketleme.
  destruct (pack_shelf_based orient rotations palet_cfg urunler)
    as [pallets|] eqn:E; [|reflexivity].
  eexists. split; [reflexivity|].
  assert (Hitems :
    map PlacedPallet.placements
      (map (fun pallet =>
              PlacedPallet.mk
                (map (fun item =>
                        Placement.mk (Placement.urun item)
                          (Placement.x item) (Placement.y item)
                          (Placement.z item) (Placement.L item)
                          (Placement.W item) (Placement.H item))
                     (Pallet.items pallet))
                (Pallet.weight pallet)) pallets)
    = map Pallet.items pallets).
  { rewrite map_map. apply map_ext. intros p. simpl.
    rewrite <- (map_id (Pallet.items p)) at 2. apply map_ext.
    intros [u x y z l w h]. reflexivity. }
  split; [exact Hitems|]. split.
  - rewrite map_map. reflexivity.
  - rewrite Hitems.
    apply pack_shelf_based_result in E as (st & Hrun & Hflat & _).
    apply shelf_loop_placed in Hrun. rewrite <- Hflat in Hrun. simpl in Hrun.
    transitivity (map fst (map oriented (concat (map Pallet.items pallets)))).
    + rewrite map_map. apply map_ext. reflexivity.
    + rewrite Hrun, map_map. exact (map_snd_combine_seq urunler 0).
Qed.

(* ================================================================== *)
(** ** Packing in the order of a chromosome                            *)
(* ================================================================== *)

Lemma py_index_of_nat {A : Type} (l : list A) (n : nat) :
  py_index l (Z.of_nat n) = nth_error l n.
Proof.
  unfold py_index. destruct (Z.leb_spec 0 (Z.of_nat n)); [|lia].
  now rewrite Nat2Z.id.
Qed.

Lemma siralanmis_urunler_in_range (urunler : list UrunData.t) (ns : list nat) :
  (forall n, In n ns -> (n < List.length urunler)%nat) ->
  exists l, siralanmis_urunler urunler (map Z.of_nat ns) = Some l /\
            map Some l = map (nth_error urunler) ns.
Proof.
  induction ns as [|n ns IH]; intros Hr; simpl.
  - exists []. auto.
  - rewrite py_index_of_nat.
    destruct (nth_error urunler n) as [u|] eqn:E.
    + destruct IH as (l & -> & Hl); [intros m Hm; apply Hr; now right|].
      exists (u :: l). simpl. now rewrite Hl.
    + apply nth_error_None in E. specialize (Hr n (or_introl eq_refl)). lia.
Qed.

Lemma map_nth_error_seq {A : Type} (pre l : list A) :
  map (nth_error (pre ++ l)) (seq (List.length pre) (List.length l))
  = map Some l.
Proof.
  revert pre. induction l as [|a l IH]; intros pre; simpl; [reflexivity|].
  rewrite nth_error_app2, Nat.sub_diag by lia. simpl. f_equal.
  specialize (IH (pre ++ [a])).
  rewrite <- app_assoc, length_app in IH. simpl in IH.
  now rewrite Nat.add_1_r in IH.
Qed.

Lemma map_Some_inj {A : Type} (a b : list A) :
  map Some a = map Some b -> a = b.
Proof.
  revert b. induction a as [|x a IH]; intros [|y b] H; simpl in H;
    try discriminate; [reflexivity|].
  injection H as -> H. f_equal. auto.
Qed.

(** X20: when [sira_gen] is a permutation of the indices
    [0 .. len(urunler) - 1] and every product has an orientation, packing in
    the order of the genes returns, and the products of the returned pallets
    are the products of the pool, each as often as in the pool. *)
Theorem gene_order_packs_every_product (orient : UrunData.t -> list Dims)
    (palet_cfg : PaletConfig.t) (urunler : list UrunData.t)
    (sira_gen : list Z) :
  Permutation sira_gen (map Z.of_nat (seq 0 (List.length urunler))) ->
  (forall u, In u urunler -> orient u <> []) ->
  exists pallets,
    pack_in_gene_order orient palet_cfg urunler sira_gen = Some pallets /\
    Permutation (products_of pallets) urunler.
Proof.
  intros Hperm Hne.
  apply Permutation_map_inv in Hperm as (ns & -> & Hns).
  destruct (siralanmis_urunler_in_range urunler ns) as (l & El & Hl).
  { intros n Hn. apply (Permutation_in _ (Permutation_sym Hns)) in Hn.
    apply in_seq in Hn. lia. }
  assert (Hpl : Permutation l urunler).
  { apply (Permutation_map (nth_error urunler)) in Hns.
    pose proof (map_nth_error_seq [] urunler) as Hseq. simpl in Hseq.
    rewrite Hseq, <- Hl in Hns.
    apply Permutation_map_inv in Hns as (l3 & E3 & Hp3).
    apply map_Some_inj in E3. subst l3. exact Hp3. }
  destruct (pack_total orient palet_cfg l) as [pallets E].
  { intros u Hu. apply Hne. eapply Permutation_in; eauto. }
  exists pallets. unfold pack_in_gene_order. rewrite El. split; [exact E|].
  now rewrite (pack_products orient palet_cfg l pallets E).
Qed.

Lemma gene_order_packs_every_product_witness :
  exists pallets,
    pack_in_gene_order spec_orientations cfg_30_20_10 [urun_cube; urun_bar]
      [1; 0] = Some pallets /\
    Permutation (products_of pallets) [urun_cube; urun_bar].
Proof.
  apply (gene_order_packs_every_product spec_orientations cfg_30_20_10
           [urun_cube; urun_bar] [1; 0]).
  - simpl. apply perm_swap.
  - orientations_nonempty.
Defined.

(* ================================================================== *)
(** ** The values stored on a Django pallet                            *)
(* ================================================================== *)

Lemma dict_get_set {V : Type} (k k' : Z) (v : V) (d : Dict V) :
  dict_get k (dict_set k' v d) = if k =? k' then Some v else dict_get k d.
Proof.
  induction d as [|[k0 v0] d IH]; simpl.
  - reflexivity.
  - destruct (Z.eqb_spec k' k0) as [-> | Hne]; simpl.
    + destruct (k =? k0); reflexivity.
    + rewrite IH. destruct (Z.eqb_spec k k0) as [-> | Hne'].
      * destruct (Z.eqb_spec k0 k'); [congruence | reflexivity].
      * reflexivity.
Qed.

Lemma dict_set_new {V : Type} (k : Z) (v : V) (d : Dict V) :
  ~ In k (map fst d) -> dict_set k v d = d ++ [(k, v)].
Proof.
  induction d as [|[k0 v0] d IH]; simpl; intros Hn; [reflexivity|].
  destruct (Z.eqb_spec k k0) as [-> | Hne]; [tauto|].
  rewrite IH; [reflexivity | tauto].
Qed.

Lemma find_snoc {A : Type} (f : A -> bool) (l : list A) (a : A) :
  find f (l ++ [a]) =
  match find f l with
  | Some x => Some x
  | None => if f a then Some a else None
  end.
Proof.
  induction l as [|b l IH]; simpl; [reflexivity|].
  destruct (f b); [reflexivity | exact IH].
Qed.

Lemma create_django_palet_sums (placements : list Placement.t)
    (acc : PaletFields.t) :
  PaletFields.toplam_agirlik (fold_left create_django_palet_item placements acc)
    = PaletFields.toplam_agirlik acc + items_weight placements /\
  PaletFields.kullanilan_hacim (fold_left create_django_palet_item placements acc)
    = PaletFields.kullanilan_hacim acc + items_volume placements.
Proof.
  revert acc. induction placements as [|pl pls IH]; intros acc; simpl.
  - split; lia.
  - destruct (IH (create_django_palet_item acc pl)) as [-> ->]. simpl.
    split; lia.
Qed.

Lemma pack_loop_Some_orientations (orient : UrunData.t -> list Dims)
    (palet_cfg : PaletConfig.t) (urunler : list UrunData.t) (st st' : State) :
  pack_loop orient palet_cfg urunler st = Some st' ->
  forall u, In u urunler -> orient u <> [].
Proof.
  revert st. induction urunler as [|v rest IH]; intros st H u Hu;
    [contradiction|].
  simpl in H.
  destruct (pack_step orient palet_cfg st v) as [st1|] eqn:E; [|discriminate].
  destruct Hu as [<- | Hu]; [|eapply IH; eauto].
  intros Ho. apply (pack_step_None orient palet_cfg st) in Ho. congruence.
Qed.

Lemma pack_Some_weights (orient : UrunData.t -> list Dims)
    (palet_cfg : PaletConfig.t) (urunler : list UrunData.t)
    (pallets : list Pallet.t) :
  pack_maximal_rectangles orient palet_cfg urunler = Some pallets ->
  forall p, In p pallets -> Pallet.weight p = items_weight (Pallet.items p).
Proof.
  intros E.
  assert (Hne : forall u, In u urunler -> orient u <> []).
  { unfold pack_maximal_rectangles in E.
    destruct (pack_loop orient palet_cfg urunler ([], new_pallet palet_cfg))
      as [st|] eqn:El; [|discriminate].
    eapply pack_loop_Some_orientations; eauto. }
  destruct (pack_pallets_invariant orient palet_cfg (fun _ => True)
              (fun p => Pallet.weight p = items_weight (Pallet.items p))
              (fun c => CurrentPallet.weight c
                        = items_weight (CurrentPallet.items c)))
    with (urunler := urunler) as (pallets' & E' & HQ); auto.
  - intros ps cur u st' _ HR HS. eapply Step_weight_consistent; eauto.
  - apply Forall_forall. trivial.
  - rewrite E in E'. injection E' as <-. now apply Forall_forall.
Qed.

Lemma number_palets (b : Z) (pallets : list Pallet.t) (s : nat)
    (acc : list (Z * PaletFields.t)) :
  snd (fold_left
         (fun (st : Z * list (Z * PaletFields.t)) pallet_data =>
            let '(palet_id, django_paletler) := st in
            (palet_id + 1,
             django_paletler ++
               [(palet_id, create_django_palet (Pallet.items pallet_data))]))
         pallets (b + Z.of_nat s, acc)) =
  acc ++
  map (fun kp : nat * Pallet.t =>
         (b + Z.of_nat (fst kp), create_django_palet (Pallet.items (snd kp))))
      (combine (seq s (List.length pallets)) pallets).
Proof.
  revert s acc. induction pallets as [|p ps IH]; intros s acc; simpl.
  - now rewrite app_nil_r.
  - replace (b + Z.of_nat s + 1) with (b + Z.of_nat (S s)) by lia.
    rewrite IH, <- app_assoc. reflexivity.
Qed.

(** X22: [chromosome_to_palets] raises exactly when the packing in gene
    order does.  Otherwise it returns one Django pallet per packed pallet, in
    order, numbered [baslangic_id], [baslangic_id + 1], ..., and the
    [toplam_agirlik] stored on each is the [weight] the packer reported for
    that pallet. *)
Theorem chromosome_to_palets_numbered (orient : UrunData.t -> list Dims)
    (palet_cfg : PaletConfig.t) (urunler : list UrunData.t)
    (sira_gen : list Z) (baslangic_id : Z) :
  match pack_in_gene_order orient palet_cfg urunler sira_gen with
  | None =>
      chromosome_to_palets orient palet_cfg urunler sira_gen baslangic_id
        = None
  | Some pallets =>
      chromosome_to_palets orient palet_cfg urunler sira_gen baslangic_id
        = Some (map (fun kp : nat * Pallet.t =>
                       (baslangic_id + Z.of_nat (fst kp),
                        create_django_palet (Pallet.items (snd kp))))
                    (enumerate pallets)) /\
      forall p, In p pallets ->
        PaletFields.toplam_agirlik (create_django_palet (Pallet.items p))
          = Pallet.weight p
  end.
Proof.
  unfold chromosome_to_palets.
  destruct (pack_in_gene_order orient palet_cfg urunler sira_gen)
    as [pallets|] eqn:E; [|reflexivity].
  split.
  - f_equal. unfold enumerate.
    pose proof (number_palets baslangic_id pallets 0 []) as Hn.
    simpl in Hn. rewrite Z.add_0_r in Hn. exact Hn.
  - intros p Hp. unfold pack_in_gene_order in E.
    destruct (siralanmis_urunler urunler sira_gen) as [l|]; [|discriminate].
    rewrite (pack_Some_weights orient palet_cfg l pallets E p Hp).
    unfold create_django_palet.
    destruct (create_django_palet_sums (Pallet.items p)
                (PaletFields.mk [] [] 0 0)) as [-> _].
    reflexivity.
Qed.

Lemma chromosome_to_palets_numbered_witness :
  chromosome_to_palets spec_orientations cfg_100
    [urun_oversized; urun_overweight] [1; 0] 7
  = Some [(7, create_django_palet
                [Placement.mk urun_overweight 0 0 0 50 50 50]);
          (8, create_django_palet
                [Placement.mk urun_oversized 0 0 0 120 50 50])] /\
  PaletFields.toplam_agirlik
    (create_django_palet [Placement.mk urun_oversized 0 0 0 120 50 50]) = 10.
Proof.
  pose proof (chromosome_to_palets_numbered spec_orientations cfg_100
                [urun_oversized; urun_overweight] [1; 0] 7) as H.
  vm_compute pack_in_gene_order in H. destruct H as [H1 H2]. split.
  - exact H1.
  - apply (H2 (Pallet.mk [Placement.mk urun_oversized 0 0 0 120 50 50] 10)).
    right. left. reflexivity.
Defined.

(* ================================================================== *)
(** ** Stage 1 of the stand-alone pipeline                             *)
(* ================================================================== *)

Lemma firstn_add {A : Type} (a b : nat) (l : list A) :
  firstn (a + b) l = firstn a l ++ firstn b (skipn a l).
Proof.
  revert l. induction a as [|a IH]; intros l; simpl; [reflexivity|].
  destruct l as [|x l]; simpl.
  - now rewrite firstn_nil.
  - now rewrite IH.
Qed.

Lemma full_slices {A : Type} (l : list A) (c q : nat) :
  (0 < c)%nat -> (q * c <= List.length l)%nat ->
  concat (map (fun i => py_slice l (Z.of_nat i * Z.of_nat c)
                          ((Z.of_nat i + 1) * Z.of_nat c))
              (seq 0 q))
  = firstn (q * c) l.
Proof.
  intros Hc. induction q as [|q IH]; intros Hq; [reflexivity|].
  rewrite seq_S, map_app, concat_app, IH by lia. simpl.
  rewrite app_nil_r. replace (c + q * c)%nat with (q * c + c)%nat by lia.
  rewrite firstn_add. f_equal.
  unfold py_slice, py_slice_bound.
  destruct (Z.ltb_spec (Z.of_nat q * Z.of_nat c) 0) as [Hn | _]; [lia|].
  destruct (Z.ltb_spec ((Z.of_nat q + 1) * Z.of_nat c) 0) as [Hn | _]; [lia|].
  rewrite !Z.min_l by nia.
  replace (Z.to_nat (Z.of_nat q * Z.of_nat c)) with (q * c)%nat by nia.
  replace (Z.to_nat ((Z.of_nat q + 1) * Z.of_nat c) - q * c)%nat
    with c by nia.
  reflexivity.
Qed.

Lemma py_slice_block {A : Type} (l : list A) (c i : nat) :
  ((i + 1) * c <= List.length l)%nat ->
  py_slice l (Z.of_nat i * Z.of_nat c) ((Z.of_nat i + 1) * Z.of_nat c)
  = firstn c (skipn (i * c) l).
Proof.
  intros Hi. unfold py_slice, py_slice_bound.
  destruct (Z.ltb_spec (Z.of_nat i * Z.of_nat c) 0) as [Hn | _]; [lia|].
  destruct (Z.ltb_spec ((Z.of_nat i + 1) * Z.of_nat c) 0) as [Hn | _]; [lia|].
  rewrite !Z.min_l by nia.
  replace (Z.to_nat (Z.of_nat i * Z.of_nat c)) with (i * c)%nat by nia.
  replace (Z.to_nat ((Z.of_nat i + 1) * Z.of_nat c) - i * c)%nat
    with c by nia.
  reflexivity.
Qed.

Lemma full_slices_length {A : Type} (l : list A) (c q : nat) :
  (q * c <= List.length l)%nat ->
  Forall (fun p : list A => List.length p = c)
    (map (fun i => py_slice l (Z.of_nat i * Z.of_nat c)
                     ((Z.of_nat i + 1) * Z.of_nat c))
         (seq 0 q)).
Proof.
  intros Hq. apply Forall_forall. intros p Hp.
  apply in_map_iff in Hp. destruct Hp as [i [<- Hi]].
  apply in_seq in Hi. rewrite py_slice_block by nia.
  rewrite length_firstn, length_skipn. nia.
Qed.

Lemma py_slice_from_tail {A : Type} (l : list A) (r : Z) :
  0 < r <= Z.of_nat (List.length l) ->
  py_slice_from l (- r) = skipn (List.length l - Z.to_nat r) l.
Proof.
  intros Hr. unfold py_slice_from, py_slice_bound.
  destruct (Z.ltb_spec (- r) 0) as [_ | Hn]; [|lia].
  f_equal. lia.
Qed.

(** The division of a group of [n] products by a positive capacity. *)
Lemma stage1_division (n : nat) (capacity : Z) :
  0 < capacity ->
  let c := Z.to_nat capacity in
  let q := Z.to_nat (Z.of_nat n / capacity) in
  let r := Z.of_nat n mod capacity in
  capacity = Z.of_nat c /\ (0 < c)%nat /\ (q * c <= n)%nat /\
  0 <= r < capacity /\ (n - Z.to_nat r = q * c)%nat /\ r <= Z.of_nat n.
Proof.
  intros Hc c q r.
  pose proof (Z.div_mod (Z.of_nat n) capacity ltac:(lia)) as Hdm.
  pose proof (Z.mod_pos_bound (Z.of_nat n) capacity Hc) as Hm.
  pose proof (Z.div_pos (Z.of_nat n) capacity ltac:(lia) Hc) as Hd.
  fold r in Hdm, Hm.
  assert (Hq : Z.of_nat q = Z.of_nat n / capacity) by (unfold q; lia).
  assert (Hcc : Z.of_nat c = capacity) by (unfold c; lia).
  repeat split; try lia; try nia.
Qed.

Lemma stage1_group_unfold (sim : list UrunData.t -> PaletConfig.t -> bool * Z)
    (reached : Z -> UrunData.t -> PaletConfig.t -> bool)
    (cfg : PaletConfig.t) (single_pallets : list (list UrunData.t))
    (mix_pool group_items : list UrunData.t) (capacity : Z)
    (first : UrunData.t) (rest : list UrunData.t) :
  group_items = first :: rest ->
  sim group_items cfg = (true, capacity) ->
  capacity <> 0 ->
  stage1_group sim reached cfg (single_pallets, mix_pool) group_items
  = let r := Z.of_nat (List.length group_items) mod capacity in
    let full :=
      map (fun i => py_slice group_items (Z.of_nat i * capacity)
                      ((Z.of_nat i + 1) * capacity))
          (seq 0 (Z.to_nat (Z.of_nat (List.length group_items) / capacity))) in
    if r >? 0 then
      if reached r first cfg
      then Some ((single_pallets ++ full) ++
                   [py_slice_from group_items (- r)], mix_pool)
      else Some (single_pallets ++ full,
                 mix_pool ++ py_slice_from group_items (- r))
    else Some (single_pallets ++ full, mix_pool).
Proof.
  intros Eg Hsim Hc. unfold stage1_group. rewrite Hsim.
  rewrite Eg at 1.
  destruct (Z.eqb_spec capacity 0) as [H0 | _]; [contradiction|].
  subst group_items. reflexivity.
Qed.

Lemma stage1_group_single (sim : list UrunData.t -> PaletConfig.t -> bool * Z)
    (reached : Z -> UrunData.t -> PaletConfig.t -> bool)
    (cfg : PaletConfig.t) (single_pallets : list (list UrunData.t))
    (mix_pool group_items : list UrunData.t) (capacity : Z) :
  sim group_items cfg = (true, capacity) ->
  0 < capacity ->
  group_items <> [] ->
  exists new_pallets to_mix,
    stage1_group sim reached cfg (single_pallets, mix_pool) group_items
      = Some (single_pallets ++ new_pallets, mix_pool ++ to_mix) /\
    concat new_pallets ++ to_mix = group_items /\
    Forall (fun p : list UrunData.t =>
              (0 < List.length p <= Z.to_nat capacity)%nat) new_pallets /\
    (List.length to_mix < Z.to_nat capacity)%nat.
Proof.
  intros Hsim Hc Hne.
  assert (Hex : exists first rest, group_items = first :: rest).
  { destruct group_items as [|first rest]; [congruence|]. eauto. }
  destruct Hex as [first [rest Eg]].
  rewrite (stage1_group_unfold sim reached cfg single_pallets mix_pool
             group_items capacity first rest Eg Hsim) by lia.
  clear Eg Hsim.
  destruct (stage1_division (List.length group_items) capacity Hc)
    as [Hcc [Hc0 [Hq [Hr [Hsub Hrn]]]]].
  cbv zeta.
  set (c := Z.to_nat capacity) in *.
  set (q := Z.to_nat (Z.of_nat (List.length group_items) / capacity)) in *.
  set (r := Z.of_nat (List.length group_items) mod capacity) in *.
  set (full := map (fun i => py_slice group_items (Z.of_nat i * capacity)
                               ((Z.of_nat i + 1) * capacity)) (seq 0 q)).
  assert (Hfull : concat full = firstn (q * c) group_items).
  { unfold full. rewrite Hcc. now apply full_slices. }
  assert (Hlen : Forall (fun p : list UrunData.t => List.length p = c) full).
  { unfold full. rewrite Hcc. now apply full_slices_length. }
  assert (Hlen' : Forall (fun p : list UrunData.t =>
                            (0 < List.length p <= c)%nat) full).
  { eapply Forall_impl; [|exact Hlen]. simpl. intros p Hp. lia. }
  destruct (Z.gtb_spec r 0) as [Hr0 | Hr0].
  - assert (Htail : py_slice_from group_items (- r)
                    = skipn (q * c) group_items).
    { rewrite py_slice_from_tail by lia. now rewrite Hsub. }
    assert (Htl : List.length (skipn (q * c) group_items) = Z.to_nat r).
    { rewrite length_skipn. lia. }
    destruct (reached r first cfg).
    + exists (full ++ [py_slice_from group_items (- r)]), [].
      rewrite !app_nil_r, app_assoc. split; [reflexivity|]. split.
      * rewrite concat_app, Hfull, Htail. simpl. rewrite app_nil_r.
        apply firstn_skipn.
      * split; [|simpl; lia].
        apply Forall_app. split; [exact Hlen'|].
        constructor; [|constructor]. rewrite Htail, Htl. lia.
    + exists full, (py_slice_from group_items (- r)).
      split; [reflexivity|]. split.
      * rewrite Hfull, Htail. apply firstn_skipn.
      * split; [exact Hlen'|]. rewrite Htail, Htl. lia.
  - exists full, []. rewrite !app_nil_r. split; [reflexivity|]. split.
    + rewrite Hfull. apply firstn_all2. lia.
    + split; [exact Hlen'|]. simpl. lia.
Qed.

Lemma stage1_group_total (sim : list UrunData.t -> PaletConfig.t -> bool * Z)
    (reached : Z -> UrunData.t -> PaletConfig.t -> bool)
    (cfg : PaletConfig.t) (single_pallets : list (list UrunData.t))
    (mix_pool group_items : list UrunData.t) :
  (forall capacity, sim group_items cfg = (true, capacity) ->
                    0 < capacity /\ group_items <> []) ->
  exists new_pallets to_mix,
    stage1_group sim reached cfg (single_pallets, mix_pool) group_items
      = Some (single_pallets ++ new_pallets, mix_pool ++ to_mix) /\
    concat new_pallets ++ to_mix = group_items /\
    Forall (fun p : list UrunData.t =>
              (0 < List.length p <= Z.to_nat (snd (sim group_items cfg)))%nat)
           new_pallets /\
    (fst (sim group_items cfg) = true ->
     (List.length to_mix < Z.to_nat (snd (sim group_items cfg)))%nat) /\
    (fst (sim group_items cfg) = false -> new_pallets = []).
Proof.
  intros Hsim.
  destruct (sim group_items cfg) as [can_be_single capacity] eqn:Es.
  destruct can_be_single.
  - destruct (Hsim capacity eq_refl) as [Hc Hne].
    destruct (stage1_group_single sim reached cfg single_pallets mix_pool
                group_items capacity Es Hc Hne)
      as [new_pallets [to_mix [Hg [Hcat [Hlen Hmix]]]]].
    exists new_pallets, to_mix. simpl.
    repeat split; try assumption; try discriminate. intros _. exact Hmix.
  - exists [], group_items. unfold stage1_group. rewrite Es. simpl.
    rewrite app_nil_r. repeat split; try constructor; try discriminate.
Qed.

Lemma stage1_total (sim : list UrunData.t -> PaletConfig.t -> bool * Z)
    (reached : Z -> UrunData.t -> PaletConfig.t -> bool)
    (cfg : PaletConfig.t) (groups : list (list UrunData.t)) :
  (forall group_items capacity,
     In group_items groups -> sim group_items cfg = (true, capacity) ->
     0 < capacity /\ group_items <> []) ->
  forall single_pallets mix_pool,
  exists new_pallets to_mix,
    stage1 sim reached cfg groups (single_pallets, mix_pool)
      = Some (single_pallets ++ new_pallets, mix_pool ++ to_mix) /\
    Permutation (concat new_pallets ++ to_mix) (concat groups) /\
    Forall (fun p : list UrunData.t => p <> []) new_pallets.
Proof.
  induction groups as [|g groups IH]; intros Hsim single_pallets mix_pool.
  - exists [], []. simpl. rewrite !app_nil_r.
    repeat split; constructor.
  - destruct (stage1_group_total sim reached cfg single_pallets mix_pool g)
      as [news [newm [Hg [Hcat [Hlen _]]]]].
    { intros capacity Hc. apply (Hsim g capacity); [now left | exact Hc]. }
    destruct (IH (fun g' capacity Hin => Hsim g' capacity (or_intror Hin))
                 (single_pallets ++ news) (mix_pool ++ newm))
      as [news' [newm' [Hrest [Hperm Hne]]]].
    exists (news ++ news'), (newm ++ newm').
    cbn [stage1]. rewrite Hg, Hrest. split; [now rewrite !app_assoc|]. split.
    + cbn [concat]. rewrite concat_app, <- Hcat, <- !app_assoc.
      apply Permutation_app_head.
      eapply Permutation_trans; [|apply Permutation_app_head, Hperm].
      rewrite !app_assoc. apply Permutation_app_tail, Permutation_app_comm.
    + apply Forall_app. split; [|exact Hne].
      eapply Forall_impl; [|exact Hlen]. simpl.
      intros p Hp Ep. subst p. simpl in Hp. lia.
Qed.

(* ================================================================== *)
(** ** Properties of stage 1                                           *)
(* ================================================================== *)

(** X23 - main.py, [run_optimization_standalone], lines 75-113: when the
    simulation gives a positive capacity for a non-empty group that can
    fill pallets of its own, one iteration of the group loop does not
    raise, appends to [single_pallets] and to [mix_pool] only, and cuts
    the group, in its order, into the product lists handed to
    [generate_grid_placement] followed by the products sent to the mix
    pool.  Each such list is non-empty and has at most [capacity]
    products, fewer than [capacity] products go to the mix pool, and a
    group that cannot fill a pallet of its own goes to the mix pool
    whole. *)
Theorem stage1_group_partition
    (sim : list UrunData.t -> PaletConfig.t -> bool * Z)
    (reached : Z -> UrunData.t -> PaletConfig.t -> bool)
    (cfg : PaletConfig.t) (single_pallets : list (list UrunData.t))
    (mix_pool group_items : list UrunData.t) :
  (forall capacity, sim group_items cfg = (true, capacity) ->
                    0 < capacity /\ group_items <> []) ->
  exists new_pallets to_mix,
    stage1_group sim reached cfg (single_pallets, mix_pool) group_items
      = Some (single_pallets ++ new_pallets, mix_pool ++ to_mix) /\
    concat new_pallets ++ to_mix = group_items /\
    Forall (fun p : list UrunData.t =>
              (0 < List.length p <= Z.to_nat (snd (sim group_items cfg)))%nat)
           new_pallets /\
    (fst (sim group_items cfg) = true ->
     (List.length to_mix < Z.to_nat (snd (sim group_items cfg)))%nat) /\
    (fst (sim group_items cfg) = false -> new_pallets = []).
Proof.
  apply stage1_group_total.
Qed.

Lemma stage1_group_partition_witness :
  exists new_pallets to_mix,
    stage1_group (fun _ _ => (true, 2)) (fun _ _ _ => false) cfg_100
      ([], []) [urun_cube; urun_bar; urun_cube]
      = Some ([] ++ new_pallets, [] ++ to_mix) /\
    concat new_pallets ++ to_mix = [urun_cube; urun_bar; urun_cube] /\
    new_pallets = [[urun_cube; urun_bar]] /\ to_mix = [urun_cube].
Proof.
  destruct (stage1_group_partition (fun _ _ => (true, 2))
              (fun _ _ _ => false) cfg_100 [] []
              [urun_cube; urun_bar; urun_cube])
    as [new_pallets [to_mix [Hg [Hcat _]]]].
  { intros capacity Hc. injection Hc as <-. split; [lia | discriminate]. }
  exists new_pallets, to_mix.
  vm_compute in Hg. injection Hg as <- <-.
  repeat split; reflexivity.
Defined.

(** X24 - main.py, [run_optimization_standalone], lines 72-113: when
    every group that can fill pallets of its own is non-empty and has a
    positive capacity, the group loop ends without raising, and the
    products handed to [generate_grid_placement] together with the mix
    pool are exactly the products of the groups, each as often as it
    occurs there; no single pallet is built from an empty list of
    products. *)
Theorem stage1_conserves_products
    (sim : list UrunData.t -> PaletConfig.t -> bool * Z)
    (reached : Z -> UrunData.t -> PaletConfig.t -> bool)
    (cfg : PaletConfig.t) (groups : list (list UrunData.t)) :
  (forall group_items capacity,
     In group_items groups -> sim group_items cfg = (true, capacity) ->
     0 < capacity /\ group_items <> []) ->
  exists single_pallets mix_pool,
    stage1 sim reached cfg groups ([], []) = Some (single_pallets, mix_pool) /\
    Permutation (concat single_pallets ++ mix_pool) (concat groups) /\
    Forall (fun p : list UrunData.t => p <> []) single_pallets.
Proof.
  intros Hsim.
  destruct (stage1_total sim reached cfg groups Hsim [] [])
    as [single_pallets [mix_pool H]].
  exists single_pallets, mix_pool. exact H.
Qed.

Lemma stage1_conserves_products_witness :
  exists single_pallets mix_pool,
    stage1 (fun g _ => (Nat.ltb 1 (List.length g), 2))
           (fun _ _ _ => true) cfg_100
           [[urun_cube; urun_cube; urun_cube]; [urun_bar]] ([], [])
      = Some (single_pallets, mix_pool) /\
    single_pallets = [[urun_cube; urun_cube]; [urun_cube]] /\
    mix_pool = [urun_bar].
Proof.
  destruct (stage1_conserves_products
              (fun g _ => (Nat.ltb 1 (List.length g), 2))
              (fun _ _ _ => true) cfg_100
              [[urun_cube; urun_cube; urun_cube]; [urun_bar]])
    as [single_pallets [mix_pool [Hs _]]].
  { intros g capacity Hin Hc. injection Hc as Hl <-. split; [lia|].
    intros ->. discriminate. }
  exists single_pallets, mix_pool. split; [exact Hs|].
  vm_compute in Hs. injection Hs as <- <-. split; reflexivity.
Defined.

(** X25 - main.py, [run_optimization_standalone], lines 81-111: an
    iteration of the group loop raises exactly when the group can fill
    pallets of its own and is empty ([group_items[0]]) or has capacity
    zero (the integer division); with a negative capacity it leaves
    [single_pallets] and [mix_pool] as they are, so the products of the
    group reach neither. *)
Theorem stage1_group_errors
    (sim : list UrunData.t -> PaletConfig.t -> bool * Z)
    (reached : Z -> UrunData.t -> PaletConfig.t -> bool)
    (cfg : PaletConfig.t) (st : list (list UrunData.t) * list UrunData.t)
    (group_items : list UrunData.t) :
  (stage1_group sim reached cfg st group_items = None <->
   exists capacity, sim group_items cfg = (true, capacity) /\
                    (group_items = [] \/ capacity = 0)) /\
  (forall capacity, sim group_items cfg = (true, capacity) ->
                    capacity < 0 -> group_items <> [] ->
                    stage1_group sim reached cfg st group_items = Some st).
Proof.
  destruct st as [single_pallets mix_pool]. split.
  - unfold stage1_group.
    destruct (sim group_items cfg) as [can_be_single capacity].
    destruct can_be_single.
    + destruct group_items as [|first rest].
      * split; [|reflexivity]. intros _. exists capacity. now split; [|left].
      * destruct (Z.eqb_spec capacity 0) as [H0 | H0].
        -- split; [|reflexivity]. intros _. exists capacity.
           now split; [|right].
        -- split.
           ++ destruct (_ >? 0); [destruct (reached _ _ _)|]; discriminate.
           ++ intros [capacity' [E [Hn | Hz]]]; [discriminate|].
              injection E as <-. contradiction.
    + split; [discriminate|]. intros [capacity' [E _]]. discriminate.
  - intros capacity Hsim Hc Hne.
    assert (Hex : exists first rest, group_items = first :: rest).
    { destruct group_items as [|first rest]; [congruence|]. eauto. }
    destruct Hex as [first [rest Eg]].
    rewrite (stage1_group_unfold sim reached cfg single_pallets mix_pool
               group_items capacity first rest Eg Hsim) by lia.
    cbv zeta.
    pose proof (Z.mod_neg_bound (Z.of_nat (List.length group_items))
                  capacity Hc) as Hm.
    assert (Hd : Z.of_nat (List.length group_items) / capacity <= 0).
    { pose proof (Z.div_mod (Z.of_nat (List.length group_items)) capacity
                    ltac:(lia)) as Hdm. nia. }
    destruct (Z.gtb_spec
                (Z.of_nat (List.length group_items) mod capacity) 0)
      as [Hr | _]; [lia|].
    replace (Z.to_nat (Z.of_nat (List.length group_items) / capacity))
      with 0%nat by lia.
    simpl. now rewrite app_nil_r.
Qed.

Lemma stage1_group_errors_witness :
  stage1_group (fun _ _ => (true, -2)) (fun _ _ _ => true) cfg_100
    ([], []) [urun_cube; urun_bar; urun_cube] = Some ([], []).
Proof.
  apply (proj2 (stage1_group_errors (fun _ _ => (true, -2))
                  (fun _ _ _ => true) cfg_100 ([], [])
                  [urun_cube; urun_bar; urun_cube]) (-2)).
  - reflexivity.
  - lia.
  - discriminate.
Defined.

Lemma digits2_pos_size (m : positive) : digits2_pos m = Pos.size m.
Proof. induction m as [m IH | m IH |]; simpl; congruence. Qed.

Lemma digits2_pos_bounds (m : positive) :
  2 ^ (Zpos (digits2_pos m) - 1) <= Zpos m < 2 ^ Zpos (digits2_pos m).
Proof.
  rewrite digits2_pos_size.
  pose proof (Pos.size_gt m) as Hgt. pose proof (Pos.size_le m) as Hle.
  apply Pos2Z.pos_lt_pos in Hgt. apply Pos2Z.pos_le_pos in Hle.
  rewrite Pos2Z.inj_pow in Hgt, Hle.
  replace (Zpos (Pos.size m)) with (Z.succ (Zpos (Pos.size m) - 1)) in Hle at 1 by lia.
  rewrite Z.pow_succ_r in Hle by lia.
  change (Zpos m~0) with (2 * Zpos m) in Hle. change (Zpos 2) with 2 in *. lia.
Qed.

Lemma iter_xO_pow (m k : positive) :
  Zpos (Pos.iter xO m k) = Zpos m * 2 ^ Zpos k.
Proof.
  induction k as [|k IH] using Pos.peano_ind.
  - simpl. lia.
  - rewrite Pos.iter_succ, Pos2Z.inj_succ, Z.pow_succ_r by lia.
    rewrite Pos2Z.inj_xO, IH. lia.
Qed.

Lemma digits2_pos_iter_xO (m k : positive) :
  digits2_pos (Pos.iter xO m k) = (digits2_pos m + k)%positive.
Proof.
  induction k as [|k IH] using Pos.peano_ind.
  - simpl. lia.
  - rewrite Pos.iter_succ. simpl. rewrite IH. lia.
Qed.

Lemma iter_pos_iter {A : Type} (f : A -> A) (n : positive) (x : A) :
  iter_pos f n x = Pos.iter f x n.
Proof.
  revert x. induction n as [n IH | n IH |]; intros x; simpl.
  - rewrite !IH. now rewrite <- !Pos.iter_swap.
  - now rewrite !IH.
  - reflexivity.
Qed.

Lemma shr_exact (m k : positive) :
  iter_pos shr_1 k (Build_shr_record (Zpos (Pos.iter xO m k)) false false)
  = Build_shr_record (Zpos m) false false.
Proof.
  rewrite iter_pos_iter.
  induction k as [|k IH] using Pos.peano_ind.
  - reflexivity.
  - rewrite (Pos.iter_succ k _ xO), (Pos.iter_succ_r k _ shr_1). simpl. exact IH.
Qed.

Lemma norm_mant_pos (m : positive) :
  Zpos (digits2_pos m) <= 53 ->
  Zpos (norm_mant m) = Zpos m * 2 ^ (53 - Zpos (digits2_pos m)).
Proof.
  intros Hd. unfold norm_mant. rewrite Z2Pos.id; [reflexivity|].
  apply Z.mul_pos_pos; [lia|]. apply Z.pow_pos_nonneg; lia.
Qed.

Lemma digits_mul_pow (m mk : positive) (k : Z) :
  0 <= k -> Zpos mk = Zpos m * 2 ^ k ->
  Zpos (digits2_pos mk) = Zpos (digits2_pos m) + k.
Proof.
  intros Hk Hmk. destruct k as [|k|k]; [| |lia].
  - rewrite Z.mul_1_r in Hmk. injection Hmk as ->. lia.
  - rewrite <- iter_xO_pow in Hmk. injection Hmk as ->.
    rewrite digits2_pos_iter_xO. lia.
Qed.

Lemma digits_norm_mant (m : positive) :
  Zpos (digits2_pos m) <= 53 -> Zpos (digits2_pos (norm_mant m)) = 53.
Proof.
  intros Hd.
  rewrite (digits_mul_pow m (norm_mant m) (53 - Zpos (digits2_pos m))); try lia.
  now apply norm_mant_pos.
Qed.

(** Rounding a number that already has 53 bits leaves it as it is. *)
Lemma binary_round_aux_53 (s : bool) (M : positive) (E : Z) :
  Zpos (digits2_pos M) = 53 -> -1074 <= E <= 971 ->
  binary_round_aux prec emax s (Zpos M) E loc_Exact = S754_finite s M E.
Proof.
  intros Hd HE. unfold binary_round_aux, shr_fexp, fexp, SpecFloat.emin.
  cbn [Zdigits2 shr_record_of_loc]. rewrite Hd.
  change prec with 53. change emax with 1024.
  replace (Z.max (53 + E - 53) (3 - 1024 - 53) - E) with 0 by lia.
  cbn [shr shr_m loc_of_shr_record round_nearest_even Zdigits2 shr_record_of_loc].
  rewrite Hd.
  replace (Z.max (53 + E - 53) (3 - 1024 - 53) - E) with 0 by lia.
  cbn [shr shr_m].
  destruct (Z.leb_spec E (1024 - 53)) as [_ | H]; [reflexivity | lia].
Qed.

(** The normal form of [m * 2^k] at exponent [e - k]. *)
Lemma binary_round_norm (s : bool) (m mk : positive) (k e : Z) :
  Zpos (digits2_pos m) <= 53 -> 0 <= k ->
  -1074 <= e + Zpos (digits2_pos m) - 53 <= 971 ->
  Zpos mk = Zpos m * 2 ^ k ->
  binary_round prec emax s mk (e - k)
  = S754_finite s (norm_mant m) (e + Zpos (digits2_pos m) - 53).
Proof.
  intros Hd Hk HE Hmk.
  pose proof (digits_mul_pow m mk k Hk Hmk) as Hdk.
  pose proof (norm_mant_pos m Hd) as HM.
  pose proof (digits_norm_mant m Hd) as HdM.
  set (d := Zpos (digits2_pos m)) in *.
  unfold binary_round, fexp, SpecFloat.emin. rewrite Hdk.
  change prec with 53. change emax with 1024.
  replace (Z.max (d + k + (e - k) - 53) (3 - 1024 - 53)) with (e + d - 53) by lia.
  unfold shl_align.
  destruct (e + d - 53 - (e - k)) as [|n|n] eqn:En.
  - (* already at the exponent of the normal form *)
    assert (mk = norm_mant m) as ->.
    { apply Pos2Z.inj. rewrite HM, Hmk. f_equal. f_equal. lia. }
    replace (e - k) with (e + d - 53) by lia.
    apply binary_round_aux_53; [exact HdM | lia].
  - (* too many bits: shift right, exactly *)
    assert (Hmk' : mk = Pos.iter xO (norm_mant m) n).
    { apply Pos2Z.inj. rewrite iter_xO_pow, HM, Hmk, <- Z.mul_assoc.
      rewrite <- Z.pow_add_r by lia. f_equal. f_equal. lia. }
    unfold binary_round_aux, shr_fexp, fexp, SpecFloat.emin.
    cbn [Zdigits2 shr_record_of_loc]. rewrite Hdk.
    change prec with 53. change emax with 1024.
    replace (Z.max (d + k + (e - k) - 53) (3 - 1024 - 53) - (e - k))
      with (Zpos n) by lia.
    cbn [shr]. rewrite Hmk', shr_exact.
    cbn [shr_m loc_of_shr_record round_nearest_even Zdigits2 shr_record_of_loc].
    rewrite HdM.
    replace (Z.max (53 + (e - k + Zpos n) - 53) (3 - 1024 - 53)
             - (e - k + Zpos n)) with 0 by lia.
    cbn [shr shr_m].
    destruct (Z.leb_spec (e - k + Zpos n) (1024 - 53)) as [_ | H]; [|lia].
    f_equal. lia.
  - (* too few bits: shift left *)
    assert (Pos.iter xO mk n = norm_mant m) as ->.
    { apply Pos2Z.inj. rewrite iter_xO_pow, HM, Hmk, <- Z.mul_assoc.
      rewrite <- Z.pow_add_r by lia. f_equal. f_equal. lia. }
    apply binary_round_aux_53; [exact HdM | lia].
Qed.

Lemma digits_le_53 (p : positive) :
  Zpos p < 2 ^ 53 -> Zpos (digits2_pos p) <= 53.
Proof.
  intros Hp. pose proof (digits2_pos_bounds p) as [Hlo _].
  destruct (Z.le_gt_cases (Zpos (digits2_pos p)) 53) as [H | H]; [exact H|].
  assert (2 ^ 53 <= 2 ^ (Zpos (digits2_pos p) - 1))
    by (apply Z.pow_le_mono_r; lia).
  lia.
Qed.

Lemma binary_round_grid (s : bool) (p pk : positive) (k e : Z) :
  unit_ok e -> Zpos p < 2 ^ 53 -> 0 <= k -> Zpos pk = Zpos p * 2 ^ k ->
  binary_round prec emax s pk (e - k) = SFnormal s p e.
Proof.
  intros He Hp Hk Hpk. pose proof (digits_le_53 p Hp) as Hd.
  apply binary_round_norm; try assumption.
  unfold unit_ok in He. pose proof (Pos2Z.is_pos (digits2_pos p)). lia.
Qed.

Lemma SFgrid_pos (e : Z) (p : positive) :
  unit_ok e -> Zpos p < 2 ^ 53 -> SFgrid e (Zpos p) = SFnormal false p e.
Proof.
  intros He Hp. unfold SFgrid, binary_normalize.
  replace e with (e - 0) at 1 by lia.
  apply binary_round_grid; try assumption; lia.
Qed.

Lemma SFgrid_neg (e : Z) (p : positive) :
  unit_ok e -> Zpos p < 2 ^ 53 -> SFgrid e (Zneg p) = SFnormal true p e.
Proof.
  intros He Hp. unfold SFgrid, binary_normalize.
  replace e with (e - 0) at 1 by lia.
  apply binary_round_grid; try assumption; lia.
Qed.

Lemma SFnormal_valid (s : bool) (p : positive) (e : Z) :
  unit_ok e -> Zpos p < 2 ^ 53 -> valid_binary (SFnormal s p e) = true.
Proof.
  intros He Hp. pose proof (digits_le_53 p Hp) as Hd.
  pose proof (Pos2Z.is_pos (digits2_pos p)) as Hd0.
  unfold SFnormal, SpecFloat.valid_binary, bounded, canonical_mantissa, fexp,
    SpecFloat.emin.
  rewrite (digits_norm_mant p Hd). change prec with 53. change emax with 1024.
  unfold unit_ok in He.
  apply andb_true_intro. split; [apply Z.eqb_eq | apply Z.leb_le]; lia.
Qed.

Lemma SFgrid_valid (e z : Z) :
  unit_ok e -> rep z -> valid_binary (SFgrid e z) = true.
Proof.
  intros He [Hlo Hhi]. destruct z as [|p|p].
  - reflexivity.
  - rewrite SFgrid_pos by (try assumption; lia). apply SFnormal_valid; [assumption | lia].
  - rewrite SFgrid_neg by (try assumption; lia). apply SFnormal_valid; [assumption | lia].
Qed.

(** Comparison of normal forms is comparison of the whole numbers. *)
Lemma SFnormal_compare (p q : positive) (e : Z) :
  Zpos p < 2 ^ 53 -> Zpos q < 2 ^ 53 ->
  match (e + Zpos (digits2_pos p) - 53 ?= e + Zpos (digits2_pos q) - 53) with
  | Lt => Lt
  | Gt => Gt
  | Eq => Pos.compare_cont Eq (norm_mant p) (norm_mant q)
  end = (Zpos p ?= Zpos q).
Proof.
  intros Hp Hq.
  pose proof (digits_le_53 p Hp) as Hdp. pose proof (digits_le_53 q Hq) as Hdq.
  pose proof (digits2_pos_bounds p) as [Hp1 Hp2].
  pose proof (digits2_pos_bounds q) as [Hq1 Hq2].
  destruct (Z.compare_spec (e + Zpos (digits2_pos p) - 53)
              (e + Zpos (digits2_pos q) - 53)) as [Heq | Hlt | Hgt].
  - assert (Hd : Zpos (digits2_pos p) = Zpos (digits2_pos q)) by lia.
    change (Pos.compare_cont Eq (norm_mant p) (norm_mant q))
      with (Zpos (norm_mant p) ?= Zpos (norm_mant q)).
    rewrite !norm_mant_pos, Hd by assumption.
    symmetry. apply Zmult_compare_compat_r.
    apply Z.lt_gt, Z.pow_pos_nonneg; lia.
  - symmetry. apply Z.compare_lt_iff.
    assert (2 ^ Zpos (digits2_pos p) <= 2 ^ (Zpos (digits2_pos q) - 1))
      by (apply Z.pow_le_mono_r; lia).
    lia.
  - symmetry. apply Z.compare_gt_iff.
    assert (2 ^ Zpos (digits2_pos q) <= 2 ^ (Zpos (digits2_pos p) - 1))
      by (apply Z.pow_le_mono_r; lia).
    lia.
Qed.

Lemma SFgrid_compare (e a b : Z) :
  unit_ok e -> rep a -> rep b ->
  SFcompare (SFgrid e a) (SFgrid e b) = Some (a ?= b).
Proof.
  intros He [Ha1 Ha2] [Hb1 Hb2].
  destruct a as [|p|p]; destruct b as [|q|q];
    rewrite ?SFgrid_pos, ?SFgrid_neg by (try assumption; lia);
    try reflexivity.
  - unfold SFnormal. cbn [SFcompare]. f_equal.
    apply SFnormal_compare; lia.
  - unfold SFnormal. cbn [SFcompare]. f_equal.
    change (Zneg p ?= Zneg q) with (CompOpp (Zpos p ?= Zpos q)).
    rewrite <- (SFnormal_compare p q e) by lia.
    destruct (_ ?= _); reflexivity.
Qed.

Lemma normalize_shifted (e k z : Z) :
  unit_ok e -> rep z -> 0 <= k ->
  binary_normalize prec emax (z * 2 ^ k) (e - k) false = SFgrid e z.
Proof.
  intros He [Hlo Hhi] Hk.
  assert (Hpow : 0 < 2 ^ k) by (apply Z.pow_pos_nonneg; lia).
  destruct z as [|p|p].
  - reflexivity.
  - rewrite SFgrid_pos by (try assumption; lia).
    destruct (Zpos p * 2 ^ k) as [|pk|pk] eqn:E; try lia.
    cbn [binary_normalize]. apply binary_round_grid; try assumption; lia.
  - rewrite SFgrid_neg by (try assumption; lia).
    destruct (Zneg p * 2 ^ k) as [|pk|pk] eqn:E; try lia.
    cbn [binary_normalize]. apply binary_round_grid; try assumption; try lia.
Qed.

Lemma shl_align_fst (mx : positive) (ex ez : Z) :
  ez <= ex -> Zpos (fst (shl_align mx ex ez)) = Zpos mx * 2 ^ (ex - ez).
Proof.
  intros H. unfold shl_align. destruct (ez - ex) as [|d|d] eqn:E; try lia.
  - replace (ex - ez) with 0 by lia. cbn [fst]. lia.
  - cbn [fst]. rewrite iter_xO_pow. f_equal. f_equal. lia.
Qed.

(** The mantissa of a normal form, aligned to a smaller exponent [ez]. *)
Lemma SFnormal_aligned (p : positive) (e ez : Z) :
  Zpos p < 2 ^ 53 -> ez <= e + Zpos (digits2_pos p) - 53 ->
  Zpos (fst (shl_align (norm_mant p) (e + Zpos (digits2_pos p) - 53) ez))
  = Zpos p * 2 ^ (e - ez).
Proof.
  intros Hp Hez. pose proof (digits_le_53 p Hp) as Hd.
  rewrite shl_align_fst by assumption.
  rewrite norm_mant_pos by assumption.
  rewrite <- Z.mul_assoc, <- Z.pow_add_r by lia.
  f_equal. f_equal. lia.
Qed.

Lemma SFadd_normal (sa sb : bool) (p q : positive) (e : Z) :
  unit_ok e -> Zpos p < 2 ^ 53 -> Zpos q < 2 ^ 53 ->
  rep (signed sa p + signed sb q) ->
  SF64add (SFnormal sa p e) (SFnormal sb q e)
  = SFgrid e (signed sa p + signed sb q).
Proof.
  intros He Hp Hq Hsum.
  pose proof (digits_le_53 p Hp) as Hdp. pose proof (digits_le_53 q Hq) as Hdq.
  unfold SF64add, SFnormal, SFadd.
  set (Ea := e + Zpos (digits2_pos p) - 53).
  set (Eb := e + Zpos (digits2_pos q) - 53).
  set (ez := Z.min Ea Eb).
  assert (Hza : ez <= Ea) by (unfold ez; lia).
  assert (Hzb : ez <= Eb) by (unfold ez; lia).
  unfold Ea in Hza |- *. unfold Eb in Hzb |- *.
  rewrite (SFnormal_aligned p e ez Hp Hza), (SFnormal_aligned q e ez Hq Hzb).
  replace (cond_Zopp sa (Zpos p * 2 ^ (e - ez)) +
           cond_Zopp sb (Zpos q * 2 ^ (e - ez)))
    with ((signed sa p + signed sb q) * 2 ^ (e - ez))
    by (unfold signed; destruct sa, sb; cbn [cond_Zopp]; lia).
  replace ez with (e - (e - ez)) at 2 by lia.
  apply normalize_shifted; try assumption. unfold Ea in Hza. lia.
Qed.

Lemma SFsub_normal (sa sb : bool) (p q : positive) (e : Z) :
  unit_ok e -> Zpos p < 2 ^ 53 -> Zpos q < 2 ^ 53 ->
  rep (signed sa p - signed sb q) ->
  SF64sub (SFnormal sa p e) (SFnormal sb q e)
  = SFgrid e (signed sa p - signed sb q).
Proof.
  intros He Hp Hq Hsum.
  pose proof (digits_le_53 p Hp) as Hdp. pose proof (digits_le_53 q Hq) as Hdq.
  unfold SF64sub, SFnormal, SFsub.
  set (Ea := e + Zpos (digits2_pos p) - 53).
  set (Eb := e + Zpos (digits2_pos q) - 53).
  set (ez := Z.min Ea Eb).
  assert (Hza : ez <= Ea) by (unfold ez; lia).
  assert (Hzb : ez <= Eb) by (unfold ez; lia).
  unfold Ea in Hza |- *. unfold Eb in Hzb |- *.
  rewrite (SFnormal_aligned p e ez Hp Hza), (SFnormal_aligned q e ez Hq Hzb).
  replace (cond_Zopp sa (Zpos p * 2 ^ (e - ez)) -
           cond_Zopp sb (Zpos q * 2 ^ (e - ez)))
    with ((signed sa p - signed sb q) * 2 ^ (e - ez))
    by (unfold signed; destruct sa, sb; cbn [cond_Zopp]; lia).
  replace ez with (e - (e - ez)) at 2 by lia.
  apply normalize_shifted; try assumption. unfold Ea in Hza. lia.
Qed.

Lemma SFgrid_add (e a b : Z) :
  unit_ok e -> rep a -> rep b -> rep (a + b) ->
  SF64add (SFgrid e a) (SFgrid e b) = SFgrid e (a + b).
Proof.
  intros He [Ha1 Ha2] [Hb1 Hb2] Hab.
  destruct a as [|p|p]; destruct b as [|q|q].
  - reflexivity.
  - change (0 + Zpos q) with (Zpos q).
    now rewrite SFgrid_pos by (try assumption; lia).
  - change (0 + Zneg q) with (Zneg q).
    now rewrite SFgrid_neg by (try assumption; lia).
  - rewrite Z.add_0_r. now rewrite SFgrid_pos by (try assumption; lia).
  - rewrite !SFgrid_pos by (try assumption; lia).
    apply (SFadd_normal false false); try assumption; lia.
  - rewrite SFgrid_pos, SFgrid_neg by (try assumption; lia).
    apply (SFadd_normal false true); try assumption; lia.
  - rewrite Z.add_0_r. now rewrite SFgrid_neg by (try assumption; lia).
  - rewrite SFgrid_pos, SFgrid_neg by (try assumption; lia).
    apply (SFadd_normal true false); try assumption; lia.
  - rewrite !SFgrid_neg by (try assumption; lia).
    apply (SFadd_normal true true); try assumption; lia.
Qed.

Lemma SFgrid_sub (e a b : Z) :
  unit_ok e -> rep a -> rep b -> rep (a - b) ->
  SF64sub (SFgrid e a) (SFgrid e b) = SFgrid e (a - b).
Proof.
  intros He [Ha1 Ha2] [Hb1 Hb2] Hab.
  destruct a as [|p|p]; destruct b as [|q|q].
  - reflexivity.
  - change (0 - Zpos q) with (Zneg q).
    now rewrite SFgrid_pos, SFgrid_neg by (try assumption; lia).
  - change (0 - Zneg q) with (Zpos q).
    now rewrite SFgrid_pos, SFgrid_neg by (try assumption; lia).
  - rewrite Z.sub_0_r. now rewrite SFgrid_pos by (try assumption; lia).
  - rewrite !SFgrid_pos by (try assumption; lia).
    apply (SFsub_normal false false); try assumption; lia.
  - rewrite SFgrid_pos, SFgrid_neg by (try assumption; lia).
    apply (SFsub_normal false true); try assumption; lia.
  - rewrite Z.sub_0_r. now rewrite SFgrid_neg by (try assumption; lia).
  - rewrite SFgrid_pos, SFgrid_neg by (try assumption; lia).
    apply (SFsub_normal true false); try assumption; lia.
  - rewrite !SFgrid_neg by (try assumption; lia).
    apply (SFsub_normal true true); try assumption; lia.
Qed.

(** The primitive floats on the grid. *)

Lemma Prim2SF_grid (e z : Z) :
  unit_ok e -> rep z -> Prim2SF (grid e z) = SFgrid e z.
Proof. intros He Hz. apply Prim2SF_SF2Prim. now apply SFgrid_valid. Qed.

Lemma grid_add (e a b : Z) :
  unit_ok e -> rep a -> rep b -> rep (a + b) ->
  (grid e a + grid e b)%float = grid e (a + b).
Proof.
  intros He Ha Hb Hab. apply Prim2SF_inj.
  rewrite add_spec, !Prim2SF_grid by assumption. now apply SFgrid_add.
Qed.

Lemma grid_sub (e a b : Z) :
  unit_ok e -> rep a -> rep b -> rep (a - b) ->
  (grid e a - grid e b)%float = grid e (a - b).
Proof.
  intros He Ha Hb Hab. apply Prim2SF_inj.
  rewrite sub_spec, !Prim2SF_grid by assumption. now apply SFgrid_sub.
Qed.

Lemma grid_ltb (e a b : Z) :
  unit_ok e -> rep a -> rep b -> (grid e a <? grid e b)%float = (a <? b).
Proof.
  intros He Ha Hb. rewrite ltb_spec, !Prim2SF_grid by assumption.
  unfold SFltb. rewrite SFgrid_compare by assumption.
  unfold Z.ltb. destruct (a ?= b); reflexivity.
Qed.

Lemma grid_leb (e a b : Z) :
  unit_ok e -> rep a -> rep b -> (grid e a <=? grid e b)%float = (a <=? b).
Proof.
  intros He Ha Hb. rewrite leb_spec, !Prim2SF_grid by assumption.
  unfold SFleb. rewrite SFgrid_compare by assumption.
  unfold Z.leb. destruct (a ?= b); reflexivity.
Qed.

Lemma grid_eqb (e a b : Z) :
  unit_ok e -> rep a -> rep b -> (grid e a =? grid e b)%float = (a =? b).
Proof.
  intros He Ha Hb. rewrite eqb_spec, !Prim2SF_grid by assumption.
  unfold SFeqb. rewrite SFgrid_compare by assumption.
  destruct (Z.compare_spec a b) as [H | H | H]; symmetry;
    [apply Z.eqb_eq | apply Z.eqb_neq | apply Z.eqb_neq]; lia.
Qed.

Lemma grid_ltb_infinity (e a : Z) :
  unit_ok e -> rep a -> (grid e a <? infinity)%float = true.
Proof.
  intros He [Ha1 Ha2]. rewrite ltb_spec, Prim2SF_grid by (try assumption; split; assumption).
  change (Prim2SF infinity) with (S754_infinity false).
  destruct a as [|p|p];
    rewrite ?SFgrid_pos, ?SFgrid_neg by (try assumption; lia); reflexivity.
Qed.

Lemma grid_inj (e a b : Z) :
  unit_ok e -> rep a -> rep b -> grid e a = grid e b -> a = b.
Proof.
  intros He Ha Hb H. apply Z.eqb_eq. rewrite <- (grid_eqb e) by assumption.
  rewrite H, grid_eqb by assumption. apply Z.eqb_refl.
Qed.

(** Products of whole numbers of units. *)

Lemma digits_ge (m : positive) (n : Z) :
  2 ^ n <= Zpos m -> n < Zpos (digits2_pos m).
Proof.
  intros H. pose proof (digits2_pos_bounds m) as [_ Hhi].
  destruct (Z.lt_ge_cases n (Zpos (digits2_pos m))) as [Hd | Hd]; [exact Hd|].
  assert (2 ^ Zpos (digits2_pos m) <= 2 ^ n)
    by (apply Z.pow_le_mono_r; lia).
  lia.
Qed.

Lemma SFmul_normal (sa sb : bool) (p q : positive) (e1 e2 : Z) :
  unit_ok e1 -> unit_ok e2 -> unit_ok (e1 + e2) ->
  Zpos p < 2 ^ 53 -> Zpos q < 2 ^ 53 -> Zpos (p * q) < 2 ^ 53 ->
  SF64mul (SFnormal sa p e1) (SFnormal sb q e2)
  = SFnormal (xorb sa sb) (p * q) (e1 + e2).
Proof.
  intros He1 He2 He Hp Hq Hpq.
  pose proof (digits_le_53 p Hp) as Hdp.
  pose proof (digits_le_53 q Hq) as Hdq.
  pose proof (norm_mant_pos p Hdp) as HP.
  pose proof (norm_mant_pos q Hdq) as HQ.
  pose proof (digits2_pos_bounds (norm_mant p)) as [HPlo _].
  pose proof (digits2_pos_bounds (norm_mant q)) as [HQlo _].
  rewrite (digits_norm_mant p Hdp) in HPlo.
  rewrite (digits_norm_mant q Hdq) in HQlo.
  pose proof (Pos2Z.is_pos (digits2_pos p)) as Hdp0.
  pose proof (Pos2Z.is_pos (digits2_pos q)) as Hdq0.
  set (dp := Zpos (digits2_pos p)) in *.
  set (dq := Zpos (digits2_pos q)) in *.
  assert (Hdig : 104 < Zpos (digits2_pos (norm_mant p * norm_mant q))).
  { apply digits_ge. rewrite Pos2Z.inj_mul.
    change (2 ^ 104) with (2 ^ (53 - 1) * 2 ^ (53 - 1)).
    apply Z.mul_le_mono_nonneg; try assumption;
      apply Z.pow_nonneg; lia. }
  unfold SF64mul, SFmul. unfold SFnormal at 1 2. fold dp dq.
  rewrite <- (binary_round_grid (xorb sa sb) (p * q)
                (norm_mant p * norm_mant q) ((53 - dp) + (53 - dq))
                (e1 + e2)); try assumption; try lia.
  - unfold binary_round, fexp, SpecFloat.emin.
    change prec with 53. change emax with 1024.
    set (d := Zpos (digits2_pos (norm_mant p * norm_mant q))) in *.
    replace (e1 + e2 - (53 - dp + (53 - dq)))
      with (e1 + dp - 53 + (e2 + dq - 53)) by lia.
    set (E := e1 + dp - 53 + (e2 + dq - 53)).
    unfold shl_align.
    destruct (Z.max (d + E - 53) (3 - 1024 - 53) - E) as [|n|n] eqn:En;
      try reflexivity.
    pose proof (Zlt_neg_0 n). lia.
  - rewrite !Pos2Z.inj_mul, HP, HQ. fold dp dq.
    rewrite Z.pow_add_r by lia. ring.
Qed.

Lemma SFgrid_mul (e1 e2 a b : Z) :
  unit_ok e1 -> unit_ok e2 -> unit_ok (e1 + e2) ->
  0 <= a < 2 ^ 53 -> 0 <= b < 2 ^ 53 -> a * b < 2 ^ 53 ->
  SF64mul (SFgrid e1 a) (SFgrid e2 b) = SFgrid (e1 + e2) (a * b).
Proof.
  intros He1 He2 He [Ha1 Ha2] [Hb1 Hb2] Hab.
  destruct a as [|p|p]; destruct b as [|q|q]; try lia.
  - reflexivity.
  - rewrite SFgrid_pos by (try assumption; lia). reflexivity.
  - rewrite Z.mul_0_r, SFgrid_pos by (try assumption; lia). reflexivity.
  - change (Zpos p * Zpos q) with (Zpos (p * q)) in *.
    rewrite !SFgrid_pos by (try assumption; lia).
    now apply (SFmul_normal false false).
Qed.

Lemma grid_mul (e1 e2 a b : Z) :
  unit_ok e1 -> unit_ok e2 -> unit_ok (e1 + e2) ->
  0 <= a < 2 ^ 53 -> 0 <= b < 2 ^ 53 -> a * b < 2 ^ 53 ->
  (grid e1 a * grid e2 b)%float = grid (e1 + e2) (a * b).
Proof.
  intros He1 He2 He Ha Hb Hab. apply Prim2SF_inj.
  rewrite mul_spec, !Prim2SF_grid; try assumption;
    try (unfold rep; nia).
  now apply SFgrid_mul.
Qed.

(* ================================================================== *)
(** ** Exact values on the grid                                        *)
(* ================================================================== *)

Lemma small_rep (z : Z) : small z -> rep z.
Proof. unfold small, rep. lia. Qed.

Lemma SFticks_normal (s : bool) (p : positive) (e : Z) :
  unit_ok e -> Zpos p < 2 ^ 53 ->
  SFticks (SFnormal s p e) = signed s p * 2 ^ (e + 1074).
Proof.
  intros He Hp. pose proof (digits_le_53 p Hp) as Hd.
  pose proof (Pos2Z.is_pos (digits2_pos p)) as Hd0.
  unfold SFnormal, SFticks, signed. rewrite norm_mant_pos by assumption.
  unfold unit_ok in He.
  rewrite <- Z.mul_assoc, <- Z.pow_add_r by lia.
  replace (53 - Zpos (digits2_pos p) + (e + Zpos (digits2_pos p) - 53 + 1074))
    with (e + 1074) by lia.
  destruct s; cbn [cond_Zopp]; lia.
Qed.

Lemma ticks_grid (e z : Z) :
  unit_ok e -> rep z -> ticks (grid e z) = z * 2 ^ (e + 1074).
Proof.
  intros He Hz. unfold ticks. rewrite Prim2SF_grid by assumption.
  destruct Hz as [Hlo Hhi]. destruct z as [|p|p].
  - reflexivity.
  - rewrite SFgrid_pos by (try assumption; lia).
    rewrite SFticks_normal by (try assumption; lia). reflexivity.
  - rewrite SFgrid_neg by (try assumption; lia).
    rewrite SFticks_normal by (try assumption; lia). reflexivity.
Qed.

Lemma is_finite_grid (e z : Z) :
  unit_ok e -> rep z -> is_finite (grid e z) = true.
Proof.
  intros He Hz. unfold is_finite. rewrite Prim2SF_grid by assumption.
  destruct Hz as [Hlo Hhi]. destruct z as [|p|p].
  - reflexivity.
  - now rewrite SFgrid_pos by (try assumption; lia).
  - now rewrite SFgrid_neg by (try assumption; lia).
Qed.

Lemma unit_pos (e : Z) : unit_ok e -> 0 < 2 ^ (e + 1074).
Proof. unfold unit_ok. intros He. apply Z.pow_pos_nonneg; lia. Qed.

(** Rewrites the binary64 operations on grid numbers into the exact
    ones; the side conditions are bounds that [lia] finds among the
    hypotheses. *)
Ltac grid_side :=
  first [ assumption
        | unfold small_cfg, small_rect, small_dims, small_box in *;
          unfold rep, small in *; cbn in *; lia ].

Ltac grid_exact :=
  unfold B64.ge, B64.gt;
  repeat first
    [ rewrite grid_add by grid_side
    | rewrite grid_sub by grid_side
    | rewrite grid_ltb by grid_side
    | rewrite grid_leb by grid_side ].

(* ================================================================== *)
(** ** The binary64 engine on whole numbers of units: geometry         *)
(* ================================================================== *)

Section Geometry64.

Variable e : Z.
Hypothesis He : unit_ok e.

Lemma can_fit64 (r : FreeRectangle.t) (l w h : Z) :
  small_rect r -> small l -> small w -> small h ->
  B64.FreeRectangle.can_fit (rect64 e r) (grid e l) (grid e w) (grid e h)
  = FreeRectangle.can_fit r l w h.
Proof.
  intros Hr Hl Hw Hh. unfold B64.FreeRectangle.can_fit, FreeRectangle.can_fit.
  cbn [rect64 B64.FreeRectangle.length B64.FreeRectangle.width
       B64.FreeRectangle.height].
  grid_exact. now rewrite !Z.geb_leb.
Qed.

Lemma intersects_3d64 (r : FreeRectangle.t) (px py pz pl pw ph : Z) :
  small_rect r -> small px -> small py -> small pz ->
  small pl -> small pw -> small ph ->
  B64.intersects_3d (rect64 e r) (grid e px) (grid e py) (grid e pz)
    (grid e pl) (grid e pw) (grid e ph)
  = intersects_3d r px py pz pl pw ph.
Proof.
  intros Hr Hx Hy Hz Hl Hw Hh. unfold B64.intersects_3d, intersects_3d.
  cbn [rect64 B64.FreeRectangle.x B64.FreeRectangle.y B64.FreeRectangle.z
       B64.FreeRectangle.length B64.FreeRectangle.width
       B64.FreeRectangle.height].
  grid_exact. now rewrite !Z.geb_leb.
Qed.

Lemma split_rectangle_maximal64 (r : FreeRectangle.t) (px py pz pl pw ph : Z) :
  small_rect r -> small px -> small py -> small pz ->
  small pl -> small pw -> small ph ->
  B64.split_rectangle_maximal (rect64 e r) (grid e px) (grid e py) (grid e pz)
    (grid e pl) (grid e pw) (grid e ph)
  = map (rect64 e) (split_rectangle_maximal r px py pz pl pw ph).
Proof.
  intros Hr Hx Hy Hz Hl Hw Hh.
  unfold B64.split_rectangle_maximal, split_rectangle_maximal.
  cbn [rect64 B64.FreeRectangle.x B64.FreeRectangle.y B64.FreeRectangle.z
       B64.FreeRectangle.length B64.FreeRectangle.width
       B64.FreeRectangle.height].
  grid_exact.
  destruct (FreeRectangle.x r <? px);
  destruct (px + pl <? FreeRectangle.x r + FreeRectangle.length r);
  destruct (FreeRectangle.y r <? py);
  destruct (py + pw <? FreeRectangle.y r + FreeRectangle.width r);
  destruct (FreeRectangle.z r <? pz);
  destruct (pz + ph <? FreeRectangle.z r + FreeRectangle.height r);
  reflexivity.
Qed.


Lemma contains64 (r2 r1 : FreeRectangle.t) :
  small_rect r2 -> small_rect r1 ->
  B64.contains (rect64 e r2) (rect64 e r1) = contains r2 r1.
Proof.
  intros H2 H1. unfold B64.contains, contains.
  cbn [rect64 B64.FreeRectangle.x B64.FreeRectangle.y B64.FreeRectangle.z
       B64.FreeRectangle.length B64.FreeRectangle.width
       B64.FreeRectangle.height].
  grid_exact. now rewrite !Z.geb_leb.
Qed.

Lemma existsb_combine_map {A B : Type} (f : A -> B) (p : nat * B -> bool)
    (q : nat * A -> bool) (l : list A) (s : nat) :
  (forall j a, In a l -> p (j, f a) = q (j, a)) ->
  existsb p (combine (seq s (List.length (map f l))) (map f l))
  = existsb q (combine (seq s (List.length l)) l).
Proof.
  revert s. induction l as [|a l IH]; intros s H; [reflexivity|].
  cbn [map List.length seq combine existsb].
  rewrite H by now left. f_equal. apply IH.
  intros j b Hb. apply H. now right.
Qed.

Lemma filter_combine_map {A B : Type} (f : A -> B) (p : nat * B -> bool)
    (q : nat * A -> bool) (l : list A) (s : nat) :
  (forall j a, In a l -> p (j, f a) = q (j, a)) ->
  map snd (filter p (combine (seq s (List.length (map f l))) (map f l)))
  = map f (map snd (filter q (combine (seq s (List.length l)) l))).
Proof.
  revert s. induction l as [|a l IH]; intros s H; [reflexivity|].
  cbn [map List.length seq combine filter].
  rewrite H by now left.
  destruct (q (s, a)); cbn [map snd]; [f_equal|]; apply IH;
    intros j b Hb; apply H; now right.
Qed.

Lemma is_contained64 (rects : list FreeRectangle.t) (i : nat)
    (r1 : FreeRectangle.t) :
  Forall small_rect rects -> small_rect r1 ->
  B64.is_contained (map (rect64 e) rects) i (rect64 e r1)
  = is_contained rects i r1.
Proof.
  intros Hrects H1. unfold B64.is_contained, is_contained, enumerate.
  apply existsb_combine_map. intros j a Ha. cbn [fst snd].
  rewrite contains64; [reflexivity | | exact H1].
  rewrite Forall_forall in Hrects. now apply Hrects.
Qed.

Lemma remove_redundant_rectangles64 (rects : list FreeRectangle.t) :
  Forall small_rect rects ->
  B64.remove_redundant_rectangles (map (rect64 e) rects)
  = map (rect64 e) (remove_redundant_rectangles rects).
Proof.
  intros Hrects.
  unfold B64.remove_redundant_rectangles, remove_redundant_rectangles, enumerate.
  apply filter_combine_map. intros j a Ha. cbn [fst snd].
  rewrite is_contained64; [reflexivity | exact Hrects |].
  rewrite Forall_forall in Hrects. now apply Hrects.
Qed.

Lemma split_free_rects64 (free_rects : list FreeRectangle.t)
    (px py pz pl pw ph : Z) :
  Forall small_rect free_rects -> small px -> small py -> small pz ->
  small pl -> small pw -> small ph ->
  B64.split_free_rects (map (rect64 e) free_rects) (grid e px) (grid e py)
    (grid e pz) (grid e pl) (grid e pw) (grid e ph)
  = map (rect64 e) (split_free_rects free_rects px py pz pl pw ph).
Proof.
  intros Hrects Hx Hy Hz Hl Hw Hh.
  unfold B64.split_free_rects, split_free_rects.
  assert (G : forall acc,
    fold_left
      (fun new_free_rects rect =>
         if B64.intersects_3d rect (grid e px) (grid e py) (grid e pz)
              (grid e pl) (grid e pw) (grid e ph)
         then new_free_rects ++
              B64.split_rectangle_maximal rect (grid e px) (grid e py)
                (grid e pz) (grid e pl) (grid e pw) (grid e ph)
         else new_free_rects ++ [rect])
      (map (rect64 e) free_rects) (map (rect64 e) acc)
    = map (rect64 e)
        (fold_left
           (fun new_free_rects rect =>
              if intersects_3d rect px py pz pl pw ph
              then new_free_rects ++
                   split_rectangle_maximal rect px py pz pl pw ph
              else new_free_rects ++ [rect])
           free_rects acc)).
  { induction Hrects as [|r l Hr Hrest IH]; intros acc; [reflexivity|].
    cbn [map fold_left].
    rewrite intersects_3d64, split_rectangle_maximal64 by assumption.
    destruct (intersects_3d r px py pz pl pw ph).
    - rewrite <- map_app. apply IH.
    - change [rect64 e r] with (map (rect64 e) [r]).
      rewrite <- map_app. apply IH. }
  exact (G []).
Qed.

Lemma py_min64 (a b : Z) :
  rep a -> rep b -> B64.py_min (grid e a) (grid e b) = grid e (Z.min a b).
Proof.
  intros Ha Hb. unfold B64.py_min. rewrite grid_ltb by assumption.
  destruct (Z.ltb_spec b a); [rewrite Z.min_r | rewrite Z.min_l]; auto; lia.
Qed.

Lemma try_rect64 (dims : Dims) (best : option Candidate) (r : FreeRectangle.t) :
  small_dims dims -> small_rect r -> best_ok best ->
  B64.try_rect (dims64 e dims) (best64 e best) (rect64 e r)
    = best64 e (try_rect dims best r) /\
  best_ok (try_rect dims best r).
Proof.
  destruct dims as [[l w] h]. intros Hd Hr Hb.
  unfold B64.try_rect, try_rect. cbn [dims64].
  rewrite can_fit64 by (unfold small_dims in Hd; tauto).
  destruct (FreeRectangle.can_fit r l w h); [|now split].
  cbn [rect64 B64.FreeRectangle.length B64.FreeRectangle.width].
  rewrite !grid_sub by grid_side.
  rewrite py_min64 by grid_side.
  set (s := Z.min (FreeRectangle.length r - l) (FreeRectangle.width r - w)).
  assert (Hs : rep s) by (unfold s; grid_side).
  destruct best as [[[br bd] m]|]; cbn [best64 snd best_ok] in *.
  - rewrite grid_ltb by assumption.
    destruct (s <? m); now split.
  - unfold B64.no_best. cbn [snd].
    rewrite grid_ltb_infinity by assumption. now split.
Qed.

Lemma scan_rects64 (dims : Dims) (free_rects : list FreeRectangle.t)
    (best : option Candidate) :
  small_dims dims -> Forall small_rect free_rects -> best_ok best ->
  fold_left (B64.try_rect (dims64 e dims)) (map (rect64 e) free_rects)
            (best64 e best)
    = best64 e (fold_left (try_rect dims) free_rects best) /\
  best_ok (fold_left (try_rect dims) free_rects best).
Proof.
  intros Hd Hrects. revert best.
  induction Hrects as [|r l Hr Hrest IH]; intros best Hb; [now split|].
  cbn [map fold_left].
  destruct (try_rect64 dims best r Hd Hr Hb) as [E Hb'].
  rewrite E. now apply IH.
Qed.

Lemma search_current64 (orientations : list Dims)
    (free_rects : list FreeRectangle.t) :
  Forall small_dims orientations -> Forall small_rect free_rects ->
  B64.search_current (map (dims64 e) orientations) (map (rect64 e) free_rects)
  = best64 e (search_current orientations free_rects).
Proof.
  intros Ho Hrects. unfold B64.search_current, search_current.
  change B64.no_best with (best64 e None).
  assert (Hb : best_ok None) by exact I. revert Hb.
  generalize (@None Candidate) as best.
  induction Ho as [|d l Hd Hrest IH]; intros best Hb; [reflexivity|].
  cbn [map fold_left].
  destruct (scan_rects64 d free_rects best Hd Hrects Hb) as [E Hb'].
  rewrite E. now apply IH.
Qed.

Lemma search_fresh64 (orientations : list Dims) (r : FreeRectangle.t) :
  Forall small_dims orientations -> small_rect r ->
  B64.search_fresh (map (dims64 e) orientations) (rect64 e r)
  = best64 e (search_fresh orientations r).
Proof.
  intros Ho Hr. unfold B64.search_fresh, search_fresh.
  change B64.no_best with (best64 e None).
  assert (Hb : best_ok None) by exact I. revert Hb.
  generalize (@None Candidate) as best.
  induction Ho as [|d l Hd Hrest IH]; intros best Hb; [reflexivity|].
  cbn [map fold_left].
  destruct (try_rect64 d best r Hd Hr Hb) as [E Hb'].
  rewrite E. now apply IH.
Qed.

End Geometry64.

(* ================================================================== *)
(** ** The exact model on inputs in range                              *)
(* ================================================================== *)

Lemma sound_rect_small (c : PaletConfig.t) (r : FreeRectangle.t) :
  small_cfg c -> sound_rect c r -> small_rect r.
Proof.
  unfold small_cfg, sound_rect, rect_in_bounds, small_rect, small. lia.
Qed.

Lemma sound_rect_whole (c : PaletConfig.t) :
  small_cfg c -> sound_rect c (whole_pallet c).
Proof.
  unfold small_cfg, sound_rect, rect_in_bounds, whole_pallet, small. simpl. lia.
Qed.

(** The sizes of a residual sub-cuboid are not negative when those of
    the rect are not. *)
Lemma split_piece_sizes (r s : FreeRectangle.t) (px py pz L W H : Z) :
  0 <= FreeRectangle.length r -> 0 <= FreeRectangle.width r ->
  0 <= FreeRectangle.height r ->
  In s (split_rectangle_maximal r px py pz L W H) ->
  0 <= FreeRectangle.length s /\ 0 <= FreeRectangle.width s /\
  0 <= FreeRectangle.height s.
Proof.
  intros Hl Hw Hh.
  rewrite split_rectangle_maximal_residuals. unfold residual_sub_cuboids.
  rewrite !in_app_iff, !in_guarded, !Z.ltb_lt.
  intros [[? ->] | [[? ->] | [[? ->] | [[? ->] | [[? ->] | [? ->]]]]]];
    simpl; lia.
Qed.

Lemma place_sound (c : PaletConfig.t) (cur : CurrentPallet.t)
    (urun : UrunData.t) (rect : FreeRectangle.t) (dims : Dims) :
  Forall (sound_rect c) (CurrentPallet.free_rects cur) ->
  Forall (sound_rect c) (CurrentPallet.free_rects (place cur urun rect dims)).
Proof.
  intros Hcur. rewrite Forall_forall in Hcur. apply Forall_forall.
  intros s Hs. destruct dims as [[l w] h].
  split.
  - apply (place_rects_in_bounds c cur urun rect (l, w, h)); [|exact Hs].
    intros r Hr. now apply Hcur.
  - rewrite place_free_rects in Hs. apply remove_redundant_incl in Hs.
    apply in_split_free_rects in Hs as (r & Hin & [[Hi Hp] | [Hi ->]]).
    + destruct (Hcur r Hin) as (_ & Hl & Hw & Hh).
      eapply split_piece_sizes; eauto.
    + now destruct (Hcur r Hin).
Qed.

Lemma sound_new_pallet (c : PaletConfig.t) :
  small_cfg c -> sound_pallet c (new_pallet c).
Proof.
  intros Hc. split.
  - constructor; [now apply sound_rect_whole | constructor].
  - unfold small. simpl. lia.
Qed.

Lemma Step_sound (orient : UrunData.t -> list Dims) (c : PaletConfig.t)
    (pallets : list Pallet.t) (cur : CurrentPallet.t) (urun : UrunData.t)
    (st' : State) :
  small_cfg c -> small (UrunData.agirlik urun) ->
  sound_pallet c cur -> Step orient c pallets cur urun st' ->
  sound_pallet c (snd st').
Proof.
  intros Hc Hu [Hrects Hw] HS.
  pose proof (sound_new_pallet c Hc) as [Hnew _].
  destruct HS as [rect dims Hcap Hr Hd Hf | dims Hd Hf | dims rest Ho Hnone];
    cbn [snd]; (split; [now apply place_sound|]);
    rewrite place_weight; unfold small_cfg, small in *; simpl; lia.
Qed.

(* ================================================================== *)
(** ** The binary64 engine follows the exact model                     *)
(* ================================================================== *)

Section Packer64.

Variable e : Z.
Hypothesis He : unit_ok e.
Variable c : PaletConfig.t.
Hypothesis Hc : small_cfg c.

Lemma new_pallet64 : B64.new_pallet (cfg64 e c) = current64 e (new_pallet c).
Proof. reflexivity. Qed.

Lemma emit64 (pallets : list Pallet.t) (cur : CurrentPallet.t) :
  B64.emit (map (pallet64 e) pallets) (current64 e cur)
  = map (pallet64 e) (emit pallets cur).
Proof.
  unfold B64.emit, emit. cbn [current64 B64.CurrentPallet.items].
  destruct (CurrentPallet.items cur) as [|pl items]; [reflexivity|].
  cbn [map]. rewrite map_app. reflexivity.
Qed.

Lemma place64 (cur : CurrentPallet.t) (urun : UrunData.t)
    (rect : FreeRectangle.t) (dims : Dims) :
  sound_pallet c cur -> small (UrunData.agirlik urun) ->
  small_rect rect -> small_dims dims ->
  B64.place (current64 e cur) (urun64 e urun) (rect64 e rect) (dims64 e dims)
  = current64 e (place cur urun rect dims).
Proof.
  intros [Hrects Hw] Hu Hr Hd. destruct dims as [[l w] h].
  assert (Hsmall : Forall small_rect (CurrentPallet.free_rects cur)).
  { eapply Forall_impl; [|exact Hrects].
    intros r. now apply sound_rect_small. }
  unfold B64.place, place.
  cbn [dims64 current64 rect64 urun64 B64.CurrentPallet.items
       B64.CurrentPallet.weight B64.CurrentPallet.free_rects
       B64.FreeRectangle.x B64.FreeRectangle.y B64.FreeRectangle.z
       B64.UrunData.agirlik].
  unfold current64. cbn [CurrentPallet.items CurrentPallet.weight
                         CurrentPallet.free_rects].
  f_equal.
  - rewrite map_app. reflexivity.
  - apply grid_add; grid_side.
  - rewrite split_free_rects64;
      try assumption; try (unfold small_rect, small_dims in *; tauto).
    apply remove_redundant_rectangles64; [exact He|].
    apply Forall_forall. intros s Hs.
    apply in_split_free_rects in Hs as (r & Hin & [[Hi Hp] | [Hi ->]]).
    + rewrite Forall_forall in Hrects.
      destruct (Hrects r Hin) as (Hb & Hl' & Hw' & Hh').
      apply (sound_rect_small c); [exact Hc|]. split.
      * eapply rect_in_bounds_contains; [exact Hb|].
        eapply split_piece_inside; eauto.
      * eapply split_piece_sizes; eauto.
    + rewrite Forall_forall in Hsmall. now apply Hsmall.
Qed.

Lemma fst_best64 (best : option Candidate) :
  fst (best64 e best)
  = match best with
    | Some (rect, dims, _) => Some (rect64 e rect, dims64 e dims)
    | None => None
    end.
Proof. destruct best as [[[r d] s]|]; reflexivity. Qed.

Variable orient : UrunData.t -> list Dims.
Variable orient64 : B64.UrunData.t -> list B64.Dims.

Lemma pack_step64 (pallets : list Pallet.t) (cur : CurrentPallet.t)
    (urun : UrunData.t) :
  small (UrunData.agirlik urun) -> Forall small_dims (orient urun) ->
  orient64 (urun64 e urun) = map (dims64 e) (orient urun) ->
  sound_pallet c cur ->
  B64.pack_step orient64 (cfg64 e c)
    (map (pallet64 e) pallets, current64 e cur) (urun64 e urun)
  = option_map (state64 e) (pack_step orient c (pallets, cur) urun).
Proof.
  intros Hu Ho Hag Hcur.
  pose proof (sound_new_pallet c Hc) as Hnew.
  pose proof (sound_rect_small c _ Hc (sound_rect_whole c Hc)) as Hwhole.
  (* what follows the weight check, on any sound open pallet *)
  assert (Hbody : forall pallets0 cur0,
    sound_pallet c cur0 ->
    match fst (B64.search_current (orient64 (urun64 e urun))
                 (B64.CurrentPallet.free_rects (current64 e cur0))) with
    | Some (best_rect, best_orientation) =>
        Some (map (pallet64 e) pallets0,
              B64.place (current64 e cur0) (urun64 e urun) best_rect
                        best_orientation)
    | None =>
        match B64.CurrentPallet.free_rects (B64.new_pallet (cfg64 e c)) with
        | [] => None
        | rect :: _ =>
            match fst (B64.search_fresh (orient64 (urun64 e urun)) rect) with
            | Some (best_rect, best_orientation) =>
                Some (B64.emit (map (pallet64 e) pallets0) (current64 e cur0),
                      B64.place (B64.new_pallet (cfg64 e c)) (urun64 e urun)
                                best_rect best_orientation)
            | None =>
                match orient64 (urun64 e urun) with
                | [] => None
                | first_orientation :: _ =>
                    Some (B64.emit (map (pallet64 e) pallets0)
                                   (current64 e cur0),
                          B64.place (B64.new_pallet (cfg64 e c))
                                    (urun64 e urun) rect first_orientation)
                end
            end
        end
    end
    = option_map (state64 e)
        match search_current (orient urun) (CurrentPallet.free_rects cur0) with
        | Some (best_rect, best_orientation, _) =>
            Some (pallets0, place cur0 urun best_rect best_orientation)
        | None =>
            match CurrentPallet.free_rects (new_pallet c) with
            | [] => None
            | rect :: _ =>
                match search_fresh (orient urun) rect with
                | Some (best_rect, best_orientation, _) =>
                    Some (emit pallets0 cur0,
                          place (new_pallet c) urun best_rect best_orientation)
                | None =>
                    match orient urun with
                    | [] => None
                    | first_orientation :: _ =>
                        Some (emit pallets0 cur0,
                              place (new_pallet c) urun rect first_orientation)
                    end
                end
            end
        end).
  { intros pallets0 cur0 Hcur0.
    assert (Hsmall0 : Forall small_rect (CurrentPallet.free_rects cur0)).
    { destruct Hcur0 as [Hr0 _]. eapply Forall_impl; [|exact Hr0].
      intros r. now apply sound_rect_small. }
    rewrite Hag. cbn [current64 B64.CurrentPallet.free_rects].
    rewrite search_current64, fst_best64 by assumption.
    destruct (search_current (orient urun) (CurrentPallet.free_rects cur0))
      as [[[r d] s]|] eqn:Es.
    - apply search_current_Some in Es as (rect & dims & E & Hr & Hd & Hf).
      injection E as -> -> _.
      rewrite place64; try assumption; [reflexivity | |].
      + rewrite Forall_forall in Hsmall0. now apply Hsmall0.
      + rewrite Forall_forall in Ho. now apply Ho.
    - rewrite new_pallet64. cbn [current64 new_pallet map
                                 B64.CurrentPallet.free_rects
                                 CurrentPallet.free_rects].
      fold (whole_pallet c).
      rewrite search_fresh64, fst_best64 by assumption.
      change (B64.CurrentPallet.mk [] (grid e 0) [rect64 e (whole_pallet c)])
        with (current64 e (new_pallet c)).
      rewrite emit64.
      destruct (search_fresh (orient urun) (whole_pallet c))
        as [[[r d] s]|] eqn:Ef.
      + apply search_fresh_Some in Ef as (dims & E & Hd & Hf).
        injection E as -> -> _.
        rewrite place64; try assumption; [reflexivity|].
        rewrite Forall_forall in Ho. now apply Ho.
      + destruct (orient urun) as [|d rest] eqn:Eo; [reflexivity|].
        cbn [map]. rewrite place64; try assumption; [reflexivity|].
        now inversion Ho. }
  assert (Htest :
    B64.gt (B64.CurrentPallet.weight (current64 e cur)
              + B64.UrunData.agirlik (urun64 e urun))
           (B64.PaletConfig.max_weight (cfg64 e c))
    = (CurrentPallet.weight cur + UrunData.agirlik urun
         >? PaletConfig.max_weight c)).
  { destruct Hcur as [_ Hw].
    cbn [current64 urun64 cfg64 B64.CurrentPallet.weight B64.UrunData.agirlik
         B64.PaletConfig.max_weight].
    unfold B64.gt. rewrite grid_add by grid_side.
    rewrite grid_ltb by grid_side. now rewrite Z.gtb_ltb. }
  unfold B64.pack_step, pack_step. rewrite Htest.
  destruct (CurrentPallet.weight cur + UrunData.agirlik urun
              >? PaletConfig.max_weight c); cbv beta iota zeta.
  - rewrite emit64. apply (Hbody (emit pallets cur) (new_pallet c) Hnew).
  - apply (Hbody pallets cur Hcur).
Qed.

End Packer64.

Section Loop64.

Variable e : Z.
Variable c : PaletConfig.t.
Variable orient : UrunData.t -> list Dims.
Variable orient64 : B64.UrunData.t -> list B64.Dims.

Lemma pack_loop64 (urunler : list UrunData.t) (pallets : list Pallet.t)
    (cur : CurrentPallet.t) :
  exact_range e c orient urunler -> agree e orient orient64 urunler ->
  sound_pallet c cur ->
  B64.pack_loop orient64 (cfg64 e c) (map (urun64 e) urunler)
    (map (pallet64 e) pallets, current64 e cur)
  = option_map (state64 e) (pack_loop orient c urunler (pallets, cur)).
Proof.
  intros (He & Hc & Hus) Hag. revert pallets cur.
  induction urunler as [|u rest IH]; intros pallets cur Hcur; [reflexivity|].
  destruct (Hus u (or_introl eq_refl)) as [Hu Ho].
  cbn [map B64.pack_loop]. rewrite pack_loop_cons.
  rewrite (pack_step64 e He c Hc orient orient64 pallets cur u Hu Ho
             (Hag u (or_introl eq_refl)) Hcur).
  destruct (pack_step orient c (pallets, cur) u) as [[ps1 cur1]|] eqn:E;
    [|reflexivity].
  cbn [option_map state64 fst snd].
  apply IH.
  - intros v Hv. apply Hus. now right.
  - intros v Hv. apply Hag. now right.
  - apply pack_step_Step in E.
    exact (Step_sound orient c pallets cur u (ps1, cur1) Hc Hu Hcur E).
Qed.

(** On inputs in range the binary64 engine returns what the exact model
    returns, number by number. *)
Lemma pack_maximal_rectangles64 (urunler : list UrunData.t) :
  exact_range e c orient urunler -> agree e orient orient64 urunler ->
  B64.pack_maximal_rectangles orient64 (cfg64 e c) (map (urun64 e) urunler)
  = option_map (map (pallet64 e)) (pack_maximal_rectangles orient c urunler).
Proof.
  intros Hin Hag. unfold B64.pack_maximal_rectangles, pack_maximal_rectangles.
  pose proof Hin as (He & Hc & Hus).
  rewrite new_pallet64.
  change (@nil B64.Pallet.t) with (map (pallet64 e) []).
  rewrite (pack_loop64 urunler [] (new_pallet c) Hin Hag
             (sound_new_pallet c Hc)).
  destruct (pack_loop orient c urunler ([], new_pallet c)) as [[ps cur]|];
    [|reflexivity].
  cbn [option_map state64 fst snd]. now rewrite emit64.
Qed.

End Loop64.

(** A property of the returned pallets from an invariant of the open
    pallet, for a run that returns. *)
Lemma pack_result_invariant (orient : UrunData.t -> list Dims)
    (palet_cfg : PaletConfig.t) (good : UrunData.t -> Prop)
    (Q : Pallet.t -> Prop) (R : CurrentPallet.t -> Prop)
    (urunler : list UrunData.t) (pallets : list Pallet.t) :
  R (new_pallet palet_cfg) ->
  (forall cur, R cur -> CurrentPallet.items cur <> [] ->
     Q (Pallet.mk (CurrentPallet.items cur) (CurrentPallet.weight cur))) ->
  (forall ps cur u st',
     good u -> R cur -> Step orient palet_cfg ps cur u st' -> R (snd st')) ->
  Forall good urunler ->
  pack_maximal_rectangles orient palet_cfg urunler = Some pallets ->
  Forall Q pallets.
Proof.
  intros Hnew Hemit Hstep Hgood E.
  assert (Hne : forall u, In u urunler -> orient u <> []).
  { unfold pack_maximal_rectangles in E.
    destruct (pack_loop orient palet_cfg urunler ([], new_pallet palet_cfg))
      as [st|] eqn:El; [|discriminate].
    eapply pack_loop_Some_orientations; eauto. }
  destruct (pack_pallets_invariant orient palet_cfg good Q R Hnew Hemit Hstep
              urunler Hgood Hne) as (pallets' & E' & HQ).
  rewrite E in E'. now injection E' as <-.
Qed.

(** On inputs in range every number the exact model returns is in
    range. *)
Lemma pack_small (e : Z) (orient : UrunData.t -> list Dims)
    (c : PaletConfig.t) (urunler : list UrunData.t) (pallets : list Pallet.t) :
  exact_range e c orient urunler ->
  pack_maximal_rectangles orient c urunler = Some pallets ->
  forall p, In p pallets ->
    small (Pallet.weight p) /\
    forall pl, In pl (Pallet.items p) -> small_box pl.
Proof.
  intros (He & Hc & Hus) E.
  assert (HQ : Forall (fun p => small (Pallet.weight p) /\
                          forall pl, In pl (Pallet.items p) -> small_box pl)
                      pallets).
  { apply (pack_result_invariant orient c
             (fun u => small (UrunData.agirlik u) /\
                       Forall small_dims (orient u))
             _ (fun cur => sound_pallet c cur /\
                           forall pl, In pl (CurrentPallet.items cur) ->
                                      small_box pl)
             urunler pallets); try assumption.
    - split; [now apply sound_new_pallet | intros pl []].
    - intros cur [[_ Hw] Hitems] _. now split.
    - intros ps cur u st' [Hu Ho] [Hcur Hitems] HS. split.
      + eapply Step_sound; eauto.
      + pose proof (sound_rect_small c _ Hc (sound_rect_whole c Hc)) as Hwhole.
        assert (Hbox : forall rect l w h,
                  small_rect rect -> small_dims (l, w, h) ->
                  small_box (Placement.mk u (FreeRectangle.x rect)
                               (FreeRectangle.y rect) (FreeRectangle.z rect)
                               l w h)).
        { intros rect l w h Hr Hd.
          unfold small_box, small_rect, small_dims in *. simpl. tauto. }
        rewrite Forall_forall in Ho.
        destruct HS as [rect [[l w] h] Hcap Hr Hd Hf | [[l w] h] Hd Hf
                       | [[l w] h] rest Hor Hnone];
          cbn [snd]; intros pl; rewrite place_items; intros Hin;
          apply in_app_iff in Hin as [Hin | [<- | []]];
          try (now apply Hitems); try contradiction.
        * apply Hbox; [|now apply Ho].
          destruct Hcur as [Hrects _]. rewrite Forall_forall in Hrects.
          apply (sound_rect_small c); auto.
        * apply Hbox; [exact Hwhole | now apply Ho].
        * apply Hbox; [exact Hwhole|]. apply Ho. rewrite Hor. now left.
    - apply Forall_forall. exact Hus. }
  rewrite Forall_forall in HQ. exact HQ.
Qed.


(** C3, as stated, fails in two ways.  A product of 1500 kg is put on a
    pallet of its own under a cap of 1000 kg.  And under a cap of [2^53]
    kg, products of [2^53] kg and 1 kg share a pallet, because the sum
    [2^53 + 1] rounds to [2^53]: neither product is heavier than the cap,
    the [weight] field passes the test, and the weights add up to more
    than the cap. *)
Lemma pallet_over_cap :
  (exists p,
     B64.pack_maximal_rectangles B64.spec_orientations (cfg64 0 cfg_100)
       (map (urun64 0) [urun_overweight]) = Some [p] /\
     is_finite (B64.PaletConfig.max_weight (cfg64 0 cfg_100)) = true /\
     exact_items_weight (B64.Pallet.items p) = ticks (grid 0 1500) /\
     ~ exact_items_weight (B64.Pallet.items p)
       <= ticks (B64.PaletConfig.max_weight (cfg64 0 cfg_100))) /\
  (exists p,
     B64.pack_maximal_rectangles B64.spec_orientations (cfg64 0 cfg_brim)
       (map (urun64 0) [urun_heavy; urun_kilo_a]) = Some [p] /\
     List.length (B64.Pallet.items p) = 2%nat /\
     is_finite (B64.PaletConfig.max_weight (cfg64 0 cfg_brim)) = true /\
     Forall (fun pl =>
               is_finite (B64.UrunData.agirlik (B64.Placement.urun pl)) = true /\
               B64.gt (B64.UrunData.agirlik (B64.Placement.urun pl))
                      (B64.PaletConfig.max_weight (cfg64 0 cfg_brim)) = false)
            (B64.Pallet.items p) /\
     B64.gt (B64.Pallet.weight p)
            (B64.PaletConfig.max_weight (cfg64 0 cfg_brim)) = false /\
     ~ exact_items_weight (B64.Pallet.items p)
       <= ticks (B64.PaletConfig.max_weight (cfg64 0 cfg_brim))).
Proof.
  split.
  - eexists. split; [vm_compute; reflexivity|].
    split; [vm_compute; reflexivity|]. split; [vm_compute; reflexivity|].
    vm_compute. intros H. now apply H.
  - eexists. split; [vm_compute; reflexivity|].
    split; [reflexivity|]. split; [vm_compute; reflexivity|].
    split; [repeat constructor|]. split; [vm_compute; reflexivity|].
    vm_compute. intros H. now apply H.
Qed.

(* ================================================================== *)
(** ** From the exact model to exact values of the binary64 engine     *)
(* ================================================================== *)

Lemma scaled_le (k a b : Z) : 0 < k -> a <= b -> a * k <= b * k.
Proof. intros Hk H. now apply Z.mul_le_mono_nonneg_r; [lia|]. Qed.

Lemma scaled_sum_le (k a b c : Z) :
  0 < k -> a + b <= c -> a * k + b * k <= c * k.
Proof.
  intros Hk H. rewrite <- Z.mul_add_distr_r. now apply scaled_le.
Qed.

Section Transfer.

Variable e : Z.
Hypothesis He : unit_ok e.

Lemma finite_box64 (pl : Placement.t) :
  small_box pl -> finite_box (placement64 e pl).
Proof.
  intros Hb. unfold finite_box, placement64. simpl.
  repeat split; apply is_finite_grid; grid_side.
Qed.

Lemma finite_cfg64 (c : PaletConfig.t) :
  small_cfg c -> finite_cfg (cfg64 e c).
Proof.
  intros Hc. unfold finite_cfg, cfg64. simpl.
  repeat split; apply is_finite_grid; grid_side.
Qed.

Lemma in_bounds64_grid (c : PaletConfig.t) (pl : Placement.t) :
  small_cfg c -> small_box pl -> in_bounds c pl ->
  in_bounds64 (cfg64 e c) (placement64 e pl).
Proof.
  intros Hc Hb Hin. split; [now apply finite_cfg64|].
  split; [now apply finite_box64|].
  pose proof (unit_pos e He) as Hk.
  unfold in_bounds, exact_cfg, exact_placement, cfg64, placement64 in *.
  simpl. rewrite !ticks_grid by grid_side.
  destruct Hin as (H1 & H2 & H3 & H4 & H5 & H6).
  repeat split;
    try (apply Z.mul_nonneg_nonneg; lia);
    now apply scaled_sum_le.
Qed.

Lemma separated64_grid (a b : Placement.t) :
  small_box a -> small_box b -> separated a b ->
  separated64 (placement64 e a) (placement64 e b).
Proof.
  intros Ha Hb Hs. split; [now apply finite_box64|].
  split; [now apply finite_box64|].
  pose proof (unit_pos e He) as Hk.
  unfold separated, exact_placement, placement64 in *.
  simpl. rewrite !ticks_grid by grid_side.
  destruct Hs as [H | [H | [H | [H | [H | H]]]]];
    [ left | right; left | do 2 right; left | do 3 right; left
    | do 4 right; left | do 5 right ];
    now apply scaled_sum_le.
Qed.

Lemma whole_pallet64 (c : PaletConfig.t) :
  B64.whole_pallet (cfg64 e c) = rect64 e (whole_pallet c).
Proof. reflexivity. Qed.

Lemma fits64 (r : FreeRectangle.t) (d : Dims) :
  small_rect r -> small_dims d ->
  B64.fits (rect64 e r) (dims64 e d) = fits r d.
Proof.
  destruct d as [[l w] h]. intros Hr Hd. unfold B64.fits, fits. cbn [dims64].
  apply can_fit64; try assumption; unfold small_dims in Hd; tauto.
Qed.

End Transfer.

(** On inputs in range the binary64 engine returns when every product
    has an orientation, and returns the pallets of the exact model. *)
Lemma pack64_total (e : Z) (orient : UrunData.t -> list Dims)
    (orient64 : B64.UrunData.t -> list B64.Dims) (c : PaletConfig.t)
    (urunler : list UrunData.t) :
  exact_range e c orient urunler -> agree e orient orient64 urunler ->
  (forall u, In u urunler -> orient64 (urun64 e u) <> []) ->
  exists pallets,
    pack_maximal_rectangles orient c urunler = Some pallets /\
    B64.pack_maximal_rectangles orient64 (cfg64 e c) (map (urun64 e) urunler)
      = Some (map (pallet64 e) pallets).
Proof.
  intros Hin Hag Hne.
  destruct (pack_total orient c urunler) as [pallets Ez].
  - intros u Hu Ho. apply (Hne u Hu). now rewrite (Hag u Hu), Ho.
  - exists pallets. split; [exact Ez|].
    rewrite (pack_maximal_rectangles64 e c orient orient64) by assumption.
    now rewrite Ez.
Qed.

Lemma in_pallet64 (e : Z) (pallets : list Pallet.t) (p64 : B64.Pallet.t) :
  In p64 (map (pallet64 e) pallets) ->
  exists p, In p pallets /\ p64 = pallet64 e p.
Proof.
  intros H. apply in_map_iff in H as (p & <- & Hp). now exists p.
Qed.

Lemma in_items64 (e : Z) (p : Pallet.t) (pl64 : B64.Placement.t) :
  In pl64 (B64.Pallet.items (pallet64 e p)) ->
  exists pl, In pl (Pallet.items p) /\ pl64 = placement64 e pl.
Proof.
  cbn [pallet64 B64.Pallet.items]. intros H.
  apply in_map_iff in H as (pl & <- & Hpl). now exists pl.
Qed.





(** Discharges [exact_range] and [agree] on concrete inputs. *)
Ltac small_concrete :=
  unfold small_cfg, small_dims, small; simpl; repeat split; lia.

Ltac exact_range_concrete :=
  split; [unfold unit_ok; lia|]; split; [small_concrete|];
  let u := fresh "u" in
  let H := fresh "H" in
  intros u H; simpl in H;
  repeat (destruct H as [<- | H];
          [split; [small_concrete | repeat constructor; small_concrete]|]);
  contradiction H.

(** Discharges [forall u, In u urunler -> f u <> []] on a concrete list. *)
Ltac nonempty_concrete :=
  let u := fresh "u" in
  let H := fresh "H" in
  let E := fresh "E" in
  intros u H; simpl in H;
  repeat (destruct H as [<- | H]; [intros E; vm_compute in E; discriminate E|]);
  contradiction H.

Ltac agree_concrete :=
  let u := fresh "u" in
  let H := fresh "H" in
  intros u H; simpl in H;
  repeat (destruct H as [<- | H]; [vm_compute; reflexivity|]);
  contradiction H.


Lemma nth_error_items64 (e : Z) (p : Pallet.t) (i : nat)
    (a64 : B64.Placement.t) :
  nth_error (B64.Pallet.items (pallet64 e p)) i = Some a64 ->
  exists a, nth_error (Pallet.items p) i = Some a /\ a64 = placement64 e a.
Proof.
  cbn [pallet64 B64.Pallet.items]. rewrite nth_error_map.
  destruct (nth_error (Pallet.items p) i) as [a|]; [|discriminate].
  intros H. injection H as <-. now exists a.
Qed.




(* ================================================================== *)
(** ** The binary64 engine on any floats: one iteration                *)
(* ================================================================== *)

(** [0.0 + a] compares as [a] does. *)
Lemma zero_add_gt (a x : float) : B64.gt (0 + a) x = B64.gt a x.
Proof.
  unfold B64.gt. rewrite !ltb_spec, add_spec.
  change (Prim2SF 0) with (S754_zero false).
  destruct (Prim2SF a) as [[|] | [|] | | s m ex];
    destruct (Prim2SF x) as [[|] | [|] | | [|] m' ex']; reflexivity.
Qed.

Lemma emit_new_pallet64 (pallets : list B64.Pallet.t) (c : B64.PaletConfig.t) :
  B64.emit pallets (B64.new_pallet c) = pallets.
Proof. reflexivity. Qed.

(** What one iteration of the binary64 loop does: the product goes on
    the open pallet, whose weight test did not fire, or on a fresh
    pallet, the open one being emitted when it has items. *)
Lemma pack_step_cases64 (orient64 : B64.UrunData.t -> list B64.Dims)
    (c : B64.PaletConfig.t) (pallets : list B64.Pallet.t)
    (cur : B64.CurrentPallet.t) (urun : B64.UrunData.t) (st' : B64.State) :
  B64.pack_step orient64 c (pallets, cur) urun = Some st' ->
  (B64.gt (B64.CurrentPallet.weight cur + B64.UrunData.agirlik urun)
          (B64.PaletConfig.max_weight c) = false /\
   exists rect dims, st' = (pallets, B64.place cur urun rect dims)) \/
  (exists rect dims,
     st' = (B64.emit pallets cur,
            B64.place (B64.new_pallet c) urun rect dims)).
Proof.
  unfold B64.pack_step.
  destruct (B64.gt (B64.CurrentPallet.weight cur + B64.UrunData.agirlik urun)
                   (B64.PaletConfig.max_weight c)) eqn:Ew.
  - intros H. right.
    destruct (fst (B64.search_current (orient64 urun)
                     (B64.CurrentPallet.free_rects (B64.new_pallet c))))
      as [[r d]|].
    + injection H as <-. eauto.
    + rewrite emit_new_pallet64 in H. cbn [B64.new_pallet
        B64.CurrentPallet.free_rects] in H.
      destruct (fst (B64.search_fresh (orient64 urun) _)) as [[r d]|].
      * injection H as <-. eauto.
      * destruct (orient64 urun) as [|d rest]; [discriminate|].
        injection H as <-. eauto.
  - intros H.
    destruct (fst (B64.search_current (orient64 urun)
                     (B64.CurrentPallet.free_rects cur))) as [[r d]|].
    + injection H as <-. left. split; [reflexivity | eauto].
    + right. cbn [B64.new_pallet B64.CurrentPallet.free_rects] in H.
      destruct (fst (B64.search_fresh (orient64 urun) _)) as [[r d]|].
      * injection H as <-. eauto.
      * destruct (orient64 urun) as [|d rest]; [discriminate|].
        injection H as <-. eauto.
Qed.

Lemma place_items64 (cur : B64.CurrentPallet.t) (urun : B64.UrunData.t)
    (rect : B64.FreeRectangle.t) (dims : B64.Dims) :
  exists pl, B64.Placement.urun pl = urun /\
    B64.CurrentPallet.items (B64.place cur urun rect dims)
    = B64.CurrentPallet.items cur ++ [pl].
Proof.
  destruct dims as [[l w] h].
  exists (B64.Placement.mk urun (B64.FreeRectangle.x rect)
            (B64.FreeRectangle.y rect) (B64.FreeRectangle.z rect) l w h).
  split; reflexivity.
Qed.

Lemma place_weight64 (cur : B64.CurrentPallet.t) (urun : B64.UrunData.t)
    (rect : B64.FreeRectangle.t) (dims : B64.Dims) :
  B64.CurrentPallet.weight (B64.place cur urun rect dims)
  = (B64.CurrentPallet.weight cur + B64.UrunData.agirlik urun)%float.
Proof. destruct dims as [[l w] h]. reflexivity. Qed.

Lemma items_weight64_snoc (items : list B64.Placement.t) (pl : B64.Placement.t) :
  B64.items_weight (items ++ [pl])
  = (B64.items_weight items + B64.UrunData.agirlik (B64.Placement.urun pl))%float.
Proof. unfold B64.items_weight. now rewrite fold_left_app. Qed.

(** The binary64 packer returns when every product has an
    orientation, whatever the floats. *)
Lemma pack_step_total64 (orient64 : B64.UrunData.t -> list B64.Dims)
    (c : B64.PaletConfig.t) (st : B64.State) (urun : B64.UrunData.t) :
  orient64 urun <> [] ->
  exists st', B64.pack_step orient64 c st urun = Some st'.
Proof.
  intros Hne. destruct st as [pallets cur]. unfold B64.pack_step.
  destruct (B64.gt _ _);
    (destruct (fst (B64.search_current _ _)) as [[r d]|]; [eauto|]);
    cbn [B64.new_pallet B64.CurrentPallet.free_rects];
    (destruct (fst (B64.search_fresh _ _)) as [[r d]|]; [eauto|]);
    (destruct (orient64 urun); [congruence | eauto]).
Qed.

Lemma pack_total64 (orient64 : B64.UrunData.t -> list B64.Dims)
    (c : B64.PaletConfig.t) (urunler : list B64.UrunData.t) :
  (forall u, In u urunler -> orient64 u <> []) ->
  exists pallets, B64.pack_maximal_rectangles orient64 c urunler = Some pallets.
Proof.
  intros Hne. unfold B64.pack_maximal_rectangles.
  assert (Hloop : forall us st,
            (forall u, In u us -> orient64 u <> []) ->
            exists st', B64.pack_loop orient64 c us st = Some st').
  { induction us as [|u rest IH]; intros st Hus; cbn [B64.pack_loop];
      [eauto|].
    destruct (pack_step_total64 orient64 c st u) as [st1 E].
    - apply Hus. now left.
    - rewrite E. apply IH. intros v Hv. apply Hus. now right. }
  destruct (Hloop urunler ([], B64.new_pallet c) Hne) as [[ps cur] E].
  rewrite E. eauto.
Qed.

(** The shape shared by the per-pallet properties of the binary64
    packer: [R] is kept by the open pallet and gives [Q] for the pallet
    whenever it is emitted. *)
Lemma pack_result_invariant64 (orient64 : B64.UrunData.t -> list B64.Dims)
    (c : B64.PaletConfig.t) (good : B64.UrunData.t -> Prop)
    (Q : B64.Pallet.t -> Prop) (R : B64.CurrentPallet.t -> Prop)
    (urunler : list B64.UrunData.t) (pallets : list B64.Pallet.t) :
  R (B64.new_pallet c) ->
  (forall cur, R cur -> B64.CurrentPallet.items cur <> [] ->
     Q (B64.Pallet.mk (B64.CurrentPallet.items cur)
                      (B64.CurrentPallet.weight cur))) ->
  (forall cur u rect dims,
     good u -> R cur ->
     B64.gt (B64.CurrentPallet.weight cur + B64.UrunData.agirlik u)
            (B64.PaletConfig.max_weight c) = false ->
     R (B64.place cur u rect dims)) ->
  (forall u rect dims,
     good u -> R (B64.place (B64.new_pallet c) u rect dims)) ->
  Forall good urunler ->
  B64.pack_maximal_rectangles orient64 c urunler = Some pallets ->
  Forall Q pallets.
Proof.
  intros Hnew Hemit Hkeep Hfresh Hgood.
  assert (Hemit' : forall ps cur,
            Forall Q ps -> R cur -> Forall Q (B64.emit ps cur)).
  { intros ps cur HQ HR. unfold B64.emit.
    destruct (B64.CurrentPallet.items cur) eqn:E; [exact HQ|].
    apply Forall_app. split; [exact HQ|]. constructor; [|constructor].
    rewrite <- E. apply Hemit; [exact HR | congruence]. }
  assert (Hloop : forall us ps cur st',
            Forall good us -> Forall Q ps -> R cur ->
            B64.pack_loop orient64 c us (ps, cur) = Some st' ->
            Forall Q (fst st') /\ R (snd st')).
  { induction us as [|u rest IH]; intros ps cur st' Hg HQ HR;
      cbn [B64.pack_loop].
    - intros H. injection H as <-. now split.
    - destruct (B64.pack_step orient64 c (ps, cur) u) as [st1|] eqn:E;
        [|discriminate].
      inversion Hg as [|? ? Hu Hrest]; subst.
      apply pack_step_cases64 in E
        as [[Ew (rect & dims & ->)] | (rect & dims & ->)];
        apply IH; auto. }
  unfold B64.pack_maximal_rectangles.
  destruct (B64.pack_loop orient64 c urunler ([], B64.new_pallet c))
    as [[ps cur]|] eqn:E; [|discriminate].
  intros H. injection H as <-.
  destruct (Hloop urunler [] (B64.new_pallet c) (ps, cur) Hgood
              (Forall_nil Q) Hnew E) as [HQ HR].
  now apply Hemit'.
Qed.

(* ================================================================== *)
(** ** Weights in the binary64 packer                                  *)
(* ================================================================== *)

(** On any floats: the weight field is the running sum of the weights,
    and it passed the weight test unless the pallet holds one product
    that fails the test alone. *)
Lemma pack_weights64 (orient64 : B64.UrunData.t -> list B64.Dims)
    (c : B64.PaletConfig.t) (urunler : list B64.UrunData.t)
    (pallets : list B64.Pallet.t) :
  B64.pack_maximal_rectangles orient64 c urunler = Some pallets ->
  forall p, In p pallets ->
    B64.Pallet.weight p = B64.items_weight (B64.Pallet.items p) /\
    (B64.gt (B64.Pallet.weight p) (B64.PaletConfig.max_weight c) = false \/
     exists pl, B64.Pallet.items p = [pl]).
Proof.
  intros E.
  assert (HQ : Forall (fun p =>
    B64.Pallet.weight p = B64.items_weight (B64.Pallet.items p) /\
    (B64.gt (B64.Pallet.weight p) (B64.PaletConfig.max_weight c) = false \/
     exists pl, B64.Pallet.items p = [pl])) pallets).
  { apply (pack_result_invariant64 orient64 c (fun _ => True) _
             (fun cur =>
                B64.CurrentPallet.weight cur
                  = B64.items_weight (B64.CurrentPallet.items cur) /\
                (B64.gt (B64.CurrentPallet.weight cur)
                        (B64.PaletConfig.max_weight c) = false \/
                 B64.CurrentPallet.items cur = [] \/
                 exists pl, B64.CurrentPallet.items cur = [pl]))
             urunler pallets); try assumption.
    - split; [reflexivity | right; now left].
    - intros cur [Hw [Hcap | [He | Hone]]] Hne; cbn [B64.Pallet.weight
        B64.Pallet.items]; (split; [exact Hw|]); auto. contradiction.
    - intros cur u rect dims _ [Hw _] Ew.
      destruct (place_items64 cur u rect dims) as (pl & Hu & Hitems).
      rewrite Hitems, place_weight64, items_weight64_snoc, Hu, Hw.
      split; [reflexivity|]. left. now rewrite <- Hw.
    - intros u rect dims _.
      destruct (place_items64 (B64.new_pallet c) u rect dims)
        as (pl & Hu & Hitems).
      rewrite Hitems, place_weight64. cbn [B64.new_pallet
        B64.CurrentPallet.items B64.CurrentPallet.weight app].
      split; [|right; right; now exists pl].
      unfold B64.items_weight. cbn [fold_left]. now rewrite Hu.
    - apply Forall_forall. trivial. }
  intros p Hp. rewrite Forall_forall in HQ. exact (HQ p Hp).
Qed.

(** The dichotomy of the weight cap, on any floats. *)
Lemma pack_cap64 (orient64 : B64.UrunData.t -> list B64.Dims)
    (c : B64.PaletConfig.t) (urunler : list B64.UrunData.t)
    (pallets : list B64.Pallet.t) :
  B64.pack_maximal_rectangles orient64 c urunler = Some pallets ->
  forall p, In p pallets ->
    B64.gt (B64.Pallet.weight p) (B64.PaletConfig.max_weight c) = false \/
    exists pl, B64.Pallet.items p = [pl] /\
      B64.gt (B64.UrunData.agirlik (B64.Placement.urun pl))
             (B64.PaletConfig.max_weight c) = true.
Proof.
  intros E p Hp.
  destruct (pack_weights64 orient64 c urunler pallets E p Hp)
    as [Hw [Hcap | [pl Hone]]]; [now left|].
  destruct (B64.gt (B64.Pallet.weight p) (B64.PaletConfig.max_weight c))
    eqn:Ecap; [|now left].
  right. exists pl. split; [exact Hone|].
  rewrite Hw, Hone in Ecap. unfold B64.items_weight in Ecap.
  cbn [fold_left] in Ecap. now rewrite zero_add_gt in Ecap.
Qed.

(** On weights that are whole numbers of units the running sum is
    exact. *)
Lemma pack_weights_exact64 (e : Z)
    (orient64 : B64.UrunData.t -> list B64.Dims)
    (c : B64.PaletConfig.t) (urunler : list B64.UrunData.t)
    (pallets : list B64.Pallet.t) :
  unit_ok e -> on_grid e (B64.PaletConfig.max_weight c) ->
  (forall u, In u urunler -> on_grid e (B64.UrunData.agirlik u)) ->
  B64.pack_maximal_rectangles orient64 c urunler = Some pallets ->
  forall p, In p pallets ->
    (exists n, small n /\ B64.Pallet.weight p = grid e n /\
               exact_items_weight (B64.Pallet.items p) = n * 2 ^ (e + 1074)) /\
    forall pl, In pl (B64.Pallet.items p) ->
      on_grid e (B64.UrunData.agirlik (B64.Placement.urun pl)).
Proof.
  intros He (m & Hm & Em) Hus E.
  set (R := fun (items : list B64.Placement.t) (w : float) =>
    (exists n, small n /\ w = grid e n /\
               exact_items_weight items = n * 2 ^ (e + 1074)) /\
    forall pl, In pl items ->
      on_grid e (B64.UrunData.agirlik (B64.Placement.urun pl))).
  assert (Hsnoc : forall items n k pl,
            R items (grid e n) -> small n -> small k -> small (n + k) ->
            B64.UrunData.agirlik (B64.Placement.urun pl) = grid e k ->
            R (items ++ [pl]) (grid e n + grid e k)%float).
  { intros items n k pl [(n' & Hn' & En' & Hsum) Hgrid] Hn Hk Hnk Epl.
    apply grid_inj in En'; try assumption; try now apply small_rep.
    subst n'. split.
    - exists (n + k). split; [exact Hnk|]. split.
      + apply grid_add; auto using small_rep.
      + unfold exact_items_weight in *. rewrite map_app. cbn [map].
        rewrite items_weight_snoc, Hsum.
        cbn [exact_placement Placement.urun exact_urun UrunData.agirlik].
        rewrite Epl, ticks_grid by auto using small_rep. lia.
    - intros a Ha. apply in_app_iff in Ha as [Ha | [<- | []]]; auto.
      now exists k. }
  assert (HQ : Forall (fun p =>
                 R (B64.Pallet.items p) (B64.Pallet.weight p)) pallets).
  { apply (pack_result_invariant64 orient64 c
             (fun u => on_grid e (B64.UrunData.agirlik u)) _
             (fun cur => R (B64.CurrentPallet.items cur)
                           (B64.CurrentPallet.weight cur))
             urunler pallets); try assumption.
    - split; [|intros pl []]. exists 0. unfold small. repeat split; lia.
    - intros cur HR _. exact HR.
    - intros cur u rect dims (k & Hk & Ek) HR Ew.
      destruct (place_items64 cur u rect dims) as (pl & Hu & Hitems).
      rewrite Hitems, place_weight64.
      pose proof HR as [(n & Hn & En & Hsum) _].
      rewrite En in *. rewrite Ek, Em in *.
      unfold B64.gt in Ew.
      assert (Hnk : rep (n + k)) by (unfold small, rep in *; lia).
      rewrite grid_add, grid_ltb in Ew
        by (auto using small_rep).
      apply Z.ltb_ge in Ew.
      apply Hsnoc; auto; [unfold small in *; lia | now rewrite Hu].
    - intros u rect dims (k & Hk & Ek).
      destruct (place_items64 (B64.new_pallet c) u rect dims)
        as (pl & Hu & Hitems).
      rewrite Hitems, place_weight64. cbn [B64.new_pallet
        B64.CurrentPallet.items B64.CurrentPallet.weight].
      rewrite Ek. change 0%float with (grid e 0).
      apply Hsnoc; auto.
      + split; [|intros a []]. exists 0. unfold small. repeat split; lia.
      + unfold small. lia.
      + now rewrite Hu.
    - apply Forall_forall. exact Hus. }
  intros p Hp. rewrite Forall_forall in HQ. exact (HQ p Hp).
Qed.

Ltac on_grid_concrete n :=
  exists n; split; [unfold small; lia | vm_compute; reflexivity].

(** C3 (amended): every pallet returned by the binary64 packer passes
    the weight test on its [weight] field, the rounded running sum of
    the weights of its products, unless it holds a single product that
    is itself heavier than [max_weight].  When the weights and the cap
    are whole numbers of units [2^e], below [2^51] units, the same holds
    of the exact sum of the weights. *)
Theorem pallet_weight_within_cap
    (orient64 : B64.UrunData.t -> list B64.Dims)
    (palet_cfg : B64.PaletConfig.t) (urunler : list B64.UrunData.t) :
  (forall u, In u urunler -> orient64 u <> []) ->
  exists pallets,
    B64.pack_maximal_rectangles orient64 palet_cfg urunler = Some pallets /\
    forall p, In p pallets ->
      (B64.gt (B64.Pallet.weight p) (B64.PaletConfig.max_weight palet_cfg)
         = false \/
       exists pl, B64.Pallet.items p = [pl] /\
         B64.gt (B64.UrunData.agirlik (B64.Placement.urun pl))
                (B64.PaletConfig.max_weight palet_cfg) = true) /\
      forall e,
        unit_ok e -> on_grid e (B64.PaletConfig.max_weight palet_cfg) ->
        (forall u, In u urunler -> on_grid e (B64.UrunData.agirlik u)) ->
        exact_items_weight (B64.Pallet.items p)
          <= ticks (B64.PaletConfig.max_weight palet_cfg) \/
        exists pl, B64.Pallet.items p = [pl] /\
          ticks (B64.PaletConfig.max_weight palet_cfg)
            < ticks (B64.UrunData.agirlik (B64.Placement.urun pl)).
Proof.
  intros Hne.
  destruct (pack_total64 orient64 palet_cfg urunler Hne) as [pallets E].
  exists pallets. split; [exact E|].
  intros p Hp.
  pose proof (pack_cap64 orient64 palet_cfg urunler pallets E p Hp) as Hcap.
  split; [exact Hcap|].
  intros e He Hmax Hus.
  destruct (pack_weights_exact64 e orient64 palet_cfg urunler pallets
              He Hmax Hus E p Hp) as [(n & Hn & En & Hsum) Hgrid].
  destruct Hmax as (m & Hm & Em).
  pose proof (unit_pos e He) as Hk.
  destruct Hcap as [Hle | (pl & Hone & Hgt)].
  - left. rewrite Hsum, Em, ticks_grid by auto using small_rep.
    rewrite En, Em in Hle. unfold B64.gt in Hle.
    rewrite grid_ltb in Hle by auto using small_rep.
    apply Z.ltb_ge in Hle. now apply scaled_le.
  - right. exists pl. split; [exact Hone|].
    destruct (Hgrid pl) as (k & Hk' & Ek); [rewrite Hone; now left|].
    rewrite Ek, Em in *. unfold B64.gt in Hgt.
    rewrite grid_ltb in Hgt by auto using small_rep.
    apply Z.ltb_lt in Hgt.
    rewrite !ticks_grid by auto using small_rep.
    apply Z.mul_lt_mono_pos_r; assumption.
Qed.

Lemma pallet_weight_within_cap_witness :
  exact_items_weight
    (map (placement64 0) [Placement.mk urun_cube 0 0 0 10 10 10;
                          Placement.mk urun_bar 10 0 0 20 10 10])
    <= ticks (grid 0 1000).
Proof.
  destruct (pallet_weight_within_cap B64.spec_orientations
              (cfg64 0 cfg_30_20_10) (map (urun64 0) [urun_cube; urun_bar])
              ltac:(nonempty_concrete)) as (pallets & E & H).
  vm_compute in E. injection E as <-.
  destruct (proj2 (H (pallet64 0
              (Pallet.mk [Placement.mk urun_cube 0 0 0 10 10 10;
                          Placement.mk urun_bar 10 0 0 20 10 10] 2))
                     ltac:(left; reflexivity))
             0 ltac:(unfold unit_ok; lia) ltac:(on_grid_concrete 1000))
    as [Hle | (pl & Hone & _)].
  - intros u Hu. simpl in Hu.
    destruct Hu as [<- | [<- | []]]; on_grid_concrete 1.
  - exact Hle.
  - discriminate Hone.
Defined.

(** C10, as stated, fails: with products of [2^53], 1 and 1 kg on one
    pallet the running sum stays at [2^53], while the weights add up to
    [2^53 + 2]. *)
Lemma rounded_weight_is_not_the_sum :
  exists p,
    B64.pack_maximal_rectangles B64.spec_orientations (cfg64 0 cfg_strong)
      (map (urun64 0) [urun_heavy; urun_kilo_a; urun_kilo_b]) = Some [p] /\
    List.length (B64.Pallet.items p) = 3%nat /\
    is_finite (B64.Pallet.weight p) = true /\
    Forall (fun pl => is_finite
                        (B64.UrunData.agirlik (B64.Placement.urun pl)) = true)
           (B64.Pallet.items p) /\
    ticks (B64.Pallet.weight p) <> exact_items_weight (B64.Pallet.items p).
Proof.
  eexists. split; [vm_compute; reflexivity|].
  split; [reflexivity|]. split; [vm_compute; reflexivity|].
  split; [repeat constructor|].
  vm_compute. discriminate.
Qed.

(** C10 (amended): the [weight] field of every pallet returned by the
    binary64 packer is the running sum [((0.0 + w1) + w2) + ...] of the
    [agirlik] of the products in its items, each addition rounded.  When
    the weights and the cap are whole numbers of units [2^e], below
    [2^51] units, no addition rounds and the field is the exact sum. *)
Theorem pallet_weight_is_sum
    (orient64 : B64.UrunData.t -> list B64.Dims)
    (palet_cfg : B64.PaletConfig.t) (urunler : list B64.UrunData.t) :
  (forall u, In u urunler -> orient64 u <> []) ->
  exists pallets,
    B64.pack_maximal_rectangles orient64 palet_cfg urunler = Some pallets /\
    forall p, In p pallets ->
      B64.Pallet.weight p = B64.items_weight (B64.Pallet.items p) /\
      forall e,
        unit_ok e -> on_grid e (B64.PaletConfig.max_weight palet_cfg) ->
        (forall u, In u urunler -> on_grid e (B64.UrunData.agirlik u)) ->
        is_finite (B64.Pallet.weight p) = true /\
        ticks (B64.Pallet.weight p) = exact_items_weight (B64.Pallet.items p).
Proof.
  intros Hne.
  destruct (pack_total64 orient64 palet_cfg urunler Hne) as [pallets E].
  exists pallets. split; [exact E|].
  intros p Hp.
  split; [exact (proj1 (pack_weights64 orient64 palet_cfg urunler pallets
                          E p Hp))|].
  intros e He Hmax Hus.
  destruct (pack_weights_exact64 e orient64 palet_cfg urunler pallets
              He Hmax Hus E p Hp) as [(n & Hn & En & Hsum) _].
  rewrite En, Hsum. split.
  - apply is_finite_grid; auto using small_rep.
  - apply ticks_grid; auto using small_rep.
Qed.

Lemma pallet_weight_is_sum_witness :
  ticks (grid 0 2)
  = exact_items_weight
      (map (placement64 0) [Placement.mk urun_cube 0 0 0 10 10 10;
                            Placement.mk urun_bar 10 0 0 20 10 10]).
Proof.
  destruct (pallet_weight_is_sum B64.spec_orientations
              (cfg64 0 cfg_30_20_10) (map (urun64 0) [urun_cube; urun_bar])
              ltac:(nonempty_concrete)) as (pallets & E & H).
  vm_compute in E. injection E as <-.
  refine (proj2 (proj2 (H (pallet64 0
              (Pallet.mk [Placement.mk urun_cube 0 0 0 10 10 10;
                          Placement.mk urun_bar 10 0 0 20 10 10] 2))
                          ltac:(left; reflexivity))
                   0 ltac:(unfold unit_ok; lia)
                   ltac:(on_grid_concrete 1000) _)).
  intros u Hu. simpl in Hu.
  destruct Hu as [<- | [<- | []]]; on_grid_concrete 1.
Defined.

(** X4: a pallet returned by the binary64 packer that holds two or more
    products passes the weight test on its [weight] field, whatever the
    weights; when the weights and the cap are whole numbers of units
    [2^e], below [2^51] units, the exact sum of its weights is at most
    [max_weight]. *)
Theorem shared_pallet_within_cap
    (orient64 : B64.UrunData.t -> list B64.Dims)
    (palet_cfg : B64.PaletConfig.t) (urunler : list B64.UrunData.t) :
  (forall u, In u urunler -> orient64 u <> []) ->
  exists pallets,
    B64.pack_maximal_rectangles orient64 palet_cfg urunler = Some pallets /\
    forall p, In p pallets ->
      (2 <= List.length (B64.Pallet.items p))%nat ->
      B64.gt (B64.Pallet.weight p) (B64.PaletConfig.max_weight palet_cfg)
        = false /\
      forall e,
        unit_ok e -> on_grid e (B64.PaletConfig.max_weight palet_cfg) ->
        (forall u, In u urunler -> on_grid e (B64.UrunData.agirlik u)) ->
        exact_items_weight (B64.Pallet.items p)
          <= ticks (B64.PaletConfig.max_weight palet_cfg).
Proof.
  intros Hne.
  destruct (pack_total64 orient64 palet_cfg urunler Hne) as [pallets E].
  exists pallets. split; [exact E|].
  intros p Hp Hlen.
  assert (Hle : B64.gt (B64.Pallet.weight p)
                       (B64.PaletConfig.max_weight palet_cfg) = false).
  { destruct (pack_weights64 orient64 palet_cfg urunler pallets E p Hp)
      as [_ [Hle | [pl Hone]]]; [exact Hle|].
    rewrite Hone in Hlen. simpl in Hlen. lia. }
  split; [exact Hle|].
  intros e He Hmax Hus.
  destruct (pack_weights_exact64 e orient64 palet_cfg urunler pallets
              He Hmax Hus E p Hp) as [(n & Hn & En & Hsum) _].
  destruct Hmax as (m & Hm & Em).
  rewrite Hsum, Em, ticks_grid by auto using small_rep.
  rewrite En, Em in Hle. unfold B64.gt in Hle.
  rewrite grid_ltb in Hle by auto using small_rep.
  apply Z.ltb_ge in Hle. apply scaled_le; [now apply unit_pos | exact Hle].
Qed.

Lemma shared_pallet_within_cap_witness :
  B64.gt (grid 0 2) (grid 0 1000) = false.
Proof.
  destruct (shared_pallet_within_cap B64.spec_orientations
              (cfg64 0 cfg_30_20_10) (map (urun64 0) [urun_cube; urun_bar])
              ltac:(nonempty_concrete)) as (pallets & E & H).
  vm_compute in E. injection E as <-.
  refine (proj1 (H (pallet64 0
              (Pallet.mk [Placement.mk urun_cube 0 0 0 10 10 10;
                          Placement.mk urun_bar 10 0 0 20 10 10] 2))
                   ltac:(left; reflexivity) _)).
  simpl. lia.
Defined.

(* ================================================================== *)
(** ** Further properties of the binary64 packer                       *)
(* ================================================================== *)

(** Only the first placement of a pallet can stick out, in the exact
    model, for a run that returns. *)
Lemma pack_later_in_bounds (orient : UrunData.t -> list Dims)
    (c : PaletConfig.t) (urunler : list UrunData.t) (pallets : list Pallet.t) :
  pack_maximal_rectangles orient c urunler = Some pallets ->
  forall p, In p pallets ->
    (forall pl, In pl (Pallet.items p) ->
       0 <= Placement.x pl /\ 0 <= Placement.y pl /\ 0 <= Placement.z pl) /\
    (forall i pl, nth_error (Pallet.items p) (S i) = Some pl ->
       in_bounds c pl).
Proof.
  intros E.
  set (nonneg := fun pl : Placement.t =>
    0 <= Placement.x pl /\ 0 <= Placement.y pl /\ 0 <= Placement.z pl).
  set (good := fun items : list Placement.t =>
    (forall pl, In pl items -> nonneg pl) /\
    (forall i pl, nth_error items (S i) = Some pl -> in_bounds c pl)).
  assert (Hsnoc : forall items pl,
             good items -> in_bounds c pl -> good (items ++ [pl])).
  { intros items pl [H1 H2] Hb. split.
    - intros a Ha. apply in_app_iff in Ha as [Ha | [<- | []]]; auto.
      unfold nonneg, in_bounds in *. tauto.
    - intros i a Hnth. apply nth_error_snoc in Hnth as [Hnth | [_ ->]]; eauto. }
  assert (Hnil : good []).
  { split; [intros pl [] | intros [|i] pl H; discriminate]. }
  assert (HQ : Forall (fun p => good (Pallet.items p)) pallets).
  { apply (pack_result_invariant orient c (fun _ => True) _
             (fun cur =>
                (forall r, In r (CurrentPallet.free_rects cur) ->
                           rect_in_bounds c r) /\
                good (CurrentPallet.items cur))
             urunler pallets); try assumption.
    - split; [|exact Hnil].
      intros r [<- | []]. apply rect_in_bounds_whole.
    - intros cur [_ H] _. exact H.
    - intros ps cur u st' _ [Hrects Hgood] HS.
      assert (Hnew : forall r,
                In r (CurrentPallet.free_rects (new_pallet c)) ->
                rect_in_bounds c r).
      { intros r [<- | []]. apply rect_in_bounds_whole. }
      destruct HS as [rect [[l w] h] Hw Hr Hd Hf | [[l w] h] Hd Hf
                     | [[l w] h] rest Ho Hnone];
        cbn [snd]; (split; [now apply place_rects_in_bounds|]);
        rewrite place_items.
      + apply Hsnoc; [exact Hgood|]. apply fitted_in_bounds; auto.
      + apply Hsnoc; [exact Hnil|].
        apply fitted_in_bounds; [apply rect_in_bounds_whole | exact Hf].
      + simpl. split.
        * intros pl [<- | []]. unfold nonneg. simpl. lia.
        * intros [|i] pl H; discriminate.
    - apply Forall_forall. trivial. }
  intros p Hp. rewrite Forall_forall in HQ. exact (HQ p Hp).
Qed.

(** X2: when every size and weight is a whole number of units [2^e],
    below [2^51] units, no placement of the binary64 packer has a
    negative coordinate, and every placement that is not the first of
    its pallet lies inside the pallet cuboid, on the exact values of the
    floats: only the first item of a pallet can stick out. *)
Theorem later_placements_in_bounds (e : Z) (orient : UrunData.t -> list Dims)
    (orient64 : B64.UrunData.t -> list B64.Dims) (palet_cfg : PaletConfig.t)
    (urunler : list UrunData.t) :
  exact_range e palet_cfg orient urunler ->
  agree e orient orient64 urunler ->
  (forall u, In u urunler -> orient64 (urun64 e u) <> []) ->
  exists pallets,
    B64.pack_maximal_rectangles orient64 (cfg64 e palet_cfg)
      (map (urun64 e) urunler) = Some pallets /\
    forall p, In p pallets ->
      (forall pl, In pl (B64.Pallet.items p) ->
         finite_box pl /\ 0 <= ticks (B64.Placement.x pl) /\
         0 <= ticks (B64.Placement.y pl) /\
         0 <= ticks (B64.Placement.z pl)) /\
      (forall i pl, nth_error (B64.Pallet.items p) (S i) = Some pl ->
         in_bounds64 (cfg64 e palet_cfg) pl).
Proof.
  intros Hin Hag Hne.
  pose proof Hin as (He & Hc & Hus).
  destruct (pack64_total e orient orient64 palet_cfg urunler Hin Hag Hne)
    as (zpallets & Ez & E).
  exists (map (pallet64 e) zpallets). split; [exact E|].
  intros p64 Hp.
  apply in_pallet64 in Hp as (p & Hp & ->).
  destruct (pack_small e orient palet_cfg urunler zpallets Hin Ez p Hp)
    as [_ Hsmall].
  destruct (pack_later_in_bounds orient palet_cfg urunler zpallets Ez p Hp)
    as [Hnonneg Hlater].
  pose proof (unit_pos e He) as Hk.
  split.
  - intros pl64 Hpl. apply in_items64 in Hpl as (pl & Hpl & ->).
    split; [apply finite_box64; auto|].
    specialize (Hsmall pl Hpl). specialize (Hnonneg pl Hpl).
    cbn [placement64 B64.Placement.x B64.Placement.y B64.Placement.z].
    rewrite !ticks_grid by grid_side.
    repeat split; apply Z.mul_nonneg_nonneg; lia.
  - intros i pl64 Hnth. apply nth_error_items64 in Hnth as (pl & Hnth & ->).
    apply in_bounds64_grid; eauto.
    apply Hsmall. eapply nth_error_In; eauto.
Qed.

Lemma later_placements_in_bounds_witness :
  in_bounds64 (cfg64 0 cfg_30_20_10)
    (placement64 0 (Placement.mk urun_bar 10 0 0 20 10 10)).
Proof.
  destruct (later_placements_in_bounds 0 spec_orientations
              B64.spec_orientations cfg_30_20_10 [urun_cube; urun_bar]
              ltac:(exact_range_concrete) ltac:(agree_concrete)
              ltac:(nonempty_concrete)) as (pallets & E & H).
  vm_compute in E. injection E as <-.
  refine (proj2 (H (pallet64 0
              (Pallet.mk [Placement.mk urun_cube 0 0 0 10 10 10;
                          Placement.mk urun_bar 10 0 0 20 10 10] 2))
                   ltac:(left; reflexivity))
                0%nat _ _).
  reflexivity.
Defined.

(** Throughout a run of the exact model the free rects of the open
    pallet are inside the pallet and clear of its placements, and all
    its numbers are in range. *)
Lemma pack_loop_state (e : Z) (orient : UrunData.t -> list Dims)
    (c : PaletConfig.t) (urunler : list UrunData.t) (st' : State) :
  exact_range e c orient urunler ->
  pack_loop orient c urunler ([], new_pallet c) = Some st' ->
  sound_pallet c (snd st') /\
  (forall pl, In pl (CurrentPallet.items (snd st')) -> small_box pl) /\
  (forall r pl, In r (CurrentPallet.free_rects (snd st')) ->
                In pl (CurrentPallet.items (snd st')) ->
                intersects_placement r pl = false).
Proof.
  intros (He & Hc & Hus) E.
  pose proof (sound_rect_small c _ Hc (sound_rect_whole c Hc)) as Hwhole.
  enough (H : sound_pallet c (snd st') /\
              (forall pl, In pl (CurrentPallet.items (snd st')) ->
                          small_box pl) /\
              (pairwise_separated (CurrentPallet.items (snd st')) /\
               forall r pl, In r (CurrentPallet.free_rects (snd st')) ->
                            In pl (CurrentPallet.items (snd st')) ->
                            intersects_placement r pl = false))
    by (destruct H as (H1 & H2 & _ & H3); auto).
  revert E.
  apply (pack_loop_invariant orient c
           (fun u => small (UrunData.agirlik u) /\ Forall small_dims (orient u))
           (fun st =>
              sound_pallet c (snd st) /\
              (forall pl, In pl (CurrentPallet.items (snd st)) -> small_box pl) /\
              (pairwise_separated (CurrentPallet.items (snd st)) /\
               forall r pl, In r (CurrentPallet.free_rects (snd st)) ->
                            In pl (CurrentPallet.items (snd st)) ->
                            intersects_placement r pl = false))).
  - intros ps cur u st1 [Hu Ho] (Hcur & Hitems & Hsep) HS. cbn [snd] in *.
    split; [eapply Step_sound; eauto|].
    split; [|exact (Step_separation _ _ _ _ _ _ Hsep HS)].
    assert (Hbox : forall rect l w h,
              small_rect rect -> small_dims (l, w, h) ->
              small_box (Placement.mk u (FreeRectangle.x rect)
                           (FreeRectangle.y rect) (FreeRectangle.z rect)
                           l w h)).
    { intros rect l w h Hr Hd.
      unfold small_box, small_rect, small_dims in *. simpl. tauto. }
    rewrite Forall_forall in Ho.
    destruct HS as [rect [[l w] h] Hcap Hr Hd Hf | [[l w] h] Hd Hf
                   | [[l w] h] rest Hor Hnone];
      cbn [snd]; intros pl; rewrite place_items; intros Hin;
      apply in_app_iff in Hin as [Hin | [<- | []]];
      try (now apply Hitems); try contradiction.
    + apply Hbox; [|now apply Ho].
      destruct Hcur as [Hrects _]. rewrite Forall_forall in Hrects.
      apply (sound_rect_small c); auto.
    + apply Hbox; [exact Hwhole | now apply Ho].
    + apply Hbox; [exact Hwhole|]. apply Ho. rewrite Hor. now left.
  - apply Forall_forall. exact Hus.
  - cbn [snd]. split; [now apply sound_new_pallet|].
    split; [intros pl []|].
    split; [apply pairwise_separated_nil | intros r pl _ []].
Qed.

Lemma rect_in_bounds64_grid (e : Z) (c : PaletConfig.t) (r : FreeRectangle.t) :
  unit_ok e -> small_cfg c -> sound_rect c r ->
  rect_in_bounds64 (cfg64 e c) (rect64 e r).
Proof.
  intros He Hc Hr. pose proof (sound_rect_small c r Hc Hr) as Hs.
  destruct Hr as [Hin _].
  split; [now apply finite_cfg64|]. split.
  - unfold finite_rect, rect64. simpl.
    repeat split; apply is_finite_grid; grid_side.
  - pose proof (unit_pos e He) as Hk.
    unfold rect_in_bounds, exact_cfg, exact_rect, cfg64, rect64 in *.
    simpl. rewrite !ticks_grid by grid_side.
    destruct Hin as (H1 & H2 & H3 & H4 & H5 & H6).
    repeat split;
      try (apply Z.mul_nonneg_nonneg; lia);
      now apply scaled_sum_le.
Qed.

Lemma intersects_placement_grid (e : Z) (r : FreeRectangle.t)
    (pl : Placement.t) :
  unit_ok e -> small_rect r -> small_box pl ->
  intersects_placement r pl = false ->
  intersects_placement (exact_rect (rect64 e r))
                       (exact_placement (placement64 e pl)) = false.
Proof.
  intros He Hr Hb. rewrite !intersects_placement_false.
  pose proof (unit_pos e He) as Hk.
  unfold exact_rect, exact_placement, rect64, placement64. simpl.
  rewrite !ticks_grid by grid_side.
  intros [H | [H | [H | [H | [H | H]]]]];
    [ left | right; left | do 2 right; left | do 3 right; left
    | do 4 right; left | do 5 right ];
    now apply scaled_sum_le.
Qed.

(** X7: when every size and weight is a whole number of units [2^e],
    below [2^51] units, then throughout a run of the binary64 packer
    every free rect of the open pallet lies inside the pallet cuboid and
    meets none of the boxes placed on the open pallet, on the exact
    values of the floats. *)
Theorem free_rects_inside_and_clear (e : Z) (orient : UrunData.t -> list Dims)
    (orient64 : B64.UrunData.t -> list B64.Dims) (palet_cfg : PaletConfig.t)
    (urunler : list UrunData.t) (st' : B64.State) :
  exact_range e palet_cfg orient urunler ->
  agree e orient orient64 urunler ->
  B64.pack_loop orient64 (cfg64 e palet_cfg) (map (urun64 e) urunler)
    ([], B64.new_pallet (cfg64 e palet_cfg)) = Some st' ->
  forall r, In r (B64.CurrentPallet.free_rects (snd st')) ->
    rect_in_bounds64 (cfg64 e palet_cfg) r /\
    forall pl, In pl (B64.CurrentPallet.items (snd st')) ->
      finite_box pl /\
      intersects_placement (exact_rect r) (exact_placement pl) = false.
Proof.
  intros Hin Hag E r64 Hr.
  pose proof Hin as (He & Hc & Hus).
  rewrite new_pallet64 in E.
  change (@nil B64.Pallet.t) with (map (pallet64 e) []) in E.
  rewrite (pack_loop64 e palet_cfg orient orient64 urunler [] _ Hin Hag
             (sound_new_pallet palet_cfg Hc)) in E.
  destruct (pack_loop orient palet_cfg urunler ([], new_pallet palet_cfg))
    as [zst|] eqn:Ez; [|discriminate].
  injection E as <-.
  destruct (pack_loop_state e orient palet_cfg urunler zst Hin Ez)
    as ([Hrects _] & Hitems & Hclear).
  cbn [state64 snd current64 B64.CurrentPallet.free_rects
       B64.CurrentPallet.items] in *.
  apply in_map_iff in Hr as (r & <- & Hr).
  rewrite Forall_forall in Hrects.
  split; [apply rect_in_bounds64_grid; auto|].
  intros pl64 Hpl. apply in_map_iff in Hpl as (pl & <- & Hpl).
  split; [apply finite_box64; auto|].
  apply intersects_placement_grid; auto.
  apply (sound_rect_small palet_cfg); auto.
Qed.

Lemma free_rects_inside_and_clear_witness :
  rect_in_bounds64 (cfg64 0 cfg_30_20_10) (rect64 0 rect_back) /\
  intersects_placement (exact_rect (rect64 0 rect_back))
    (exact_placement (placement64 0 (Placement.mk urun_cube 0 0 0 10 10 10)))
    = false.
Proof.
  destruct (free_rects_inside_and_clear 0 spec_orientations
              B64.spec_orientations cfg_30_20_10 [urun_cube]
              (state64 0
                 ([], CurrentPallet.mk [Placement.mk urun_cube 0 0 0 10 10 10] 1
                        [rect_right; rect_back]))
              ltac:(exact_range_concrete) ltac:(agree_concrete)
              ltac:(vm_compute; reflexivity)
              (rect64 0 rect_back)) as [Hb Hc].
  - right. left. reflexivity.
  - split; [exact Hb|]. apply Hc. left. reflexivity.
Defined.

(* ================================================================== *)
(** ** The binary64 shelf packer on whole numbers of units             *)
(* ================================================================== *)

Ltac shelf_side :=
  first [ assumption
        | unfold shelf_small, shelf_rep, small_cfg, small_dims in *;
          unfold rep, small in *; cbn in *; lia ].

Ltac gtb_prop :=
  repeat match goal with
         | H : (_ >? _) = true |- _ =>
             rewrite Z.gtb_ltb in H; apply Z.ltb_lt in H
         | H : (_ >? _) = false |- _ =>
             rewrite Z.gtb_ltb in H; apply Z.ltb_ge in H
         end.

(** The exact shelf packer keeps its numbers in range, at every block
    of an iteration. *)
Lemma shelf_stages_small (c : PaletConfig.t) (st : ShelfState.t)
    (a l w h : Z) :
  small_cfg c -> shelf_small st -> small a -> small_dims (l, w, h) ->
  let st1 := shelf_weight_check c a st in
  let st2 := shelf_wrap_x c l w st1 in
  let st3 := shelf_wrap_y c w h st2 in
  let st4 := shelf_height_check c h st3 in
  shelf_rep st /\ shelf_rep st1 /\ shelf_rep st2 /\ shelf_rep st3 /\
  shelf_small st4 /\
  (ShelfState.x st4 + l <= PaletConfig.length c \/ ShelfState.x st4 = 0) /\
  (ShelfState.current_weight st4 + a <= PaletConfig.max_weight c \/
   ShelfState.current_weight st4 = 0).
Proof.
  intros Hc Hst Ha Hd st1 st2 st3 st4.
  assert (H1 : shelf_small st1 /\
               (ShelfState.current_weight st1 + a <= PaletConfig.max_weight c \/
                ShelfState.current_weight st1 = 0)).
  { unfold st1, shelf_weight_check, shelf_close.
    destruct (_ >? _) eqn:E; gtb_prop; [|split; [exact Hst | now left]].
    split; [|now right]. shelf_side. }
  destruct H1 as [H1 H1w].
  assert (H2 : shelf_rep st2 /\ small (ShelfState.x st2) /\
               small (ShelfState.z st2) /\
               small (ShelfState.current_weight st2) /\
               small (ShelfState.current_shelf_height st2) /\
               small (ShelfState.current_shelf_y st2) /\
               ShelfState.current_weight st2 = ShelfState.current_weight st1 /\
               (ShelfState.x st2 + l <= PaletConfig.length c \/
                ShelfState.x st2 = 0)).
  { unfold st2, shelf_wrap_x.
    destruct (ShelfState.x st1 + l >? _) eqn:E; gtb_prop.
    - destruct (ShelfState.current_shelf_y st1 >? 0) eqn:E'; gtb_prop;
        cbn [ShelfState.x ShelfState.y ShelfState.z ShelfState.current_weight
             ShelfState.current_shelf_height ShelfState.current_shelf_y];
        (split; [shelf_side|]);
        repeat (split; [first [reflexivity | shelf_side]|]); now right.
    - split; [shelf_side|].
      repeat (split; [first [reflexivity | shelf_side]|]). now left. }
  destruct H2 as (H2 & H2x & H2z & H2w & H2h & H2y & E2w & H2l).
  assert (H3 : shelf_rep st3 /\ small (ShelfState.x st3) /\
               small (ShelfState.y st3) /\
               small (ShelfState.current_weight st3) /\
               small (ShelfState.current_shelf_height st3) /\
               small (ShelfState.current_shelf_y st3) /\
               ShelfState.current_weight st3 = ShelfState.current_weight st1 /\
               (ShelfState.x st3 + l <= PaletConfig.length c \/
                ShelfState.x st3 = 0)).
  { unfold st3, shelf_wrap_y.
    destruct (ShelfState.y st2 + w >? _) eqn:E; gtb_prop.
    - destruct (ShelfState.current_shelf_height st2 >? 0) eqn:E'; gtb_prop;
        cbn [ShelfState.x ShelfState.y ShelfState.z ShelfState.current_weight
             ShelfState.current_shelf_height ShelfState.current_shelf_y];
        (split; [shelf_side|]);
        repeat (split; [first [assumption | shelf_side]|]); now right.
    - split; [shelf_side|].
      repeat (split; [first [assumption | shelf_side]|]). exact H2l. }
  destruct H3 as (H3 & H3x & H3y & H3w & H3h & H3sy & E3w & H3l).
  split; [shelf_side|]. split; [shelf_side|].
  split; [exact H2|]. split; [exact H3|].
  unfold st4, shelf_height_check, shelf_close.
  destruct (ShelfState.z st3 + h >? _) eqn:E; gtb_prop.
  - cbn [ShelfState.x ShelfState.current_weight].
    split; [shelf_side|]. split; now right.
  - split; [shelf_side|]. split; [exact H3l|]. now rewrite E3w.
Qed.

Lemma shelf_put_small (c : PaletConfig.t) (u : UrunData.t)
    (st : ShelfState.t) (l w h : Z) :
  small_cfg c -> shelf_small st -> small (UrunData.agirlik u) ->
  small_dims (l, w, h) ->
  (ShelfState.x st + l <= PaletConfig.length c \/ ShelfState.x st = 0) ->
  (ShelfState.current_weight st + UrunData.agirlik u
     <= PaletConfig.max_weight c \/ ShelfState.current_weight st = 0) ->
  shelf_small (shelf_put u l w h st).
Proof.
  intros Hc Hst Ha Hd Hx Hw. unfold shelf_put, shelf_small.
  cbn [ShelfState.x ShelfState.y ShelfState.z ShelfState.current_weight
       ShelfState.current_shelf_height ShelfState.current_shelf_y].
  destruct (h >? _) eqn:E1; destruct (w >? _) eqn:E2; gtb_prop;
    repeat split; shelf_side.
Qed.

Section Shelf64.

Variable e : Z.
Hypothesis He : unit_ok e.
Variable c : PaletConfig.t.
Hypothesis Hc : small_cfg c.

Lemma shelf_close64 (st : ShelfState.t) :
  B64.shelf_close (shelf64 e st) = shelf64 e (shelf_close st).
Proof.
  unfold B64.shelf_close, shelf_close, shelf64.
  cbn [B64.ShelfState.pallets B64.ShelfState.current_items
       B64.ShelfState.current_weight ShelfState.pallets
       ShelfState.current_items ShelfState.x ShelfState.y ShelfState.z
       ShelfState.current_weight ShelfState.current_shelf_height
       ShelfState.current_shelf_y map].
  rewrite map_app. reflexivity.
Qed.

Lemma shelf_weight_check64 (a : Z) (st : ShelfState.t) :
  shelf_rep st -> small a ->
  B64.shelf_weight_check (cfg64 e c) (grid e a) (shelf64 e st)
  = shelf64 e (shelf_weight_check c a st).
Proof.
  intros Hst Ha. unfold B64.shelf_weight_check, shelf_weight_check.
  replace (B64.gt (B64.ShelfState.current_weight (shelf64 e st) + grid e a)
                  (B64.PaletConfig.max_weight (cfg64 e c)))
    with (ShelfState.current_weight st + a >? PaletConfig.max_weight c).
  - destruct (_ >? _); [now rewrite shelf_close64 | reflexivity].
  - cbn [shelf64 cfg64 B64.ShelfState.current_weight
         B64.PaletConfig.max_weight]. unfold B64.gt.
    rewrite grid_add, grid_ltb by shelf_side. now rewrite Z.gtb_ltb.
Qed.

Lemma shelf_wrap_x64 (l w : Z) (st : ShelfState.t) :
  shelf_rep st -> small l -> small w ->
  B64.shelf_wrap_x (cfg64 e c) (grid e l) (grid e w) (shelf64 e st)
  = shelf64 e (shelf_wrap_x c l w st).
Proof.
  intros Hst Hl Hw. unfold B64.shelf_wrap_x, shelf_wrap_x.
  replace (B64.gt (B64.ShelfState.x (shelf64 e st) + grid e l)
                  (B64.PaletConfig.length (cfg64 e c)))
    with (ShelfState.x st + l >? PaletConfig.length c).
  - destruct (ShelfState.x st + l >? _); [|reflexivity].
    replace (B64.gt (B64.ShelfState.current_shelf_y (shelf64 e st)) 0)
      with (ShelfState.current_shelf_y st >? 0).
    + cbn [shelf64 B64.ShelfState.pallets B64.ShelfState.current_items
           B64.ShelfState.x B64.ShelfState.y B64.ShelfState.z
           B64.ShelfState.current_weight B64.ShelfState.current_shelf_height
           B64.ShelfState.current_shelf_y ShelfState.pallets
           ShelfState.current_items ShelfState.x ShelfState.y ShelfState.z
           ShelfState.current_weight ShelfState.current_shelf_height
           ShelfState.current_shelf_y].
      destruct (ShelfState.current_shelf_y st >? 0);
        rewrite grid_add by shelf_side; reflexivity.
    + cbn [shelf64 B64.ShelfState.current_shelf_y]. unfold B64.gt.
      change 0%float with (grid e 0).
      rewrite grid_ltb by shelf_side. now rewrite Z.gtb_ltb.
  - cbn [shelf64 cfg64 B64.ShelfState.x B64.PaletConfig.length].
    unfold B64.gt.
    rewrite grid_add, grid_ltb by shelf_side. now rewrite Z.gtb_ltb.
Qed.

Lemma shelf_wrap_y64 (w h : Z) (st : ShelfState.t) :
  shelf_rep st -> small w -> small h ->
  B64.shelf_wrap_y (cfg64 e c) (grid e w) (grid e h) (shelf64 e st)
  = shelf64 e (shelf_wrap_y c w h st).
Proof.
  intros Hst Hw Hh. unfold B64.shelf_wrap_y, shelf_wrap_y.
  replace (B64.gt (B64.ShelfState.y (shelf64 e st) + grid e w)
                  (B64.PaletConfig.width (cfg64 e c)))
    with (ShelfState.y st + w >? PaletConfig.width c).
  - destruct (ShelfState.y st + w >? _); [|reflexivity].
    replace (B64.gt (B64.ShelfState.current_shelf_height (shelf64 e st)) 0)
      with (ShelfState.current_shelf_height st >? 0).
    + cbn [shelf64 B64.ShelfState.pallets B64.ShelfState.current_items
           B64.ShelfState.x B64.ShelfState.y B64.ShelfState.z
           B64.ShelfState.current_weight B64.ShelfState.current_shelf_height
           B64.ShelfState.current_shelf_y ShelfState.pallets
           ShelfState.current_items ShelfState.x ShelfState.y ShelfState.z
           ShelfState.current_weight ShelfState.current_shelf_height
           ShelfState.current_shelf_y].
      destruct (ShelfState.current_shelf_height st >? 0);
        rewrite grid_add by shelf_side; reflexivity.
    + cbn [shelf64 B64.ShelfState.current_shelf_height]. unfold B64.gt.
      change 0%float with (grid e 0).
      rewrite grid_ltb by shelf_side. now rewrite Z.gtb_ltb.
  - cbn [shelf64 cfg64 B64.ShelfState.y B64.PaletConfig.width].
    unfold B64.gt.
    rewrite grid_add, grid_ltb by shelf_side. now rewrite Z.gtb_ltb.
Qed.

Lemma shelf_height_check64 (h : Z) (st : ShelfState.t) :
  shelf_rep st -> small h ->
  B64.shelf_height_check (cfg64 e c) (grid e h) (shelf64 e st)
  = shelf64 e (shelf_height_check c h st).
Proof.
  intros Hst Hh. unfold B64.shelf_height_check, shelf_height_check.
  replace (B64.gt (B64.ShelfState.z (shelf64 e st) + grid e h)
                  (B64.PaletConfig.height (cfg64 e c)))
    with (ShelfState.z st + h >? PaletConfig.height c).
  - destruct (_ >? _); [now rewrite shelf_close64 | reflexivity].
  - cbn [shelf64 cfg64 B64.ShelfState.z B64.PaletConfig.height].
    unfold B64.gt.
    rewrite grid_add, grid_ltb by shelf_side. now rewrite Z.gtb_ltb.
Qed.

Lemma shelf_put64 (u : UrunData.t) (l w h : Z) (st : ShelfState.t) :
  shelf_rep st -> small (UrunData.agirlik u) -> small l -> small w ->
  small h ->
  B64.shelf_put (urun64 e u) (grid e l) (grid e w) (grid e h) (shelf64 e st)
  = shelf64 e (shelf_put u l w h st).
Proof.
  intros Hst Ha Hl Hw Hh. unfold B64.shelf_put, shelf_put.
  cbn [shelf64 urun64 B64.UrunData.agirlik
       B64.ShelfState.pallets B64.ShelfState.current_items
       B64.ShelfState.x B64.ShelfState.y B64.ShelfState.z
       B64.ShelfState.current_weight B64.ShelfState.current_shelf_height
       B64.ShelfState.current_shelf_y ShelfState.pallets
       ShelfState.current_items ShelfState.x ShelfState.y ShelfState.z
       ShelfState.current_weight ShelfState.current_shelf_height
       ShelfState.current_shelf_y].
  unfold B64.gt. rewrite !grid_add, !grid_ltb by shelf_side.
  unfold shelf64.
  cbn [ShelfState.pallets
       ShelfState.current_items ShelfState.x ShelfState.y ShelfState.z
       ShelfState.current_weight ShelfState.current_shelf_height
       ShelfState.current_shelf_y].
  rewrite map_app, !Z.gtb_ltb.
  destruct (ShelfState.current_shelf_height st <? h);
    destruct (ShelfState.current_shelf_y st <? w); reflexivity.
Qed.

(** The body of an iteration, on a state in range. *)
Lemma shelf_body64 (u : UrunData.t) (l w h : Z) (st : ShelfState.t) :
  shelf_small st -> small (UrunData.agirlik u) -> small_dims (l, w, h) ->
  B64.shelf_put (urun64 e u) (grid e l) (grid e w) (grid e h)
    (B64.shelf_height_check (cfg64 e c) (grid e h)
       (B64.shelf_wrap_y (cfg64 e c) (grid e w) (grid e h)
          (B64.shelf_wrap_x (cfg64 e c) (grid e l) (grid e w)
             (B64.shelf_weight_check (cfg64 e c) (grid e (UrunData.agirlik u))
                (shelf64 e st)))))
  = shelf64 e
      (shelf_put u l w h
         (shelf_height_check c h
            (shelf_wrap_y c w h
               (shelf_wrap_x c l w
                  (shelf_weight_check c (UrunData.agirlik u) st))))) /\
  shelf_small
    (shelf_put u l w h
       (shelf_height_check c h
          (shelf_wrap_y c w h
             (shelf_wrap_x c l w
                (shelf_weight_check c (UrunData.agirlik u) st))))).
Proof.
  intros Hst Ha Hd.
  destruct (shelf_stages_small c st (UrunData.agirlik u) l w h Hc Hst Ha Hd)
    as (R0 & R1 & R2 & R3 & S4 & Hx & Hw).
  pose proof Hd as (Hl & Hw' & Hh).
  split.
  - rewrite shelf_weight_check64, shelf_wrap_x64, shelf_wrap_y64,
      shelf_height_check64, shelf_put64; auto.
    unfold shelf_small, shelf_rep in *. unfold small in *. lia.
  - apply (shelf_put_small c); auto.
Qed.

Lemma py_index_map {A B : Type} (f : A -> B) (l : list A) (i : Z) :
  py_index (map f l) i = option_map f (py_index l i).
Proof.
  unfold py_index. rewrite length_map.
  destruct (0 <=? i); [apply nth_error_map|].
  destruct (0 <=? _); [apply nth_error_map | reflexivity].
Qed.

Lemma shelf_rotation64 (rot_gen : list Z) (idx : nat) (dims : list Dims) :
  B64.shelf_rotation rot_gen idx (map (dims64 e) dims)
  = shelf_rotation rot_gen idx dims.
Proof. unfold B64.shelf_rotation, shelf_rotation. now rewrite length_map. Qed.

Variable orient : UrunData.t -> list Dims.
Variable orient64 : B64.UrunData.t -> list B64.Dims.
Variable rot_gen : list Z.

Lemma shelf_step64 (st : ShelfState.t) (idx : nat) (u : UrunData.t) :
  shelf_small st -> small (UrunData.agirlik u) ->
  Forall small_dims (orient u) ->
  orient64 (urun64 e u) = map (dims64 e) (orient u) ->
  B64.shelf_step orient64 rot_gen (cfg64 e c) (shelf64 e st) idx (urun64 e u)
  = option_map (shelf64 e) (shelf_step orient rot_gen c st idx u) /\
  forall st', shelf_step orient rot_gen c st idx u = Some st' ->
              shelf_small st'.
Proof.
  intros Hst Ha Ho Hag. unfold B64.shelf_step, shelf_step.
  rewrite Hag, shelf_rotation64, py_index_map.
  destruct (py_index (orient u) _) as [[[l w] h]|] eqn:Ei;
    cbn [option_map dims64]; [|split; [reflexivity | discriminate]].
  assert (Hd : small_dims (l, w, h)).
  { rewrite Forall_forall in Ho. apply Ho. eapply py_index_In; eauto. }
  destruct (shelf_body64 u l w h st Hst Ha Hd) as [Eb Hs].
  split.
  - cbn [urun64 B64.UrunData.agirlik]. f_equal. exact Eb.
  - intros st' H. injection H as <-. exact Hs.
Qed.

Lemma shelf_loop64 (urunler : list UrunData.t) :
  (forall u, In u urunler ->
     small (UrunData.agirlik u) /\ Forall small_dims (orient u)) ->
  agree e orient orient64 urunler ->
  forall idx st, shelf_small st ->
    B64.shelf_loop orient64 rot_gen (cfg64 e c) idx (map (urun64 e) urunler)
      (shelf64 e st)
    = option_map (shelf64 e) (shelf_loop orient rot_gen c idx urunler st).
Proof.
  induction urunler as [|u rest IH]; intros Hus Hag idx st Hst;
    cbn [map B64.shelf_loop shelf_loop]; [reflexivity|].
  destruct (Hus u (or_introl eq_refl)) as [Ha Ho].
  destruct (shelf_step64 st idx u Hst Ha Ho (Hag u (or_introl eq_refl)))
    as [Es Hs].
  rewrite Es.
  destruct (shelf_step orient rot_gen c st idx u) as [st1|];
    cbn [option_map]; [|reflexivity].
  apply IH.
  - intros v Hv. apply Hus. now right.
  - intros v Hv. apply Hag. now right.
  - now apply Hs.
Qed.

Lemma pack_shelf_based64 (urunler : list UrunData.t) :
  (forall u, In u urunler ->
     small (UrunData.agirlik u) /\ Forall small_dims (orient u)) ->
  agree e orient orient64 urunler ->
  B64.pack_shelf_based orient64 rot_gen (cfg64 e c) (map (urun64 e) urunler)
  = option_map (map (pallet64 e))
      (pack_shelf_based orient rot_gen c urunler).
Proof.
  intros Hus Hag. unfold B64.pack_shelf_based, pack_shelf_based.
  change B64.shelf_initial with (shelf64 e shelf_initial).
  fold shelf_initial.
  rewrite shelf_loop64; auto.
  - destruct (shelf_loop orient rot_gen c 0 urunler shelf_initial) as [st|];
      cbn [option_map]; [|reflexivity].
    f_equal. cbn [shelf64 B64.ShelfState.current_items
                  B64.ShelfState.pallets B64.ShelfState.current_weight].
    destruct (ShelfState.current_items st) as [|a l]; cbn [map]; [reflexivity|].
    rewrite map_app. reflexivity.
  - unfold shelf_small, shelf_initial, small. cbn. lia.
Qed.

End Shelf64.

(** What the four checks of an iteration leave of the closed pallets
    and the open list: either as they were, or the open list closed. *)
Lemma shelf_checks_lists (Q : list Placement.t -> Prop) (c : PaletConfig.t)
    (a l w h : Z) (st : ShelfState.t) :
  Q [] ->
  Forall (fun p => Q (Pallet.items p)) (ShelfState.pallets st) ->
  Q (ShelfState.current_items st) ->
  let st4 := shelf_height_check c h
               (shelf_wrap_y c w h
                  (shelf_wrap_x c l w (shelf_weight_check c a st))) in
  Forall (fun p => Q (Pallet.items p)) (ShelfState.pallets st4) /\
  Q (ShelfState.current_items st4).
Proof.
  intros Hnil Hps Hcur. cbv zeta. shelf_unfold;
    (split; [|assumption]);
    repeat (apply Forall_app; split); auto;
    repeat constructor; assumption.
Qed.

(** Every number of every placement of the exact shelf packer is in
    range. *)
Lemma shelf_result_small (e : Z) (orient : UrunData.t -> list Dims)
    (rot_gen : list Z) (c : PaletConfig.t) (urunler : list UrunData.t)
    (pallets : list Pallet.t) :
  exact_range e c orient urunler ->
  pack_shelf_based orient rot_gen c urunler = Some pallets ->
  forall p pl, In p pallets -> In pl (Pallet.items p) -> small_box pl.
Proof.
  intros (He & Hc & Hus) H.
  apply pack_shelf_based_result in H as (st & Hrun & _ & Hsub).
  assert (HI : shelf_small st /\
               Forall (fun p => Forall small_box (Pallet.items p))
                      (ShelfState.pallets st) /\
               Forall small_box (ShelfState.current_items st)).
  { revert Hrun.
    apply (shelf_loop_invariant orient rot_gen c
             (fun u d => small (UrunData.agirlik u) /\ small_dims d)
             (fun s =>
                shelf_small s /\
                Forall (fun p => Forall small_box (Pallet.items p))
                       (ShelfState.pallets s) /\
                Forall small_box (ShelfState.current_items s))).
    - intros s u l w h [Ha Hd] (Hs & Hps & Hcur).
      destruct (shelf_stages_small c s (UrunData.agirlik u) l w h Hc Hs Ha Hd)
        as (_ & _ & _ & _ & S4 & Hx & Hw).
      destruct (shelf_checks_lists (Forall small_box) c (UrunData.agirlik u)
                  l w h s (Forall_nil _) Hps Hcur) as [Hps4 Hcur4].
      cbv zeta in *.
      set (st4 := shelf_height_check c h _) in *.
      split; [apply (shelf_put_small c); auto|].
      split; [exact Hps4|].
      unfold shelf_put. cbn [ShelfState.current_items].
      apply Forall_app. split; [exact Hcur4|]. constructor; [|constructor].
      unfold small_box, shelf_small, small_dims in *.
      cbn [Placement.x Placement.y Placement.z Placement.L Placement.W
           Placement.H]. tauto.
    - intros u d Hu Hd. destruct (Hus u Hu) as [Ha Ho].
      rewrite Forall_forall in Ho. auto.
    - split; [unfold shelf_small, shelf_initial, small; cbn; lia|].
      split; constructor. }
  destruct HI as (_ & Hps & Hcur).
  intros p pl Hp. apply Hsub in Hp. revert Hp pl.
  rewrite <- Forall_forall.
  apply (In_shelf_all_pallets
           (fun p => Forall small_box (Pallet.items p))); assumption.
Qed.

(** The exact shelf packer separates the placements of a pallet when
    no size is negative; it keeps them inside the pallet when every
    orientation fits the pallet. *)
Lemma shelf_result_separated (orient : UrunData.t -> list Dims)
    (rot_gen : list Z) (c : PaletConfig.t) (urunler : list UrunData.t)
    (pallets : list Pallet.t) :
  (forall u l w h, In u urunler -> In (l, w, h) (orient u) ->
                   0 <= l /\ 0 <= w /\ 0 <= h) ->
  pack_shelf_based orient rot_gen c urunler = Some pallets ->
  forall p, In p pallets -> pairwise_separated (Pallet.items p).
Proof.
  intros Hpos H. apply pack_shelf_based_result in H as (st & Hrun & _ & Hsub).
  assert (HI : shelf_separation_inv st).
  { revert Hrun.
    apply (shelf_loop_invariant orient rot_gen c
             (fun _ d => let '(l, w, h) := d in 0 <= l /\ 0 <= w /\ 0 <= h)
             shelf_separation_inv).
    - intros s u u_l u_w u_h (Hl & Hw & Hh) HI.
      now apply shelf_separation_step.
    - intros u [[l w] h] Hu Hd. eapply Hpos; eauto.
    - unfold shelf_separation_inv, shelf_initial. simpl.
      split; [lia|]. split; [lia|]. split; [constructor|].
      split; [apply pairwise_separated_nil | intros a []]. }
  destruct HI as (_ & _ & Hps & Hsep & _).
  intros p Hp. apply Hsub in Hp. revert Hp.
  apply (In_shelf_all_pallets (fun p => pairwise_separated (Pallet.items p)));
    assumption.
Qed.

Lemma shelf_result_in_bounds (orient : UrunData.t -> list Dims)
    (rot_gen : list Z) (c : PaletConfig.t) (urunler : list UrunData.t)
    (pallets : list Pallet.t) :
  (forall u l w h, In u urunler -> In (l, w, h) (orient u) ->
     0 <= l <= PaletConfig.length c /\
     0 <= w <= PaletConfig.width c /\
     0 <= h <= PaletConfig.height c) ->
  pack_shelf_based orient rot_gen c urunler = Some pallets ->
  forall p pl, In p pallets -> In pl (Pallet.items p) -> in_bounds c pl.
Proof.
  intros Hfit H. apply pack_shelf_based_result in H as (st & Hrun & _ & Hsub).
  assert (HI : shelf_bounds_inv c st).
  { revert Hrun.
    apply (shelf_loop_invariant orient rot_gen c
             (fun _ d => let '(l, w, h) := d in
                0 <= l <= PaletConfig.length c /\
                0 <= w <= PaletConfig.width c /\
                0 <= h <= PaletConfig.height c)
             (shelf_bounds_inv c)).
    - intros s u u_l u_w u_h (Hl & Hw & Hh) HI.
      now apply shelf_bounds_step.
    - intros u [[l w] h] Hu Hd. eapply Hfit; eauto.
    - unfold shelf_bounds_inv, shelf_initial. simpl.
      repeat (split; [lia|]). split; [constructor | intros pl []]. }
  destruct HI as (_ & _ & _ & Hps & Hin).
  intros p pl Hp. apply Hsub in Hp. revert Hp pl.
  apply (In_shelf_all_pallets
           (fun p => forall pl, In pl (Pallet.items p) -> in_bounds c pl));
    assumption.
Qed.

(** What the binary64 shelf packer returns on inputs in range, in terms
    of the exact model. *)
Lemma shelf64_result (e : Z) (orient : UrunData.t -> list Dims)
    (orient64 : B64.UrunData.t -> list B64.Dims) (rot_gen : list Z)
    (c : PaletConfig.t) (urunler : list UrunData.t)
    (pallets : list B64.Pallet.t) :
  exact_range e c orient urunler ->
  agree e orient orient64 urunler ->
  B64.pack_shelf_based orient64 rot_gen (cfg64 e c) (map (urun64 e) urunler)
    = Some pallets ->
  exists zpallets,
    pack_shelf_based orient rot_gen c urunler = Some zpallets /\
    pallets = map (pallet64 e) zpallets.
Proof.
  intros (He & Hc & Hus) Hag E.
  rewrite (pack_shelf_based64 e He c Hc orient orient64 rot_gen urunler Hus Hag)
    in E.
  destruct (pack_shelf_based orient rot_gen c urunler) as [zpallets|];
    [|discriminate].
  injection E as <-. now exists zpallets.
Qed.

(** X17: when every size and weight is a whole number of units [2^e],
    below [2^51] units, any two placements at different positions of a
    pallet returned by the binary64 [pack_shelf_based] are separated
    along one of the three axes, on the exact values of the floats. *)
Theorem shelf_placements_do_not_overlap (e : Z)
    (orient : UrunData.t -> list Dims)
    (orient64 : B64.UrunData.t -> list B64.Dims) (rot_gen : list Z)
    (palet_cfg : PaletConfig.t) (urunler : list UrunData.t)
    (pallets : list B64.Pallet.t) :
  exact_range e palet_cfg orient urunler ->
  agree e orient orient64 urunler ->
  B64.pack_shelf_based orient64 rot_gen (cfg64 e palet_cfg)
    (map (urun64 e) urunler) = Some pallets ->
  forall p i j a b,
    In p pallets -> i <> j ->
    nth_error (B64.Pallet.items p) i = Some a ->
    nth_error (B64.Pallet.items p) j = Some b ->
    separated64 a b.
Proof.
  intros Hin Hag E p64 i j a64 b64 Hp Hij Ha Hb.
  pose proof Hin as (He & Hc & Hus).
  destruct (shelf64_result e orient orient64 rot_gen palet_cfg urunler pallets
              Hin Hag E) as (zpallets & Ez & ->).
  apply in_pallet64 in Hp as (p & Hp & ->).
  apply nth_error_items64 in Ha as (a & Ha & ->).
  apply nth_error_items64 in Hb as (b & Hb & ->).
  pose proof (shelf_result_small e orient rot_gen palet_cfg urunler zpallets
                Hin Ez p) as Hsmall.
  apply separated64_grid; auto.
  - apply Hsmall; [exact Hp | eapply nth_error_In; eauto].
  - apply Hsmall; [exact Hp | eapply nth_error_In; eauto].
  - apply (shelf_result_separated orient rot_gen palet_cfg urunler zpallets)
      with (p := p) (i := i) (j := j); auto.
    intros u l w h Hu Hd. destruct (Hus u Hu) as [_ Ho].
    rewrite Forall_forall in Ho. specialize (Ho _ Hd).
    unfold small_dims, small in Ho. lia.
Qed.

Lemma shelf_placements_do_not_overlap_witness :
  separated64 (placement64 0 (Placement.mk urun_cube 0 0 0 10 10 10))
              (placement64 0 (Placement.mk urun_bar 10 0 0 10 20 10)).
Proof.
  apply (shelf_placements_do_not_overlap 0 spec_orientations
           B64.spec_orientations [0; 1] cfg_30_20_10 [urun_cube; urun_bar]
           (map (pallet64 0)
                [Pallet.mk [Placement.mk urun_cube 0 0 0 10 10 10;
                            Placement.mk urun_bar 10 0 0 10 20 10] 2])
           ltac:(exact_range_concrete) ltac:(agree_concrete)
           ltac:(vm_compute; reflexivity)
           (pallet64 0
              (Pallet.mk [Placement.mk urun_cube 0 0 0 10 10 10;
                          Placement.mk urun_bar 10 0 0 10 20 10] 2))
           0%nat 1%nat).
  - left. reflexivity.
  - discriminate.
  - reflexivity.
  - reflexivity.
Defined.

(** X18: when every size and weight is a whole number of units [2^e],
    below [2^51] units, and every orientation of every product fits the
    empty pallet, every placement of every pallet returned by the
    binary64 [pack_shelf_based] lies inside the pallet cuboid, on the
    exact values of the floats. *)
Theorem shelf_placements_in_bounds (e : Z)
    (orient : UrunData.t -> list Dims)
    (orient64 : B64.UrunData.t -> list B64.Dims) (rot_gen : list Z)
    (palet_cfg : PaletConfig.t) (urunler : list UrunData.t)
    (pallets : list B64.Pallet.t) :
  exact_range e palet_cfg orient urunler ->
  agree e orient orient64 urunler ->
  (forall u d, In u urunler -> In d (orient64 (urun64 e u)) ->
     B64.fits (B64.whole_pallet (cfg64 e palet_cfg)) d = true) ->
  B64.pack_shelf_based orient64 rot_gen (cfg64 e palet_cfg)
    (map (urun64 e) urunler) = Some pallets ->
  forall p pl, In p pallets -> In pl (B64.Pallet.items p) ->
    in_bounds64 (cfg64 e palet_cfg) pl.
Proof.
  intros Hin Hag Hfit E p64 pl64 Hp Hpl.
  pose proof Hin as (He & Hc & Hus).
  destruct (shelf64_result e orient orient64 rot_gen palet_cfg urunler pallets
              Hin Hag E) as (zpallets & Ez & ->).
  apply in_pallet64 in Hp as (p & Hp & ->).
  apply in_items64 in Hpl as (pl & Hpl & ->).
  apply in_bounds64_grid; auto.
  - exact (shelf_result_small e orient rot_gen palet_cfg urunler zpallets
             Hin Ez p pl Hp Hpl).
  - apply (shelf_result_in_bounds orient rot_gen palet_cfg urunler zpallets)
      with (p := p); auto.
    intros u l w h Hu Hd. destruct (Hus u Hu) as [_ Ho].
    rewrite Forall_forall in Ho. pose proof (Ho _ Hd) as Hs.
    assert (Hf : fits (whole_pallet palet_cfg) (l, w, h) = true).
    { rewrite <- (fits64 e He); auto.
      - rewrite <- whole_pallet64. apply (Hfit u); [exact Hu|].
        rewrite (Hag u Hu). now apply in_map.
      - apply (sound_rect_small palet_cfg); auto. now apply sound_rect_whole. }
    unfold fits, FreeRectangle.can_fit, whole_pallet in Hf.
    cbn [FreeRectangle.length FreeRectangle.width FreeRectangle.height] in Hf.
    apply andb_prop in Hf as [Hf Hh]. apply andb_prop in Hf as [Hl Hw].
    unfold small_dims, small in Hs.
    rewrite Z.geb_leb in Hl, Hw, Hh.
    apply Z.leb_le in Hl, Hw, Hh. lia.
Qed.

Lemma shelf_placements_in_bounds_witness :
  in_bounds64 (cfg64 0 cfg_30_20_10)
    (placement64 0 (Placement.mk urun_cube 10 0 0 10 10 10)).
Proof.
  refine (shelf_placements_in_bounds 0 spec_orientations
            B64.spec_orientations [0; 0] cfg_30_20_10 [urun_cube; urun_cube]
            (map (pallet64 0)
                 [Pallet.mk [Placement.mk urun_cube 0 0 0 10 10 10;
                             Placement.mk urun_cube 10 0 0 10 10 10] 2])
            ltac:(exact_range_concrete) ltac:(agree_concrete) _
            ltac:(vm_compute; reflexivity)
            (pallet64 0
               (Pallet.mk [Placement.mk urun_cube 0 0 0 10 10 10;
                           Placement.mk urun_cube 10 0 0 10 10 10] 2))
            _ _ _).
  - intros u d Hu Hd. simpl in Hu.
    destruct Hu as [<- | [<- | []]]; vm_compute in Hd;
      repeat (destruct Hd as [<- | Hd]; [vm_compute; reflexivity|]);
      contradiction Hd.
  - left. reflexivity.
  - right. left. reflexivity.
Defined.

(* ================================================================== *)
(** ** Weights in the binary64 shelf packer                            *)
(* ================================================================== *)

Ltac shelf_unfold64 :=
  unfold B64.shelf_put, B64.shelf_height_check, B64.shelf_wrap_y,
    B64.shelf_wrap_x, B64.shelf_weight_check, B64.shelf_close;
  repeat match goal with
         | |- context [B64.gt ?a ?b] =>
             let E := fresh "E" in
             destruct (B64.gt a b) eqn:E;
             cbn [B64.ShelfState.pallets B64.ShelfState.current_items
                  B64.ShelfState.x B64.ShelfState.y B64.ShelfState.z
                  B64.ShelfState.current_weight
                  B64.ShelfState.current_shelf_height
                  B64.ShelfState.current_shelf_y] in *
         end.

Lemma shelf_loop_invariant64 (orient64 : B64.UrunData.t -> list B64.Dims)
    (rot_gen : list Z) (c : B64.PaletConfig.t)
    (good : B64.UrunData.t -> Prop) (I : B64.ShelfState.t -> Prop) :
  (forall st u u_l u_w u_h,
     good u -> I st ->
     I (B64.shelf_put u u_l u_w u_h
          (B64.shelf_height_check c u_h
             (B64.shelf_wrap_y c u_w u_h
                (B64.shelf_wrap_x c u_l u_w
                   (B64.shelf_weight_check c (B64.UrunData.agirlik u) st)))))) ->
  forall urunler idx st st',
    Forall good urunler -> I st ->
    B64.shelf_loop orient64 rot_gen c idx urunler st = Some st' -> I st'.
Proof.
  intros Hstep. induction urunler as [|u rest IH]; intros idx st st' Hgood HI;
    cbn [B64.shelf_loop].
  - intros H. now injection H as <-.
  - inversion Hgood as [|? ? Hu Hrest]; subst.
    unfold B64.shelf_step.
    destruct (py_index _ _) as [[[u_l u_w] u_h]|]; [|discriminate].
    apply IH; [exact Hrest|]. now apply Hstep.
Qed.

(** The shape shared by the weight properties of the binary64 shelf
    packer: [R] relates the items to the running weight of the open
    pallet, and so of every pallet that is closed. *)
Lemma shelf_result_invariant64 (orient64 : B64.UrunData.t -> list B64.Dims)
    (rot_gen : list Z) (c : B64.PaletConfig.t)
    (good : B64.UrunData.t -> Prop)
    (R : list B64.Placement.t -> float -> Prop)
    (urunler : list B64.UrunData.t) (pallets : list B64.Pallet.t) :
  R [] 0%float ->
  (forall items w u pl,
     good u -> R items w -> B64.Placement.urun pl = u ->
     B64.gt (w + B64.UrunData.agirlik u) (B64.PaletConfig.max_weight c)
       = false ->
     R (items ++ [pl]) (w + B64.UrunData.agirlik u)%float) ->
  (forall u pl,
     good u -> B64.Placement.urun pl = u ->
     R [pl] (0 + B64.UrunData.agirlik u)%float) ->
  Forall good urunler ->
  B64.pack_shelf_based orient64 rot_gen c urunler = Some pallets ->
  Forall (fun p => R (B64.Pallet.items p) (B64.Pallet.weight p)) pallets.
Proof.
  intros Hnil Hkeep Hfresh Hgood.
  set (Q := fun p => R (B64.Pallet.items p) (B64.Pallet.weight p)).
  unfold B64.pack_shelf_based.
  destruct (B64.shelf_loop orient64 rot_gen c 0 urunler B64.shelf_initial)
    as [st|] eqn:E; [|discriminate].
  intros H. injection H as <-.
  assert (HI : Forall Q (B64.ShelfState.pallets st) /\
               R (B64.ShelfState.current_items st)
                 (B64.ShelfState.current_weight st)).
  { revert E.
    apply (shelf_loop_invariant64 orient64 rot_gen c good
             (fun s => Forall Q (B64.ShelfState.pallets s) /\
                       R (B64.ShelfState.current_items s)
                         (B64.ShelfState.current_weight s)));
      [|exact Hgood | split; [constructor | exact Hnil]].
    intros s u u_l u_w u_h Hu [Hps Hcur].
    shelf_unfold64;
      (split;
       [ repeat (apply Forall_app; split); auto;
         repeat constructor; assumption
       | first [ now apply Hfresh | now apply Hkeep ] ]). }
  destruct HI as [Hps Hcur].
  destruct (B64.ShelfState.current_items st) eqn:Ei; [exact Hps|].
  apply Forall_app. split; [exact Hps|]. constructor; [|constructor].
  exact Hcur.
Qed.

(** On weights that are whole numbers of units the running sum of the
    shelf packer is exact. *)
Lemma shelf_weights_exact64 (e : Z)
    (orient64 : B64.UrunData.t -> list B64.Dims) (rot_gen : list Z)
    (c : B64.PaletConfig.t) (urunler : list B64.UrunData.t)
    (pallets : list B64.Pallet.t) :
  unit_ok e -> on_grid e (B64.PaletConfig.max_weight c) ->
  (forall u, In u urunler -> on_grid e (B64.UrunData.agirlik u)) ->
  B64.pack_shelf_based orient64 rot_gen c urunler = Some pallets ->
  forall p, In p pallets ->
    exists n, small n /\ B64.Pallet.weight p = grid e n /\
              exact_items_weight (B64.Pallet.items p) = n * 2 ^ (e + 1074).
Proof.
  intros He (m & Hm & Em) Hus E.
  set (R := fun (items : list B64.Placement.t) (w : float) =>
    exists n, small n /\ w = grid e n /\
              exact_items_weight items = n * 2 ^ (e + 1074)).
  assert (Hsnoc : forall items n k pl,
            R items (grid e n) -> small n -> small k -> small (n + k) ->
            B64.UrunData.agirlik (B64.Placement.urun pl) = grid e k ->
            R (items ++ [pl]) (grid e n + grid e k)%float).
  { intros items n k pl (n' & Hn' & En' & Hsum) Hn Hk Hnk Epl.
    apply grid_inj in En'; try assumption; try now apply small_rep.
    subst n'. exists (n + k). split; [exact Hnk|]. split.
    - apply grid_add; auto using small_rep.
    - unfold exact_items_weight in *. rewrite map_app. cbn [map].
      rewrite items_weight_snoc, Hsum.
      cbn [exact_placement Placement.urun exact_urun UrunData.agirlik].
      rewrite Epl, ticks_grid by auto using small_rep. lia. }
  assert (Hzero : R [] (grid e 0)).
  { exists 0. unfold small. repeat split; lia. }
  assert (HQ : Forall (fun p =>
                 R (B64.Pallet.items p) (B64.Pallet.weight p)) pallets).
  { apply (shelf_result_invariant64 orient64 rot_gen c
             (fun u => on_grid e (B64.UrunData.agirlik u)) R
             urunler pallets); try assumption.
    - intros items w u pl (k & Hk & Ek) HR Epl Ew.
      pose proof HR as (n & Hn & En & Hsum).
      rewrite En in *. rewrite Ek, Em in *.
      unfold B64.gt in Ew.
      assert (Hnk : rep (n + k)) by (unfold small, rep in *; lia).
      rewrite grid_add, grid_ltb in Ew by (auto using small_rep).
      apply Z.ltb_ge in Ew.
      apply Hsnoc; auto; [unfold small in *; lia | now rewrite Epl].
    - intros u pl (k & Hk & Ek) Epl. rewrite Ek.
      change 0%float with (grid e 0).
      apply (Hsnoc [] 0 k pl); auto.
      + unfold small. lia.
      + now rewrite Epl.
    - apply Forall_forall. exact Hus. }
  intros p Hp. rewrite Forall_forall in HQ. exact (HQ p Hp).
Qed.

(** X15: the [weight] of every pallet returned by the binary64
    [pack_shelf_based] is the running sum [((0.0 + w1) + w2) + ...] of
    the [agirlik] of the products in its items, each addition rounded;
    when no product fails the weight test alone, every returned pallet
    that has items passes the test on its [weight] field.  When the
    weights and the cap are whole numbers of units [2^e], below [2^51]
    units, the field is the exact sum of the weights. *)
Theorem shelf_weights (orient64 : B64.UrunData.t -> list B64.Dims)
    (rot_gen : list Z) (palet_cfg : B64.PaletConfig.t)
    (urunler : list B64.UrunData.t) (pallets : list B64.Pallet.t) :
  B64.pack_shelf_based orient64 rot_gen palet_cfg urunler = Some pallets ->
  forall p, In p pallets ->
    B64.Pallet.weight p = B64.items_weight (B64.Pallet.items p) /\
    ((forall u, In u urunler ->
        B64.gt (B64.UrunData.agirlik u)
               (B64.PaletConfig.max_weight palet_cfg) = false) ->
     B64.Pallet.items p <> [] ->
     B64.gt (B64.Pallet.weight p) (B64.PaletConfig.max_weight palet_cfg)
       = false) /\
    forall e,
      unit_ok e -> on_grid e (B64.PaletConfig.max_weight palet_cfg) ->
      (forall u, In u urunler -> on_grid e (B64.UrunData.agirlik u)) ->
      is_finite (B64.Pallet.weight p) = true /\
      ticks (B64.Pallet.weight p) = exact_items_weight (B64.Pallet.items p).
Proof.
  intros E p Hp. split; [|split].
  - assert (HQ : Forall (fun p =>
                   B64.Pallet.weight p = B64.items_weight (B64.Pallet.items p))
                   pallets).
    { apply (shelf_result_invariant64 orient64 rot_gen palet_cfg
               (fun _ => True)
               (fun items w => w = B64.items_weight items)
               urunler pallets); try assumption.
      - reflexivity.
      - intros items w u pl _ -> <- _. now rewrite items_weight64_snoc.
      - intros u pl _ <-. reflexivity.
      - apply Forall_forall. trivial. }
    rewrite Forall_forall in HQ. exact (HQ p Hp).
  - intros Hcap.
    assert (HQ : Forall (fun p =>
                   B64.Pallet.items p <> [] ->
                   B64.gt (B64.Pallet.weight p)
                          (B64.PaletConfig.max_weight palet_cfg) = false)
                   pallets).
    { apply (shelf_result_invariant64 orient64 rot_gen palet_cfg
               (fun u => B64.gt (B64.UrunData.agirlik u)
                           (B64.PaletConfig.max_weight palet_cfg) = false)
               (fun items w =>
                  items <> [] ->
                  B64.gt w (B64.PaletConfig.max_weight palet_cfg) = false)
               urunler pallets); try assumption.
      - intros H. now contradiction H.
      - intros items w u pl _ _ _ Ew _. exact Ew.
      - intros u pl Hu _ _. now rewrite zero_add_gt.
      - apply Forall_forall. exact Hcap. }
    rewrite Forall_forall in HQ. exact (HQ p Hp).
  - intros e He Hmax Hus.
    destruct (shelf_weights_exact64 e orient64 rot_gen palet_cfg urunler
                pallets He Hmax Hus E p Hp) as (n & Hn & En & Hsum).
    rewrite En, Hsum. split.
    + apply is_finite_grid; auto using small_rep.
    + apply ticks_grid; auto using small_rep.
Qed.

Lemma shelf_weights_witness :
  B64.gt (grid 0 2) (grid 0 1000) = false /\
  ticks (grid 0 2)
  = exact_items_weight
      (map (placement64 0) [Placement.mk urun_cube 0 0 0 10 10 10;
                            Placement.mk urun_bar 10 0 0 10 20 10]).
Proof.
  destruct (shelf_weights B64.spec_orientations [0; 1]
              (cfg64 0 cfg_30_20_10) (map (urun64 0) [urun_cube; urun_bar])
              (map (pallet64 0)
                 [Pallet.mk [Placement.mk urun_cube 0 0 0 10 10 10;
                             Placement.mk urun_bar 10 0 0 10 20 10] 2])
              ltac:(vm_compute; reflexivity)
              (pallet64 0
                 (Pallet.mk [Placement.mk urun_cube 0 0 0 10 10 10;
                             Placement.mk urun_bar 10 0 0 10 20 10] 2))
              ltac:(left; reflexivity)) as (_ & Hcap & Hexact).
  split.
  - apply Hcap; [|discriminate].
    intros u Hu. simpl in Hu.
    destruct Hu as [<- | [<- | []]]; vm_compute; reflexivity.
  - refine (proj2 (Hexact 0 ltac:(unfold unit_ok; lia)
                     ltac:(on_grid_concrete 1000) _)).
    intros u Hu. simpl in Hu.
    destruct Hu as [<- | [<- | []]]; on_grid_concrete 1.
Defined.

(* ================================================================== *)
(** ** The values stored on a Django pallet, in binary64               *)
(* ================================================================== *)

Lemma create_django_palet_sums64 (placements : list B64.Placement.t)
    (acc : B64.PaletFields.t) :
  B64.PaletFields.toplam_agirlik
    (fold_left B64.create_django_palet_item placements acc)
  = fold_left (fun a pl =>
                 (a + B64.UrunData.agirlik (B64.Placement.urun pl))%float)
      placements (B64.PaletFields.toplam_agirlik acc) /\
  B64.PaletFields.kullanilan_hacim
    (fold_left B64.create_django_palet_item placements acc)
  = fold_left (fun a pl =>
                 (a + B64.Placement.L pl * B64.Placement.W pl
                      * B64.Placement.H pl)%float)
      placements (B64.PaletFields.kullanilan_hacim acc).
Proof.
  revert acc. induction placements as [|pl pls IH]; intros acc;
    cbn [fold_left]; [split; reflexivity|].
  destruct (IH (B64.create_django_palet_item acc pl)) as [-> ->].
  split; reflexivity.
Qed.

Lemma create_django_palet_lookup64 (placements : list B64.Placement.t)
    (acc : B64.PaletFields.t) (k : Z) :
  dict_get k (B64.PaletFields.urun_konumlari
                (fold_left B64.create_django_palet_item placements acc)) =
  match find (fun pl => B64.placement_id pl =? k) (rev placements) with
  | Some pl => Some (B64.placement_position pl)
  | None => dict_get k (B64.PaletFields.urun_konumlari acc)
  end.
Proof.
  revert acc. induction placements as [|pl pls IH]; intros acc; simpl.
  - reflexivity.
  - rewrite IH, find_snoc. simpl. rewrite dict_get_set.
    destruct (find _ (rev pls)); [reflexivity|].
    fold (B64.placement_id pl). rewrite (Z.eqb_sym k).
    destruct (B64.placement_id pl =? k); reflexivity.
Qed.

Lemma create_django_palet_distinct64 (placements : list B64.Placement.t)
    (acc : B64.PaletFields.t) :
  NoDup (map fst (B64.PaletFields.urun_konumlari acc) ++
         map B64.placement_id placements) ->
  B64.PaletFields.urun_konumlari
    (fold_left B64.create_django_palet_item placements acc)
  = B64.PaletFields.urun_konumlari acc ++
    map (fun pl => (B64.placement_id pl, B64.placement_position pl))
        placements.
Proof.
  revert acc. induction placements as [|pl pls IH]; intros acc Hnd; simpl.
  - now rewrite app_nil_r.
  - assert (Hnew : ~ In (B64.placement_id pl)
                        (map fst (B64.PaletFields.urun_konumlari acc))).
    { intros Hin. simpl in Hnd. apply NoDup_remove_2 in Hnd.
      apply Hnd. apply in_or_app. now left. }
    rewrite IH; simpl; fold (B64.placement_id pl);
      rewrite (dict_set_new _ _ _ Hnew).
    + rewrite <- app_assoc. reflexivity.
    + rewrite map_app, <- app_assoc. exact Hnd.
Qed.

(** The running sums on whole numbers of units: weights in units
    [2^e], volumes in units [2^(3e)]. *)
Lemma weight_sum_grid (e : Z) (zs : list Placement.t) (n : Z) :
  unit_ok e ->
  (forall pl, In pl zs -> 0 <= UrunData.agirlik (Placement.urun pl)) ->
  0 <= n -> n + items_weight zs < 2 ^ 53 ->
  fold_left (fun a pl =>
               (a + B64.UrunData.agirlik (B64.Placement.urun pl))%float)
    (map (placement64 e) zs) (grid e n)
  = grid e (n + items_weight zs).
Proof.
  intros He. revert n. induction zs as [|pl zs IH]; intros n Hpos Hn Hsum;
    cbn [map fold_left items_weight fold_right] in *.
  - now rewrite Z.add_0_r.
  - fold (items_weight zs) in *.
    assert (Ha : 0 <= UrunData.agirlik (Placement.urun pl))
      by (apply Hpos; now left).
    assert (Hrest : 0 <= items_weight zs).
    { clear -Hpos. induction zs as [|q zs IH]; cbn; [lia|].
      fold (items_weight zs).
      assert (0 <= UrunData.agirlik (Placement.urun q))
        by (apply Hpos; right; now left).
      assert (0 <= items_weight zs).
      { apply IH. intros pl' [-> | H']; apply Hpos; [now left|].
        right. now right. }
      lia. }
    cbn [placement64 B64.Placement.urun urun64 B64.UrunData.agirlik].
    rewrite grid_add by (try assumption; unfold rep; lia).
    rewrite IH; [f_equal; lia | | lia | lia].
    intros q Hq. apply Hpos. now right.
Qed.

Lemma items_volume_nonneg (zs : list Placement.t) :
  (forall pl, In pl zs ->
     0 < Placement.L pl /\ 0 < Placement.W pl /\ 0 < Placement.H pl) ->
  0 <= items_volume zs.
Proof.
  induction zs as [|q zs IH]; intros Hpos; cbn; [lia|].
  fold (items_volume zs).
  destruct (Hpos q (or_introl eq_refl)) as (Hl & Hw & Hh).
  assert (0 <= items_volume zs) by (apply IH; intros pl H; apply Hpos; now right).
  nia.
Qed.

Lemma volume_sum_grid (e : Z) (zs : list Placement.t) (n : Z) :
  unit_ok (e + e + e) ->
  (forall pl, In pl zs ->
     0 < Placement.L pl /\ 0 < Placement.W pl /\ 0 < Placement.H pl) ->
  0 <= n -> n + items_volume zs < 2 ^ 53 ->
  fold_left (fun a pl =>
               (a + B64.Placement.L pl * B64.Placement.W pl
                    * B64.Placement.H pl)%float)
    (map (placement64 e) zs) (grid (e + e + e) n)
  = grid (e + e + e) (n + items_volume zs).
Proof.
  intros He3.
  assert (He : unit_ok e) by (unfold unit_ok in *; lia).
  assert (He2 : unit_ok (e + e)) by (unfold unit_ok in *; lia).
  revert n. induction zs as [|pl zs IH]; intros n Hpos Hn Hsum;
    cbn [map fold_left items_volume fold_right] in *.
  - now rewrite Z.add_0_r.
  - fold (items_volume zs) in *.
    destruct (Hpos pl (or_introl eq_refl)) as (Hl & Hw & Hh).
    assert (Hrest : 0 <= items_volume zs).
    { apply items_volume_nonneg. intros q Hq. apply Hpos. now right. }
    set (l := Placement.L pl) in *. set (w := Placement.W pl) in *.
    set (h := Placement.H pl) in *.
    assert (Hv : l * w * h < 2 ^ 53) by lia.
    assert (Hlw : l * w < 2 ^ 53) by nia.
    assert (Hl' : l < 2 ^ 53) by nia.
    assert (Hw' : w < 2 ^ 53) by nia.
    assert (Hh' : h < 2 ^ 53) by nia.
    cbn [placement64 B64.Placement.L B64.Placement.W B64.Placement.H].
    fold l w h.
    rewrite (grid_mul e e l w) by (try assumption; lia).
    rewrite (grid_mul (e + e) e (l * w) h) by (try assumption; nia).
    rewrite grid_add by (try assumption; unfold rep; nia).
    rewrite IH; [f_equal; lia | | nia | lia].
    intros q Hq. apply Hpos. now right.
Qed.

Lemma exact_weight_map64 (e : Z) (zs : list Placement.t) :
  unit_ok e ->
  (forall pl, In pl zs -> rep (UrunData.agirlik (Placement.urun pl))) ->
  exact_items_weight (map (placement64 e) zs)
  = items_weight zs * 2 ^ (e + 1074).
Proof.
  intros He. unfold exact_items_weight.
  induction zs as [|pl zs IH]; intros Hrep; cbn [map items_weight fold_right];
    [reflexivity|].
  fold (items_weight zs). fold (items_weight
    (map exact_placement (map (placement64 e) zs))).
  rewrite IH by (intros q Hq; apply Hrep; now right).
  cbn [exact_placement placement64 Placement.urun B64.Placement.urun
       exact_urun urun64 UrunData.agirlik B64.UrunData.agirlik].
  rewrite ticks_grid by (try assumption; apply Hrep; now left). ring.
Qed.

Lemma exact_volume_map64 (e : Z) (zs : list Placement.t) :
  unit_ok e -> unit_ok (e + e + e) ->
  (forall pl, In pl zs ->
     rep (Placement.L pl) /\ rep (Placement.W pl) /\ rep (Placement.H pl)) ->
  items_volume (map exact_placement (map (placement64 e) zs))
  = items_volume zs * 2 ^ (e + e + e + 1074) * 2 ^ 2148.
Proof.
  intros He He3.
  induction zs as [|pl zs IH]; intros Hrep; cbn [map items_volume fold_right];
    [reflexivity|].
  fold (items_volume zs). fold (items_volume
    (map exact_placement (map (placement64 e) zs))).
  rewrite IH by (intros q Hq; apply Hrep; now right).
  destruct (Hrep pl (or_introl eq_refl)) as (Hl & Hw & Hh).
  cbn [exact_placement placement64 Placement.L Placement.W Placement.H
       B64.Placement.L B64.Placement.W B64.Placement.H].
  rewrite !ticks_grid by assumption.
  assert (Hp : 2 ^ (e + 1074) * 2 ^ (e + 1074) * 2 ^ (e + 1074)
               = 2 ^ (e + e + e + 1074) * 2 ^ 2148).
  { unfold unit_ok in He, He3.
    rewrite <- (Z.pow_add_r 2 (e + e + e + 1074) 2148) by lia.
    rewrite <- !Z.pow_add_r by lia. f_equal. lia. }
  set (K := 2 ^ (e + 1074)) in *.
  set (K3 := 2 ^ (e + e + e + 1074) * 2 ^ 2148) in *.
  replace (Placement.L pl * K * (Placement.W pl * K) * (Placement.H pl * K))
    with (Placement.L pl * Placement.W pl * Placement.H pl * (K * K * K))
    by ring.
  rewrite Hp. unfold K3. ring.
Qed.

(** X21: the values [_create_django_palet] stores.  [toplam_agirlik] is
    the binary64 running sum [((0.0 + w1) + w2) + ...] of the [agirlik],
    and [kullanilan_hacim] the binary64 running sum of the rounded
    products [(L * W) * H], in the order of the placements.  Under the
    id of a product, [urun_konumlari] holds the position of the last
    placement of a product with that id, and nothing for an id that is
    not placed; when the placed products have pairwise distinct ids it
    has one entry per placement, in the order of the placements.  When
    the weights and the positive sizes are whole numbers of units [2^e]
    whose total weight and total volume stay below [2^53] units, the two
    sums are exact. *)
Theorem create_django_palet_values (placements : list B64.Placement.t) :
  let palet := B64.create_django_palet placements in
  B64.PaletFields.toplam_agirlik palet = B64.items_weight placements /\
  B64.PaletFields.kullanilan_hacim palet = B64.items_volume placements /\
  (forall k,
     dict_get k (B64.PaletFields.urun_konumlari palet) =
     option_map B64.placement_position
       (find (fun pl => B64.placement_id pl =? k) (rev placements))) /\
  (NoDup (map B64.placement_id placements) ->
   B64.PaletFields.urun_konumlari palet =
   map (fun pl => (B64.placement_id pl, B64.placement_position pl))
       placements) /\
  (forall e zs,
     unit_ok (e + e + e) -> placements = map (placement64 e) zs ->
     (forall pl, In pl zs ->
        0 <= UrunData.agirlik (Placement.urun pl) /\
        0 < Placement.L pl /\ 0 < Placement.W pl /\ 0 < Placement.H pl) ->
     items_weight zs < 2 ^ 53 -> items_volume zs < 2 ^ 53 ->
     is_finite (B64.PaletFields.toplam_agirlik palet) = true /\
     ticks (B64.PaletFields.toplam_agirlik palet)
       = exact_items_weight placements /\
     is_finite (B64.PaletFields.kullanilan_hacim palet) = true /\
     ticks (B64.PaletFields.kullanilan_hacim palet) * 2 ^ 2148
       = items_volume (map exact_placement placements)).
Proof.
  intros palet. unfold palet, B64.create_django_palet.
  destruct (create_django_palet_sums64 placements
              (B64.PaletFields.mk [] [] 0 0)) as [Hw Hv].
  cbn [B64.PaletFields.toplam_agirlik B64.PaletFields.kullanilan_hacim]
    in Hw, Hv.
  split; [exact Hw|]. split; [exact Hv|]. split; [|split].
  - intros k. rewrite create_django_palet_lookup64. simpl.
    destruct (find _ (rev placements)); reflexivity.
  - intros Hnd. now rewrite create_django_palet_distinct64.
  - intros e zs He3 -> Hpos Hwsum Hvsum.
    assert (He : unit_ok e) by (unfold unit_ok in *; lia).
    assert (Hwpos : forall pl, In pl zs ->
                      0 <= UrunData.agirlik (Placement.urun pl))
      by (intros pl Hpl; now apply Hpos).
    assert (Hspos : forall pl, In pl zs ->
                      0 < Placement.L pl /\ 0 < Placement.W pl /\
                      0 < Placement.H pl)
      by (intros pl Hpl; now apply Hpos).
    assert (Hw0 : 0 <= items_weight zs).
    { clear -Hwpos. induction zs as [|q zs IH]; cbn; [lia|].
      fold (items_weight zs).
      assert (0 <= UrunData.agirlik (Placement.urun q))
        by (apply Hwpos; now left).
      assert (0 <= items_weight zs)
        by (apply IH; intros pl H'; apply Hwpos; now right).
      lia. }
    pose proof (items_volume_nonneg zs Hspos) as Hv0.
    rewrite Hw, Hv.
    change 0%float with (grid e 0) at 1 2.
    rewrite (weight_sum_grid e zs 0) by (try assumption; lia).
    change 0%float with (grid (e + e + e) 0).
    rewrite (volume_sum_grid e zs 0) by (try assumption; lia).
    rewrite !Z.add_0_l.
    assert (Hin_w : forall pl, In pl zs ->
                      rep (UrunData.agirlik (Placement.urun pl))).
    { intros pl Hpl. specialize (Hwpos pl Hpl).
      apply in_split in Hpl as (l1 & l2 & ->).
      assert (UrunData.agirlik (Placement.urun pl)
              <= items_weight (l1 ++ pl :: l2)).
      { clear -Hpos. induction l1 as [|q l1 IH]; cbn.
        - fold (items_weight l2).
          assert (0 <= items_weight l2).
          { assert (H : forall r, In r l2 ->
                       0 <= UrunData.agirlik (Placement.urun r))
              by (intros r Hr; apply Hpos; right; exact Hr).
            clear -H. induction l2 as [|r l2 IH]; cbn; [lia|].
            fold (items_weight l2).
            assert (0 <= UrunData.agirlik (Placement.urun r))
              by (apply H; now left).
            assert (0 <= items_weight l2)
              by (apply IH; intros s Hs; apply H; now right).
            lia. }
          lia.
        - fold (items_weight (l1 ++ pl :: l2)).
          assert (0 <= UrunData.agirlik (Placement.urun q))
            by (apply Hpos; now left).
          assert (UrunData.agirlik (Placement.urun pl)
                  <= items_weight (l1 ++ pl :: l2)).
          { apply IH. intros r Hr. apply Hpos. now right. }
          lia. }
      unfold rep. lia. }
    assert (Hin_s : forall pl, In pl zs ->
                      rep (Placement.L pl) /\ rep (Placement.W pl) /\
                      rep (Placement.H pl)).
    { intros pl Hpl. pose proof (Hspos pl Hpl) as (Hl & Hw' & Hh).
      apply in_split in Hpl as (l1 & l2 & ->).
      assert (Placement.L pl * Placement.W pl * Placement.H pl
              <= items_volume (l1 ++ pl :: l2)).
      { clear -Hspos. induction l1 as [|q l1 IH]; cbn.
        - fold (items_volume l2).
          assert (0 <= items_volume l2).
          { apply items_volume_nonneg. intros r Hr. apply Hspos.
            right. exact Hr. }
          lia.
        - fold (items_volume (l1 ++ pl :: l2)).
          destruct (Hspos q (or_introl eq_refl)) as (Hl & Hw & Hh).
          assert (Placement.L pl * Placement.W pl * Placement.H pl
                  <= items_volume (l1 ++ pl :: l2)).
          { apply IH. intros r Hr. apply Hspos. now right. }
          nia. }
      unfold rep. repeat split; nia. }
    split; [apply is_finite_grid; [exact He | unfold rep; lia]|].
    split.
    { rewrite ticks_grid by (try assumption; unfold rep; lia).
      now rewrite exact_weight_map64. }
    split; [apply is_finite_grid; [exact He3 | unfold rep; lia]|].
    rewrite ticks_grid by (try assumption; unfold rep; lia).
    now rewrite exact_volume_map64.
Qed.

Lemma create_django_palet_values_witness :
  B64.PaletFields.urun_konumlari
    (B64.create_django_palet
       (map (placement64 0) [Placement.mk urun_cube 0 0 0 10 10 10;
                             Placement.mk urun_bar 10 0 0 20 10 10]))
  = [(1, (grid 0 0, grid 0 0, grid 0 0));
     (2, (grid 0 10, grid 0 0, grid 0 0))] /\
  ticks (B64.PaletFields.kullanilan_hacim
           (B64.create_django_palet
              (map (placement64 0) [Placement.mk urun_cube 0 0 0 10 10 10;
                                    Placement.mk urun_bar 10 0 0 20 10 10])))
    * 2 ^ 2148
  = items_volume
      (map exact_placement
         (map (placement64 0) [Placement.mk urun_cube 0 0 0 10 10 10;
                               Placement.mk urun_bar 10 0 0 20 10 10])).
Proof.
  pose proof (create_django_palet_values
                (map (placement64 0)
                   [Placement.mk urun_cube 0 0 0 10 10 10;
                    Placement.mk urun_bar 10 0 0 20 10 10])) as H.
  cbv zeta in H. destruct H as (_ & _ & _ & Hd & Hx).
  split.
  - rewrite Hd; [reflexivity|]. vm_compute.
    repeat (apply NoDup_cons; [not_in_concrete|]). apply NoDup_nil.
  - refine (proj2 (proj2 (proj2
      (Hx 0 [Placement.mk urun_cube 0 0 0 10 10 10;
             Placement.mk urun_bar 10 0 0 20 10 10]
          ltac:(unfold unit_ok; lia) eq_refl _ _ _)))).
    + intros pl Hpl. simpl in Hpl.
      destruct Hpl as [<- | [<- | []]]; vm_compute;
        repeat split; discriminate.
    + vm_compute. reflexivity.
    + vm_compute. reflexivity.
Defined.
